(** * Inter-layer pipelining: scheduling DAG, topological order and
      segment enumeration

    A shallow embedding of [nn_dataflow/core/inter_layer_pipeline.py]
    (class [InterLayerPipeline]) and the properties of its scheduling DAG
    builder, its depth-first topological sorter, its vertex segment
    enumerator and its segment generator.

    Conventions of the embedding:
    - layer names are Python strings, a DAG vertex is a tuple of layer
      names ([list string]), a vertex index is a Python integer ([Z], the
      input vertex is [-1]);
    - Python sets and dictionaries are stdpp's [gset] and [gmap];
    - a Python exception is a value of [exn]; an [AssertionError] carries
      the line of the source on which the [assert] stands;
    - a generator is the list of the values it yields together with the way
      it ends (exhausted, or an exception raised after those yields). *)

From Stdlib Require Import QArith.
From stdpp Require Import gmap strings list fin_maps sets.

Open Scope Z_scope.

(* stdpp's solvers clear hypotheses that may be gone already. *)
Set Warnings "-clear-no-such-hyp".

Module Defs.

(** ** Python outcomes *)

Inductive exn : Type :=
| AssertionError (line : nat)
| KeyError
| IndexError
| ValueError
| TypeError.

(** [OutOfFuel] is not a Python outcome: it is what a fuelled recursion
    of the embedding answers when its fuel is too small.  The theorems on
    termination show that the fuel used by the methods is always enough. *)
Inductive result (A : Type) : Type :=
| Ok (a : A)
| Raise (e : exn)
| OutOfFuel.

Arguments Ok {A} a.
Arguments Raise {A} e.
Arguments OutOfFuel {A}.

Definition rbind {A B : Type} (r : result A) (k : A → result B) : result B :=
  match r with
  | Ok a => k a
  | Raise e => Raise e
  | OutOfFuel => OutOfFuel
  end.

#[global] Instance result_ret : MRet result := λ A, Ok.
#[global] Instance result_bind : MBind result := λ A B k r, rbind r k.
#[global] Instance result_fmap : FMap result := λ A B f r, rbind r (λ a, Ok (f a)).

(** A generator: the yielded values, in order, and the final outcome. *)
Definition gen (Y A : Type) : Type := (list Y * result A)%type.

Definition yields {Y A : Type} (g : gen Y A) : list Y := g.1.
Definition outcome {Y A : Type} (g : gen Y A) : result A := g.2.

(** [yield y] followed by the rest of the generator. *)
Definition yield_then {Y A : Type} (y : Y) (g : gen Y A) : gen Y A :=
  (y :: g.1, g.2).

(** Sequencing of generators: the second part runs only if the first one
    ended without an exception. *)
Definition gbind {Y A B : Type} (g : gen Y A) (k : A → gen Y B) : gen Y B :=
  match g.2 with
  | Ok a => (g.1 ++ (k a).1, (k a).2)
  | Raise e => (g.1, Raise e)
  | OutOfFuel => (g.1, OutOfFuel)
  end.

(** [d[k]] on a dictionary. *)
Definition getitem {K V : Type} `{Countable K} (d : gmap K V) (k : K) : result V :=
  match d !! k with
  | Some v => Ok v
  | None => Raise KeyError
  end.

(** ** Set operations taking a tuple, as the source calls them *)

Definition isdisjoint `{Countable A} (X : gset A) (t : list A) : bool :=
  bool_decide (X ## list_to_set t).

Definition issubset `{Countable A} (X : gset A) (t : list A) : bool :=
  bool_decide (X ⊆ list_to_set t).

Definition difference_tuple `{Countable A} (X : gset A) (t : list A) : gset A :=
  X ∖ list_to_set t.

(** [min(X)]: Python raises [ValueError] on an empty set. *)
Definition set_min (X : gset Z) : result Z :=
  match elements X with
  | [] => Raise ValueError
  | x :: xs => Ok (foldr Z.min x xs)
  end.

(** [range(a, b)]. *)
Definition range (a b : Z) : list Z := seqZ a (b - a).

(** A vertex of the scheduling DAG: the tuple of the names of its layers. *)
Abbreviation vertex := (list string).

(** ** The vertex segment enumerator, [_gen_vseg] *)

Section Enumerator.

Variable dag_vertex_list : list vertex.
Variables dag_prev_dict dag_next_dict : gmap Z (gset Z).
Variable dag_input_vertex : Z.

(** [set.union(set(vseg), *[self.dag_prev_dict[i] for i in vseg])] *)
Fixpoint prev_union (acc : gset Z) (vseg : list Z) : result (gset Z) :=
  match vseg with
  | [] => Ok acc
  | i :: rest =>
      prevs ← getitem dag_prev_dict i;
      prev_union (acc ∪ prevs) rest
  end.

(** [share_deps]: the frontier shares a dependency with the segment, if
    the segment is not empty. *)
Definition share_deps (vseg : list Z) (frontier_prevs : gset Z) : result bool :=
  match vseg with
  | [] => Ok true
  | _ :: _ =>
      u ← prev_union (list_to_set vseg) vseg;
      Ok (negb (bool_decide (frontier_prevs ## u)))
  end.

(** [coupled_prevs]: some of several previous vertices are in the
    segment. *)
Definition coupled_prevs (vseg : list Z) (frontier_prevs : gset Z) : bool :=
  bool_decide (1 < size frontier_prevs)%nat && negb (isdisjoint frontier_prevs vseg).

(** The inner [for idx in vseg] loop checking rule 3, with its [else]. *)
Inductive rule3_check : Type :=
| R3Valid             (* the loop ran to its end: the [else] branch *)
| R3Invalid           (* [break]: more vertices are needed *)
| R3Raise (e : exn).

Fixpoint check_rule3 (vseg : list Z) (frontier : Z) (idxs : list Z) : rule3_check :=
  match idxs with
  | [] => R3Valid
  | idx :: rest =>
      match getitem dag_next_dict idx with
      | Ok nexts =>
          if negb (isdisjoint nexts vseg || issubset nexts vseg) then
            match set_min (difference_tuple nexts vseg) with
            | Ok m =>
                if bool_decide (frontier < m) then R3Invalid
                else R3Raise (AssertionError 179)
            | Raise e => R3Raise e
            | OutOfFuel => R3Raise ValueError
            end
          else check_rule3 vseg frontier rest
      | Raise e => R3Raise e
      | OutOfFuel => R3Raise KeyError
      end
  end.

(** The statements after the [for frontier] loop, reached when the range
    is exhausted and after a [break]. *)
Definition vseg_finish (vertex_idx : Z) (seg_vertex_done : gset Z)
  : gen (list Z) (gset Z) :=
  if bool_decide (vertex_idx ∈ seg_vertex_done) then ([], Raise (AssertionError 193))
  else ([], Ok (seg_vertex_done ∪ {[vertex_idx]})).

(** The [for frontier in range(...)] loop.  [rec] is the recursive call
    of [_gen_vseg]; the state threaded through is [self.seg_vertex_done]. *)
Fixpoint vseg_loop (rec : Z → option (gset Z) → gset Z → gen (list Z) (gset Z))
    (vertex_idx : Z) (done : gset Z)
    (frontiers : list Z) (vseg : list Z) (seg_vertex_done : gset Z)
  : gen (list Z) (gset Z) :=
  match frontiers with
  | [] => vseg_finish vertex_idx seg_vertex_done
  | frontier :: rest =>
      match getitem dag_prev_dict frontier with
      | Ok frontier_prevs =>
          match share_deps vseg frontier_prevs with
          | Ok sd =>
              if negb sd || coupled_prevs vseg frontier_prevs then
                match vseg with
                | [] => ([], Raise (AssertionError 161))
                | _ :: _ => vseg_finish vertex_idx seg_vertex_done
                end
              else
                let vseg := vseg ++ [frontier] in
                match check_rule3 vseg frontier vseg with
                | R3Raise e => ([], Raise e)
                | R3Invalid => vseg_loop rec vertex_idx done rest vseg seg_vertex_done
                | R3Valid =>
                    yield_then vseg
                      (if bool_decide (frontier + 1 ∈ seg_vertex_done) then
                         vseg_loop rec vertex_idx done rest vseg seg_vertex_done
                       else
                         gbind (rec (frontier + 1) (Some (done ∪ list_to_set vseg))
                                  seg_vertex_done)
                           (vseg_loop rec vertex_idx done rest vseg))
                end
          | Raise e => ([], Raise e)
          | OutOfFuel => ([], OutOfFuel)
          end
      | Raise e => ([], Raise e)
      | OutOfFuel => ([], OutOfFuel)
      end
  end.

(** [not done], for [done] being [None] or a set. *)
Definition not_done (done : option (gset Z)) : bool :=
  match done with
  | None => true
  | Some d => bool_decide (d = ∅)
  end.

Fixpoint _gen_vseg (fuel : nat) (vertex_idx : Z) (done : option (gset Z))
    (seg_vertex_done : gset Z) : gen (list Z) (gset Z) :=
  match fuel with
  | O => ([], OutOfFuel)
  | S fuel' =>
      let '(done, seg_vertex_done) :=
        if not_done done then (∅, ∅) else (default ∅ done, seg_vertex_done) in
      let done :=
        if bool_decide (dag_input_vertex ∈ done) then done
        else done ∪ {[dag_input_vertex]} in
      vseg_loop (_gen_vseg fuel') vertex_idx done
        (range vertex_idx (Z.of_nat (length dag_vertex_list))) [] seg_vertex_done
  end.

(** The top-level call [self._gen_vseg()]: the recursion is at most as deep
    as there are vertices, plus one call for the empty range. *)
Definition gen_vseg_all (seg_vertex_done : gset Z) : gen (list Z) (gset Z) :=
  _gen_vseg (S (length dag_vertex_list)) 0 None seg_vertex_done.

End Enumerator.

(** ** The network, as this module uses it *)

(** Modelled from the spec: the class of a layer, of which this module
    only asks whether it is a [ConvLayer] (a layer with filters, which is
    never merged) or not (a layer that may merge into a previous one). *)
Inductive Layer : Type :=
| ConvLayer
| LocalRegionLayer.

Definition isinstance_ConvLayer (l : Layer) : bool :=
  match l with
  | ConvLayer => true
  | LocalRegionLayer => false
  end.

(** Modelled from the spec: the interface of the external class [Network]:
    the ordered iteration over the layer names, the lookup of a layer by
    its name, the previous and next layers of a layer (with [None] for the
    input and the output of the network), the first layers and the key
    reserved for the input. *)
Record Network : Type := {
  net_iter : list string;
  net_getitem : string → Layer;
  prev_layers : string → list (option string);
  next_layers : string → list (option string);
  first_layers : list string;
  INPUT_LAYER_KEY : string;
}.

(** Modelled from the spec: the hardware resource is an opaque descriptor,
    passed through unexamined. *)
Record Resource : Type := { resource_descr : string }.

(** Truth value of a layer name or [None] in a condition ([if nl], [if pl]):
    [None] and the empty string are false. *)
Definition truthy (o : option string) : bool :=
  match o with
  | None => false
  | Some s => negb (String.eqb s "")
  end.

(** A [for] loop whose body may raise. *)
Fixpoint for_each {A S : Type} (body : S → A → result S) (l : list A) (s : S)
  : result S :=
  match l with
  | [] => Ok s
  | x :: rest => s' ← body s x; for_each body rest s'
  end.

(** ** The scheduling DAG builder: merging layers into vertices *)

Section Builder.

Variable network : Network.

(** The test of line 242 on the vertex at [idx]. *)
Definition can_merge (prevs : gset (option string)) (v : vertex) : result bool :=
  let vhead := removelast v in
  match last v with
  | None => Raise IndexError
  | Some vtail =>
      Ok (bool_decide (prevs ## list_to_set (Some <$> vhead))
          && bool_decide (Some vtail ∈ prevs)
          && bool_decide (length (next_layers network vtail) = 1%nat))
  end.

(** [for idx in reversed(range(len(dag_vertex_set)))], with its [else]:
    the index of the vertex the layer merges into, if any. *)
Fixpoint find_merge (dag_vertex_set : list vertex) (prevs : gset (option string))
    (idxs : list nat) : result (option nat) :=
  match idxs with
  | [] => Ok None
  | idx :: rest =>
      match dag_vertex_set !! idx with
      | None => Raise IndexError
      | Some v =>
          b ← can_merge prevs v;
          if b : bool then Ok (Some idx) else find_merge dag_vertex_set prevs rest
      end
  end.

(** The body of the loop over the layers of the network. *)
Definition add_layer (dag_vertex_set : list vertex) (layer_name : string)
  : result (list vertex) :=
  let layer := net_getitem network layer_name in
  if isinstance_ConvLayer layer then Ok (dag_vertex_set ++ [[layer_name]])
  else
    let prevs : gset (option string) := list_to_set (prev_layers network layer_name) in
    if bool_decide (prevs = ∅) then Raise (AssertionError 230)
    else
      m ← find_merge dag_vertex_set prevs (reverse (seq 0 (length dag_vertex_set)));
      match m with
      | Some idx =>
          match dag_vertex_set !! idx with
          | Some v => Ok (<[idx := v ++ [layer_name]]> dag_vertex_set)
          | None => Raise IndexError
          end
      | None => Ok (dag_vertex_set ++ [[layer_name]])
      end.

(** Lines 219 to 250: the vertex set, in the order of creation. *)
Definition build_vertex_set : result (list vertex) :=
  dag_vertex_set ← for_each add_layer (net_iter network) [];
  if bool_decide (sum_list (length <$> dag_vertex_set) = length (net_iter network))
  then Ok dag_vertex_set
  else Raise (AssertionError 250).

End Builder.

(** ** The topological sorter *)

Record dfs_state : Type := {
  visited : list vertex;
  unseen : gset vertex;
  seen : gset vertex;
}.

Section TopologicalOrder.

Variable network : Network.

(** The local list [next_layers] of [_dfs]. *)
Definition dfs_next_layers (v : vertex) : list string :=
  foldl (λ acc l,
    foldl (λ acc nl,
      match nl with
      | Some s =>
          if truthy nl && bool_decide (s ∉ v) && bool_decide (s ∉ acc)
          then acc ++ [s] else acc
      | None => acc
      end) acc (next_layers network l)) [] v.

(** [for l in ls: for v in unseen: if l in v: append v].  Python does not
    fix the order in which it iterates over the set [unseen]; the vertices
    are taken in the order of [elements]. *)
Definition vertices_of (ls : list string) (unseen : gset vertex) : list vertex :=
  ls ≫= λ l, filter (λ v, l ∈ v) (elements unseen).

Fixpoint _dfs (fuel : nat) (v : vertex) (st : dfs_state) : result dfs_state :=
  match fuel with
  | O => OutOfFuel
  | S fuel' =>
      if bool_decide ((v ∉ seen st) ∧ (v ∉ visited st)) then
        let unseen1 := unseen st ∖ {[v]} in
        let seen1 := seen st ∪ {[v]} in
        let next_vertices := vertices_of (reverse (dfs_next_layers v)) unseen1 in
        st' ← for_each (λ s nv, _dfs fuel' nv s) next_vertices
                {| visited := visited st; unseen := unseen1; seen := seen1 |};
        if bool_decide (v ∈ seen st') then
          Ok {| visited := visited st' ++ [v];
                unseen := unseen st';
                seen := seen st' ∖ {[v]} |}
        else Raise KeyError
      else Raise (AssertionError 317)
  end.

Definition _topological_order (dag_vertex_set : list vertex) : result (list vertex) :=
  let st0 := {| visited := []; unseen := list_to_set dag_vertex_set; seen := ∅ |} in
  let start_vertices := vertices_of (reverse (first_layers network)) (unseen st0) in
  st ← for_each (λ s v, _dfs (S (length dag_vertex_set)) v s) start_vertices st0;
  if bool_decide (unseen st = ∅) then
    if bool_decide (seen st = ∅) then Ok (reverse (visited st))
    else Raise (AssertionError 351)
  else Raise (AssertionError 350).

End TopologicalOrder.

(** ** The adjacency of the vertices *)

(** [self.dag_vertex_dict] has the layer names as keys, with vertex indices
    as values, and the input vertex as a key, with the input layer key as
    value: a pair of maps, one per type of key. *)
Definition vertex_dict : Type := (gmap string Z * gmap Z string)%type.

(** The attributes initialised by [_calc_sched_dag]. *)
Record sched_dag : Type := {
  dag_input_vertex : Z;
  dag_vertex_list : list vertex;
  dag_vertex_dict : vertex_dict;
  dag_prev_dict : gmap Z (gset Z);
  dag_next_dict : gmap Z (gset Z);
}.

Section SchedDag.

Variable network : Network.

(** Lines 258 to 261. *)
Definition index_layers (dag_vertex_list : list vertex) : result (gmap string Z) :=
  for_each (λ d '(vidx, v),
      for_each (λ d layer_name,
          if bool_decide (layer_name ∈ dom d) then Raise (AssertionError 260)
          else Ok (<[layer_name := vidx]> d)) v d)
    (zip (seqZ 0 (Z.of_nat (length dag_vertex_list))) dag_vertex_list) ∅.

(** [d[vidx].add(x)] *)
Definition set_add (d : gmap Z (gset Z)) (vidx x : Z) : result (gmap Z (gset Z)) :=
  s ← getitem d vidx; Ok (<[vidx := s ∪ {[x]}]> d).

(** Lines 273 to 291: the body of the loop over the layers. *)
Definition link_layer (dag_input_vertex : Z) (dag_vertex_dict : gmap string Z)
    (dicts : gmap Z (gset Z) * gmap Z (gset Z)) (layer_name : string)
  : result (gmap Z (gset Z) * gmap Z (gset Z)) :=
  vidx ← getitem dag_vertex_dict layer_name;
  dag_prev_dict ← for_each (λ d pl,
      pvidx ← (match pl with
               | Some s => if truthy pl then getitem dag_vertex_dict s
                           else Ok dag_input_vertex
               | None => Ok dag_input_vertex
               end);
      if bool_decide (pvidx ≠ vidx) then set_add d vidx pvidx else Ok d)
    (prev_layers network layer_name) dicts.1;
  dag_next_dict ← for_each (λ d nl,
      match nl with
      | Some s =>
          if truthy nl then
            nvidx ← getitem dag_vertex_dict s;
            if bool_decide (nvidx ≠ vidx) then set_add d vidx nvidx else Ok d
          else Ok d
      | None => Ok d
      end)
    (next_layers network layer_name) dicts.2;
  Ok (dag_prev_dict, dag_next_dict).

(** Lines 268 to 271: [dict((vidx, set()) for vidx in range(n))]. *)
Definition empty_sets (n : nat) : gmap Z (gset Z) :=
  list_to_map ((λ vidx, (vidx, ∅)) <$> seqZ 0 (Z.of_nat n)).

(** Lines 293 to 297: the next vertices of the input vertex. *)
Definition input_nexts (dag_input_vertex : Z) (dag_prev_dict : gmap Z (gset Z)) : gset Z :=
  dom (filter (λ kv, dag_input_vertex ∈ kv.2) dag_prev_dict).

Definition _calc_sched_dag : result sched_dag :=
  let dag_input_vertex := -1 in
  dag_vertex_set ← build_vertex_set network;
  dag_vertex_list ← _topological_order network dag_vertex_set;
  dag_vertex_dict ← index_layers dag_vertex_list;
  dicts ← for_each (link_layer dag_input_vertex dag_vertex_dict)
            (net_iter network)
            (empty_sets (length dag_vertex_list), empty_sets (length dag_vertex_list));
  Ok {| dag_input_vertex := dag_input_vertex;
        dag_vertex_list := dag_vertex_list;
        dag_vertex_dict := (dag_vertex_dict,
                           {[dag_input_vertex := INPUT_LAYER_KEY network]});
        dag_prev_dict := dicts.1;
        dag_next_dict := <[dag_input_vertex := input_nexts dag_input_vertex dicts.1]> dicts.2 |}.

End SchedDag.

(** ** The pipeline object and its methods *)

(** The value of [max_util_drop]: a Python number.  Comparisons of numbers
    are exact; [nan] compares false with everything. *)
Inductive number : Type :=
| Num (q : Q)
| Inf (negative : bool)
| NaN.

(** [a <= b] on numbers. *)
Definition number_le (a b : number) : bool :=
  match a, b with
  | NaN, _ | _, NaN => false
  | Num p, Num q => Qle_bool p q
  | Inf true, _ => true
  | _, Inf false => true
  | Inf false, _ => false
  | _, Inf true => false
  end.

(** An argument of the constructor, as [isinstance] sees it. *)
Inductive pyobj : Type :=
| PyNetwork (n : Network)
| PyResource (r : Resource)
| PyOther.

Record InterLayerPipeline : Type := {
  network : Network;
  batch_size : Z;
  resource : Resource;
  max_util_drop : number;
  dag : sched_dag;
  seg_vertex_done : gset Z;
}.

(** [__init__]: no object exists for the caller when it raises. *)
Definition __init__ (network : pyobj) (batch_size : Z) (resource : pyobj)
    (max_util_drop : number) : result InterLayerPipeline :=
  match network with
  | PyNetwork net =>
      match resource with
      | PyResource res =>
          if negb (number_le (Num 0) max_util_drop && number_le max_util_drop (Num 1))
          then Raise ValueError
          else
            d ← _calc_sched_dag net;
            Ok {| network := net;
                  batch_size := batch_size;
                  resource := res;
                  max_util_drop := max_util_drop;
                  dag := d;
                  seg_vertex_done := ∅ |}
      | _ => Raise TypeError
      end
  | _ => Raise TypeError
  end.

(** The default value of [max_util_drop], 0.05. *)
Definition max_util_drop_default : number := Num (5 # 100).

Definition ordered_layer_list (self : InterLayerPipeline) : list string :=
  concat (dag_vertex_list (dag self)).

(** A segment: a tuple of stages, each a tuple of layer names. *)
Abbreviation segment := (list (list string)).

(** Modelled from the spec: a pipeline segment, as far as this module looks
    at it: the tuple it was made from and the acceptance flag computed by
    the external validator. *)
Record PipelineSegment : Type := {
  seg : segment;
  valid : bool;
}.

Record Options : Type := {
  partition_interlayer : bool;
  hw_gbuf_save_writeback : bool;
}.

(** [l[i]] on a list, with Python's negative indices. *)
Definition list_getitem {A : Type} (l : list A) (i : Z) : result A :=
  let n := Z.of_nat (length l) in
  let j := if bool_decide (i < 0) then n + i else i in
  if bool_decide (0 ≤ j < n) then
    match l !! Z.to_nat j with
    | Some x => Ok x
    | None => Raise IndexError
    end
  else Raise IndexError.

(** [_gen_vseg] of the object. *)
Definition self_gen_vseg (self : InterLayerPipeline) : gen (list Z) (gset Z) :=
  gen_vseg_all (dag_vertex_list (dag self)) (dag_prev_dict (dag self))
    (dag_next_dict (dag self)) (dag_input_vertex (dag self)) (seg_vertex_done self).

Section Orchestrator.

(** The external validator: the [valid] flag of the [PipelineSegment] made
    from a tuple and the keyword arguments. *)
Variable validator : segment → Network → Z → Resource → number → bool.

Variable self : InterLayerPipeline.
Variable options : Options.

Definition new_PipelineSegment (sg : segment) : PipelineSegment :=
  {| seg := sg;
     valid := validator sg (network self) (batch_size self) (resource self)
                (max_util_drop self) |}.

(** Lines 73 to 77. *)
Fixpoint gen_layer_segments (layers : list string) : gen PipelineSegment () :=
  match layers with
  | [] => ([], Ok ())
  | layer :: rest =>
      let sgm := new_PipelineSegment [[layer]] in
      if valid sgm then yield_then sgm (gen_layer_segments rest)
      else ([], Raise (AssertionError 76))
  end.

(** [seg_cands.add(seg)].  Python does not fix the order in which the set
    of the candidates is iterated: the candidates of a vseg are kept in
    the order of their insertion, and the order in which the (at most two)
    segments of one vseg stand in a list of yields is this choice of the
    embedding, not a fact of the program. *)
Definition cands_add (seg_cands : list segment) (sg : segment) : list segment :=
  if bool_decide (sg ∈ seg_cands) then seg_cands else seg_cands ++ [sg].

(** Lines 83 to 95: the candidates of a vseg. *)
Definition seg_cands_of (vseg : list Z) : result (list segment) :=
  let seg_cands := [] in
  seg_cands ←
    (if partition_interlayer options then
       sg ← mapM (list_getitem (dag_vertex_list (dag self))) vseg;
       Ok (cands_add seg_cands sg)
     else Ok seg_cands);
  if hw_gbuf_save_writeback options then
    vs ← mapM (list_getitem (dag_vertex_list (dag self))) vseg;
    Ok (cands_add seg_cands [concat vs])
  else Ok seg_cands.

(** Lines 98 to 101. *)
Definition yield_valid (seg_cands : list segment) : list PipelineSegment :=
  filter (λ sgm, valid sgm = true) (new_PipelineSegment <$> seg_cands).

(** Lines 80 to 101: the loop over the vsegs; [vseg_end] is the way the
    enumerator ends after its last vseg. *)
Fixpoint gen_pipelined (vsegs : list (list Z)) (vseg_end : result (gset Z))
  : gen PipelineSegment (gset Z) :=
  match vsegs with
  | [] => ([], vseg_end)
  | vseg :: rest =>
      match seg_cands_of vseg with
      | Ok seg_cands =>
          let g := gen_pipelined rest vseg_end in
          (yield_valid seg_cands ++ g.1, g.2)
      | Raise e => ([], Raise e)
      | OutOfFuel => ([], OutOfFuel)
      end
  end.

(** [gen_segment]: the yielded segments, and the value of
    [self.seg_vertex_done] when the generator is exhausted. *)
Definition gen_segment : gen PipelineSegment (gset Z) :=
  gbind (gen_layer_segments (net_iter (network self)))
    (λ _, let g := self_gen_vseg self in gen_pipelined g.1 g.2).

End Orchestrator.

End Defs.

Import Defs.

Module EnumSpec.

(** * Specifications *)

(** ** The rules of the vertex segments *)

Section Rules.

Variables dag_prev_dict dag_next_dict : gmap Z (gset Z).

(** The previous and next vertices of a vertex in the adjacency. *)
Definition prevs_of (i : Z) : gset Z := default ∅ (dag_prev_dict !! i).
Definition nexts_of (i : Z) : gset Z := default ∅ (dag_next_dict !! i).

(** Rule 1: every vertex added after the first has a previous vertex in
    the segment it is added to, or among the previous vertices of that
    segment. *)
Definition rule1 (vseg : list Z) : Prop :=
  ∀ pre f post, vseg = pre ++ f :: post → pre ≠ [] →
    ∃ p, p ∈ prevs_of f ∧ (p ∈ pre ∨ ∃ i, i ∈ pre ∧ p ∈ prevs_of i).

(** Rule 2: a vertex with several previous vertices is in a segment with
    none of them. *)
Definition rule2 (vseg : list Z) : Prop :=
  ∀ f p, f ∈ vseg → (1 < size (prevs_of f))%nat → p ∈ prevs_of f → p ∉ vseg.

(** Rule 3: the next vertices of a vertex of the segment are all in the
    segment, or none of them is. *)
Definition rule3 (vseg : list Z) : Prop :=
  ∀ i, i ∈ vseg →
    (∀ j, j ∈ nexts_of i → j ∉ vseg) ∨ (∀ j, j ∈ nexts_of i → j ∈ vseg).


(** The vertices [start], [start + 1], ..., [start + k]. *)
Definition run (start : Z) (k : nat) : list Z := seqZ start (Z.of_nat (S k)).

(** A run of vertices that starts at [start] or later. *)
Definition run_from (start : Z) (vseg : list Z) : Prop :=
  ∃ v k, start ≤ v ∧ vseg = run v k.

(** The adjacency follows the order of the vertices: the previous vertices
    of a vertex have smaller indices, its next vertices larger ones, and
    every vertex has an entry in both dictionaries. *)
Definition topological_adjacency (nvertices : Z) : Prop :=
  (∀ i, 0 ≤ i < nvertices → is_Some (dag_prev_dict !! i) ∧ is_Some (dag_next_dict !! i)) ∧
  (∀ i j, j ∈ prevs_of i → j < i) ∧
  (∀ i j, j ∈ nexts_of i → i < j).

(** The checks of the enumerator, as functions of the segment alone: the
    frontier may extend the segment (rules 1 and 2), and the segment is
    valid (rule 3). *)
Definition extends_ok (vseg : list Z) (frontier : Z) : bool :=
  match getitem dag_prev_dict frontier with
  | Ok frontier_prevs =>
      match share_deps dag_prev_dict vseg frontier_prevs with
      | Ok sd => sd && negb (coupled_prevs vseg frontier_prevs)
      | _ => false
      end
  | _ => false
  end.

(** The frontiers [s + 1], ..., [s + k] may extend, one after the other,
    the run that starts at [s]. *)
Definition chain_ok (s : Z) (k : nat) : Prop :=
  ∀ j : nat, (j < k)%nat →
    extends_ok (run s j) (s + Z.of_nat (S j)) = true.

Definition rule3_on (vseg idxs : list Z) : bool :=
  forallb (λ idx,
    match dag_next_dict !! idx with
    | Some nexts => isdisjoint nexts vseg || issubset nexts vseg
    | None => false
    end) idxs.

Definition rule3_ok (vseg : list Z) : bool := rule3_on vseg vseg.

(** The vsegs a call yields from its own loop once every later start has
    been explored: the segment grows by one frontier at a time until a
    frontier may not extend it, and is yielded whenever it is valid. *)
Fixpoint loop_runs (frontiers : list Z) (vseg : list Z) : list (list Z) :=
  match frontiers with
  | [] => []
  | frontier :: rest =>
      if extends_ok vseg frontier then
        let vseg' := vseg ++ [frontier] in
        (if rule3_ok vseg' then [vseg'] else []) ++ loop_runs rest vseg'
      else []
  end.

(** The vsegs of a call that starts [n] vertices before the end: the
    single start vertex, the vsegs of the later starts, and the longer
    vsegs of this start. *)
Fixpoint all_runs (nvertices : Z) (n : nat) : list (list Z) :=
  match n with
  | O => []
  | S n' =>
      let start := nvertices - Z.of_nat n in
      [start] :: all_runs nvertices n' ++ loop_runs (range (start + 1) nvertices) [start]
  end.

End Rules.

End EnumSpec.

Import EnumSpec.

Module BuildSpec.

(** ** The vertices of the scheduling DAG *)

Section VertexSpec.

Variable network : Network.

(** A vertex is eligible for a layer with the previous layers [prevs]: no
    layer of its head is a previous layer, its tail is one, and its tail
    has exactly one next layer. *)
Definition eligible (prevs : gset (option string)) (v : vertex) : Prop :=
  ∃ vhead vtail, v = vhead ++ [vtail] ∧
    (∀ l, l ∈ vhead → Some l ∉ prevs) ∧
    Some vtail ∈ prevs ∧
    length (next_layers network vtail) = 1%nat.

(** Every layer of a vertex but the first follows one of its previous
    layers, which has no other next layer. *)
Definition chained (v : vertex) : Prop :=
  ∀ (i : nat) a b, v !! i = Some a → v !! S i = Some b →
    Some a ∈ prev_layers network b ∧ length (next_layers network a) = 1%nat.

(** The vertex set built from the layers [layers]. *)
Record vertex_set_ok (layers : list string) (dag_vertex_set : list vertex) : Prop := {
  vs_nonempty : Forall (λ v, v ≠ []) dag_vertex_set;
  vs_layers : concat dag_vertex_set ≡ₚ layers;
  vs_chained : Forall chained dag_vertex_set;
  vs_order : Forall (λ v, v `sublist_of` layers) dag_vertex_set;
}.

(** The network is well formed: the layer names are distinct and not
    empty, the previous and the next layers agree, and the layers are
    ranked so that a layer comes after its previous layers (the network is
    acyclic). *)
Record network_ok (rank : string → nat) : Prop := {
  net_nodup : NoDup (net_iter network);
  net_names : ∀ l, l ∈ net_iter network → l ≠ ""%string;
  net_prev_next : ∀ a b, a ∈ net_iter network → b ∈ net_iter network →
    (Some a ∈ prev_layers network b ↔ Some b ∈ next_layers network a);
  net_acyclic : ∀ a b, a ∈ net_iter network → b ∈ net_iter network →
    Some a ∈ prev_layers network b → (rank a < rank b)%nat;
}.

(** An edge of the DAG: a layer of [u] has a next layer in another
    vertex [v]. *)
Definition vedge (u v : vertex) : Prop :=
  u ≠ v ∧ ∃ l nl, l ∈ u ∧ nl ∈ v ∧ Some nl ∈ next_layers network l.

(** The rank of a vertex is the rank of its last layer. *)
Definition vrank (rank : string → nat) (v : vertex) : nat :=
  match last v with
  | Some l => rank l
  | None => 0%nat
  end.

(** A list of vertices is in topological order: an edge goes from a vertex
    to a later one. *)
Definition topological (order : list vertex) : Prop :=
  ∀ (i j : nat) u v, order !! i = Some u → order !! j = Some v → vedge u v → (i < j)%nat.

End VertexSpec.

(** ** The states of the depth-first search *)

Section DfsSpec.

Variable network : Network.
Variable rank : string → nat.
Variable dag_vertex_set : list vertex.

(** The three sets of the search partition the vertices, and the visited
    vertices are in the reverse of a topological order: the vertices an
    edge leads to are visited before the vertex the edge leaves. *)
Record dfs_inv (st : dfs_state) : Prop := {
  inv_cover : ∀ v, v ∈ dag_vertex_set ↔ v ∈ unseen st ∨ v ∈ seen st ∨ v ∈ visited st;
  inv_unseen_seen : ∀ v, v ∈ unseen st → v ∉ seen st;
  inv_unseen_visited : ∀ v, v ∈ unseen st → v ∉ visited st;
  inv_seen_visited : ∀ v, v ∈ seen st → v ∉ visited st;
  inv_nodup : NoDup (visited st);
  inv_topo : ∀ l1 u l2 v, visited st = l1 ++ u :: l2 → v ∈ dag_vertex_set →
               vedge network u v → v ∈ l1;
}.

(** What a visit of the vertex [v] from the state [st] does when it ends
    normally in the state [st']. *)
Definition visit_post (v : vertex) (st st' : dfs_state) : Prop :=
  dfs_inv st' ∧ seen st' = seen st ∧ unseen st' ⊆ unseen st ∧
  (∃ new, visited st' = visited st ++ new) ∧ v ∈ visited st'.

(** A visit may start at [v]: [v] is a vertex, and the vertices whose
    visit is in progress have smaller ranks. *)
Definition visit_pre (v : vertex) (st : dfs_state) : Prop :=
  v ∈ dag_vertex_set ∧ ∀ w, w ∈ seen st → (vrank rank w < vrank rank v)%nat.

Definition dfs_ok (f : vertex → dfs_state → result dfs_state) : Prop :=
  ∀ v st st', dfs_inv st → visit_pre v st → f v st = Ok st' → visit_post v st st'.

(** What bounds the depth of the search: every vertex is in one of the
    three sets, and the unseen ones are vertices. *)
Definition dfs_cover (st : dfs_state) : Prop :=
  (∀ v, v ∈ dag_vertex_set → v ∈ unseen st ∨ v ∈ seen st ∨ v ∈ visited st) ∧
  (∀ v, v ∈ unseen st → v ∈ dag_vertex_set).

End DfsSpec.

(** ** The edges of the adjacency *)

Section AdjacencySpec.

Variable network : Network.
Variable dag_vertex_dict : gmap string Z.
Variable dag_input_vertex : Z.

(** Every previous vertex recorded for a vertex is the input vertex or
    the vertex of a previous layer of one of its layers, in [layers]. *)
Definition prev_sound (layers : list string) (d : gmap Z (gset Z)) : Prop :=
  ∀ i j, j ∈ prevs_of d i →
    ∃ l, l ∈ layers ∧ dag_vertex_dict !! l = Some i ∧ j ≠ i ∧
      (j = dag_input_vertex ∨
       ∃ s, Some s ∈ prev_layers network l ∧ dag_vertex_dict !! s = Some j).

(** Every next vertex recorded for a vertex is the vertex of a next layer
    of one of its layers, in [layers]. *)
Definition next_sound (layers : list string) (d : gmap Z (gset Z)) : Prop :=
  ∀ i j, j ∈ nexts_of d i →
    ∃ l, l ∈ layers ∧ dag_vertex_dict !! l = Some i ∧ j ≠ i ∧
      ∃ s, Some s ∈ next_layers network l ∧ dag_vertex_dict !! s = Some j.

End AdjacencySpec.

(** ** The segments of the generator *)

(** The vertices [v], ..., [v + k] of the order. *)
Definition vertices_of_run (order : list vertex) (v k : nat) : list vertex :=
  take (S k) (drop v order).

(** An exception raised by the checks of the arguments of the
    constructor. *)
Definition configuration_error (e : exn) : Prop := e = TypeError ∨ e = ValueError.

(** [max_util_drop] lies in the closed interval from 0 to 1. *)
Definition in_unit_interval (x : number) : Prop :=
  match x with
  | Num q => (0 <= q)%Q ∧ (q <= 1)%Q
  | _ => False
  end.

(** A network given by the table of its layers: the name, the class and
    the previous layers of each layer, in the order of the network.  The
    next layers of a layer are the layers it is a previous layer of, or
    the output ([None]) when there is none. *)
Definition network_of (layers : list (string * Layer * list (option string)))
    (firsts : list string) : Network :=
  {| net_iter := layers.*1.*1;
     net_getitem := λ name,
       default ConvLayer ((λ x, x.2.1.2) <$> list_find (λ x, x.1.1 = name) layers);
     prev_layers := λ name,
       default [] ((λ x, x.2.2) <$> list_find (λ x, x.1.1 = name) layers);
     next_layers := λ name,
       let nexts := Some <$> (filter (λ x, Some name ∈ x.2) layers).*1.*1 in
       match nexts with [] => [None] | _ => nexts end;
     first_layers := firsts;
     INPUT_LAYER_KEY := "__INPUT__" |}.

(** The rank of a layer in a network whose layers are declared after
    their previous layers: its position in the network. *)
Definition declaration_rank (network : Network) (l : string) : nat :=
  default 0%nat (fst <$> list_find (λ x, x = l) (net_iter network)).

(** The object is an instance of the class. *)
Definition is_Network (o : pyobj) : Prop := ∃ net, o = PyNetwork net.
Definition is_Resource (o : pyobj) : Prop := ∃ res, o = PyResource res.

(** The conditions of [network_ok], as a computation. *)
Definition network_okb (network : Network) (rank : string → nat) : bool :=
  bool_decide (NoDup (net_iter network))
  && forallb (λ l, negb (String.eqb l "")) (net_iter network)
  && forallb (λ a, forallb (λ b,
       eqb (bool_decide (Some a ∈ prev_layers network b))
           (bool_decide (Some b ∈ next_layers network a))
       && (negb (bool_decide (Some a ∈ prev_layers network b))
           || bool_decide (rank a < rank b)%nat))
       (net_iter network)) (net_iter network).

Section OrchestratorSpec.

Variable validator : segment → Network → Z → Resource → number → bool.
Variable self : InterLayerPipeline.

(** The validator accepts the segment made of the tuple [sg]. *)
Definition accepts (sg : segment) : Prop :=
  validator sg (network self) (batch_size self) (resource self) (max_util_drop self)
  = true.

(** The single-stage, single-layer segments of a list of layers. *)
Definition layer_segments (layers : list string) : list PipelineSegment :=
  (λ layer, new_PipelineSegment validator self [[layer]]) <$> layers.

End OrchestratorSpec.

(** ** Example networks *)

(** A layer with three next layers: A feeds B, C and D. *)
Definition fan_network : Network :=
  network_of [("A", ConvLayer, [None]); ("B", ConvLayer, [Some "A"]);
              ("C", ConvLayer, [Some "A"]); ("D", ConvLayer, [Some "A"])]%string
    ["A"%string].

(** A layer followed by two layers without filters: A, then B, then F. *)
Definition chain_network : Network :=
  network_of [("A", ConvLayer, [None]); ("B", LocalRegionLayer, [Some "A"]);
              ("F", LocalRegionLayer, [Some "B"])]%string
    ["A"%string].

(** A single layer. *)
Definition single_network : Network :=
  network_of [("A", ConvLayer, [None])]%string ["A"%string].

Definition example_resource : Resource := {| resource_descr := "" |}.

(** The pipeline object the constructor makes from its arguments and the
    scheduling DAG. *)
Definition pipeline_of (net : Network) (batch : Z) (res : Resource) (mud : number)
    (d : sched_dag) : InterLayerPipeline :=
  {| network := net; batch_size := batch; resource := res; max_util_drop := mud;
     dag := d; seg_vertex_done := ∅ |}.

(** The scheduling DAGs of the example networks. *)
Definition fan_dag : sched_dag :=
  {| dag_input_vertex := -1;
     dag_vertex_list := [["A"]; ["B"]; ["C"]; ["D"]]%string;
     dag_vertex_dict :=
       (list_to_map [("A", 0); ("B", 1); ("C", 2); ("D", 3)]%string,
        {[ -1 := "__INPUT__"%string ]});
     dag_prev_dict := list_to_map [(0, {[ -1 ]}); (1, {[ 0 ]}); (2, {[ 0 ]}); (3, {[ 0 ]})];
     dag_next_dict :=
       list_to_map [(-1, {[ 0 ]}); (0, {[ 1; 2; 3 ]}); (1, ∅); (2, ∅); (3, ∅)] |}.

Definition chain_dag : sched_dag :=
  {| dag_input_vertex := -1;
     dag_vertex_list := [["A"; "B"; "F"]]%string;
     dag_vertex_dict :=
       (list_to_map [("A", 0); ("B", 0); ("F", 0)]%string,
        {[ -1 := "__INPUT__"%string ]});
     dag_prev_dict := list_to_map [(0, {[ -1 ]})];
     dag_next_dict := list_to_map [(-1, {[ 0 ]}); (0, ∅)] |}.

Definition single_dag : sched_dag :=
  {| dag_input_vertex := -1;
     dag_vertex_list := [["A"]]%string;
     dag_vertex_dict :=
       (list_to_map [("A", 0)]%string, {[ -1 := "__INPUT__"%string ]});
     dag_prev_dict := list_to_map [(0, {[ -1 ]})];
     dag_next_dict := list_to_map [(-1, {[ 0 ]}); (0, ∅)] |}.

Definition fan_pipeline : InterLayerPipeline :=
  pipeline_of fan_network 1 example_resource max_util_drop_default fan_dag.

Definition chain_pipeline : InterLayerPipeline :=
  pipeline_of chain_network 1 example_resource max_util_drop_default chain_dag.

Definition single_pipeline : InterLayerPipeline :=
  pipeline_of single_network 1 example_resource max_util_drop_default single_dag.

(** A validator that accepts every segment, and one that rejects the
    single-layer segment of the layer B. *)
Definition accept_all : segment → Network → Z → Resource → number → bool :=
  λ _ _ _ _ _, true.

Definition reject_B : segment → Network → Z → Resource → number → bool :=
  λ sg _ _ _ _, negb (bool_decide (sg = [["B"%string]])).

End BuildSpec.

Import BuildSpec.

Module ExtraSpec.

(** * Specifications of the builder, the sorter and the adjacency *)

(** ** The sets of the depth-first search *)

(** The unseen, seen and visited vertices partition the vertex set, and
    no vertex is visited twice. *)
Record dfs_sets (dag_vertex_set : list vertex) (st : dfs_state) : Prop := {
  sets_cover : ∀ v, v ∈ dag_vertex_set ↔ v ∈ unseen st ∨ v ∈ seen st ∨ v ∈ visited st;
  sets_unseen_seen : ∀ v, v ∈ unseen st → v ∉ seen st;
  sets_unseen_visited : ∀ v, v ∈ unseen st → v ∉ visited st;
  sets_seen_visited : ∀ v, v ∈ seen st → v ∉ visited st;
  sets_nodup : NoDup (visited st);
}.

(** The state in which [_topological_order] starts its search. *)
Definition dfs_start (dag_vertex_set : list vertex) : dfs_state :=
  {| visited := []; unseen := list_to_set dag_vertex_set; seen := ∅ |}.

(** What a visit that ends normally has done: the vertex was neither
    seen nor visited and now is visited, the seen vertices are the same,
    the visited vertices are kept, and no unseen vertex appears. *)
Definition visit_frame (v : vertex) (st st' : dfs_state) : Prop :=
  (v ∉ seen st) ∧ (v ∉ visited st) ∧ v ∈ visited st' ∧
  seen st' = seen st ∧ visited st `prefix_of` visited st' ∧
  unseen st' ⊆ unseen st.

(** ** The vertices of the builder *)

(** Only the first layer of a vertex may be a [ConvLayer]. *)
Definition conv_first (network : Network) (v : vertex) : Prop :=
  ∀ (i : nat) l, v !! S i = Some l →
    isinstance_ConvLayer (net_getitem network l) = false.

(** A layer that is not a [ConvLayer] and has no previous layer: the
    builder asserts that there is none. *)
Definition orphan_layer (network : Network) (l : string) : Prop :=
  isinstance_ConvLayer (net_getitem network l) = false ∧ prev_layers network l = [].

(** ** The ways the enumerator ends *)

(** A call that starts at [idx] with the memo [svd] ends normally, with
    a memo that adds start indices from [idx] on, or it raises a
    [KeyError] or the assertion error of line 179. *)
Definition call_outcome (idx : Z) (svd : gset Z) (r : result (gset Z)) : Prop :=
  (∃ memo, r = Ok memo ∧ ∀ j, j ∈ memo → j ∈ svd ∨ idx ≤ j) ∨
  r = Raise KeyError ∨ r = Raise (AssertionError 179).

(** A pass ends normally, or it raises a [KeyError] or the assertion
    error of line 179. *)
Definition pass_outcome (r : result (gset Z)) : Prop :=
  (∃ memo, r = Ok memo) ∨ r = Raise KeyError ∨ r = Raise (AssertionError 179).

(** ** The links of the adjacency *)

(** The vertex a previous layer stands for in the loop of line 275: the
    input vertex for [None] and for the empty name, the vertex of the
    layer otherwise. *)
Definition prev_index (dict : gmap string Z) (inp : Z) (pl : option string) : option Z :=
  match pl with
  | Some s => if truthy pl then dict !! s else Some inp
  | None => Some inp
  end.

(** Every link of the layers [layers] is recorded: the vertex of a
    previous layer, and the vertex of a next layer, when it is another
    vertex. *)
Definition prev_complete (network : Network) (dict : gmap string Z) (inp : Z)
    (layers : list string) (d : gmap Z (gset Z)) : Prop :=
  ∀ l i pl j, l ∈ layers → dict !! l = Some i →
    pl ∈ prev_layers network l → prev_index dict inp pl = Some j → j ≠ i →
    j ∈ prevs_of d i.

Definition next_complete (network : Network) (dict : gmap string Z)
    (layers : list string) (d : gmap Z (gset Z)) : Prop :=
  ∀ l i s j, l ∈ layers → dict !! l = Some i →
    Some s ∈ next_layers network l → s ≠ ""%string → dict !! s = Some j → j ≠ i →
    j ∈ nexts_of d i.

(** The links of the network stay in the network: a previous or next
    layer with a name that is not empty is a layer of the network. *)
Definition links_closed (network : Network) : Prop :=
  ∀ l s, l ∈ net_iter network →
    Some s ∈ prev_layers network l ∨ Some s ∈ next_layers network l →
    s ≠ ""%string → s ∈ net_iter network.

(** The same, as a computation. *)
Definition links_closedb (network : Network) : bool :=
  forallb (λ l,
    forallb (λ o, match o with
                  | Some s => String.eqb s "" || bool_decide (s ∈ net_iter network)
                  | None => true
                  end)
      (prev_layers network l ++ next_layers network l))
    (net_iter network).

(** ** Example: a residual connection *)

(** A feeds B and the layer E, which adds the outputs of B and of A. *)
Definition residual_network : Network :=
  network_of [("A", ConvLayer, [None]); ("B", ConvLayer, [Some "A"]);
              ("E", LocalRegionLayer, [Some "B"; Some "A"])]%string
    ["A"%string].

(** The vertices the builder makes of it: E merges into the vertex of B. *)
Definition residual_vertex_set : list vertex := [["A"]; ["B"; "E"]]%string.

(** ** The states of the builder loop *)

(** The value of [dag_vertex_set] when the loop of line 221 has taken the
    first [k] layers of the network. *)
Definition vertex_set_after (network : Network) (k : nat) : result (list vertex) :=
  for_each (add_layer network) (take k (net_iter network)) [].

(** The rule of the builder, as its documentation words it: what the
    vertices [dag] become when the layer is taken.  A [ConvLayer] starts a
    vertex of its own; another layer is appended to the eligible vertex
    created last (the eligible vertex of largest index), or starts a
    vertex of its own when no vertex is eligible. *)
Definition merge_rule (network : Network) (dag : list vertex) (layer_name : string)
    (dag' : list vertex) : Prop :=
  let prevs : gset (option string) := list_to_set (prev_layers network layer_name) in
  if isinstance_ConvLayer (net_getitem network layer_name) then
    dag' = dag ++ [[layer_name]]
  else
    (∃ idx (v : vertex),
       dag !! idx = Some v ∧ eligible network prevs v ∧
       (∀ j (v' : vertex), (idx < j)%nat → dag !! j = Some v' →
          ¬ eligible network prevs v') ∧
       dag' = <[idx := v ++ [layer_name]]> dag) ∨
    ((∀ v, v ∈ dag → ¬ eligible network prevs v) ∧ dag' = dag ++ [[layer_name]]).

(** ** Example: a layer with the empty name *)

(** A feeds X and P, P feeds Q, and a layer without filters, whose name is
    the empty string, takes the outputs of P and of X.  The names are
    distinct, the next layers are the converse of the previous layers and
    every layer is declared after its previous layers. *)
Definition empty_name_network : Network :=
  network_of [("A", ConvLayer, [None]); ("X", ConvLayer, [Some "A"]);
              ("P", ConvLayer, [Some "A"]); ("Q", ConvLayer, [Some "P"]);
              ("", LocalRegionLayer, [Some "P"; Some "X"])]%string
    ["A"%string].

(** The scheduling DAG the constructor makes of it: the layer with the
    empty name merges into the vertex of X; the vertex of P is recorded
    as a previous vertex of that vertex, which is not recorded as a next
    vertex of the vertex of P. *)
Definition empty_name_dag : sched_dag :=
  {| dag_input_vertex := -1;
     dag_vertex_list := [["A"]; ["X"; ""]; ["P"]; ["Q"]]%string;
     dag_vertex_dict :=
       (list_to_map [("A", 0); ("X", 1); ("", 1); ("P", 2); ("Q", 3)]%string,
        {[ -1 := "__INPUT__"%string ]});
     dag_prev_dict :=
       list_to_map [(0, {[ -1 ]}); (1, {[ 0; 2 ]}); (2, {[ 0 ]}); (3, {[ 2 ]})];
     dag_next_dict :=
       list_to_map [(-1, {[ 0 ]}); (0, {[ 1; 2 ]}); (1, ∅); (2, {[ 3 ]}); (3, ∅)] |}.

Definition empty_name_pipeline : InterLayerPipeline :=
  pipeline_of empty_name_network 1 example_resource max_util_drop_default empty_name_dag.

(** The previous and the next layers of a network agree and follow the
    ranks of the layers, as a computation. *)
Definition links_rankedb (network : Network) (rank : string → nat) : bool :=
  forallb (λ a, forallb (λ b,
    eqb (bool_decide (Some a ∈ prev_layers network b))
        (bool_decide (Some b ∈ next_layers network a))
    && (negb (bool_decide (Some a ∈ prev_layers network b))
        || bool_decide (rank a < rank b)%nat))
    (net_iter network)) (net_iter network).

End ExtraSpec.

Import ExtraSpec.

(** * Properties of the vertex segment enumerator *)

(** ** Generators *)

Lemma gbind_yields_ok {Y A B : Type} (g : gen Y A) (k : A → gen Y B) a :
  g.2 = Ok a → gbind g k = (g.1 ++ (k a).1, (k a).2).
Proof. intros Hg. unfold gbind. by rewrite Hg. Qed.

Lemma gbind_elem_of {Y A B : Type} (g : gen Y A) (k : A → gen Y B) y :
  y ∈ (gbind g k).1 → y ∈ g.1 ∨ ∃ a, g.2 = Ok a ∧ y ∈ (k a).1.
Proof.
  unfold gbind. destruct (g.2) as [a| |]; simpl; [|by left..].
  rewrite elem_of_app. intros [?|?]; [by left|right; eauto].
Qed.

(** ** Sets given by tuples, and the minimum of a set *)

Lemma isdisjoint_true `{Countable A} (X : gset A) (t : list A) :
  isdisjoint X t = true ↔ ∀ x, x ∈ X → x ∉ t.
Proof.
  unfold isdisjoint. rewrite bool_decide_eq_true. set_solver.
Qed.

Lemma issubset_true `{Countable A} (X : gset A) (t : list A) :
  issubset X t = true ↔ ∀ x, x ∈ X → x ∈ t.
Proof.
  unfold issubset. rewrite bool_decide_eq_true. set_solver.
Qed.

Lemma foldr_min_le (x : Z) (xs : list Z) :
  foldr Z.min x xs ≤ x ∧ ∀ y, y ∈ xs → foldr Z.min x xs ≤ y.
Proof.
  induction xs as [|a xs [IH1 IH2]]; simpl.
  - split; [lia|]. intros y Hy. by apply elem_of_nil in Hy.
  - split; [lia|]. intros y [->|Hy]%elem_of_cons; [lia|].
    specialize (IH2 y Hy). lia.
Qed.

Lemma foldr_min_elem (x : Z) (xs : list Z) :
  foldr Z.min x xs = x ∨ foldr Z.min x xs ∈ xs.
Proof.
  induction xs as [|a xs IH]; simpl; [by left|].
  destruct (Z.min_spec a (foldr Z.min x xs)) as [[_ ->]|[_ ->]].
  - right. apply elem_of_cons. by left.
  - destruct IH as [->|IH]; [by left|]. right. apply elem_of_cons. by right.
Qed.

Lemma set_min_Ok (X : gset Z) m :
  set_min X = Ok m → m ∈ X ∧ ∀ x, x ∈ X → m ≤ x.
Proof.
  unfold set_min. destruct (elements X) as [|x xs] eqn:HX; [done|].
  intros [= <-]. split.
  - apply elem_of_elements. rewrite HX.
    destruct (foldr_min_elem x xs) as [->|?]; apply elem_of_cons; auto.
  - intros y Hy. apply elem_of_elements in Hy. rewrite HX in Hy.
    destruct (foldr_min_le x xs) as [H1 H2].
    apply elem_of_cons in Hy as [->|Hy]; auto.
Qed.

Lemma set_min_nonempty (X : gset Z) x :
  x ∈ X → ∃ m, set_min X = Ok m.
Proof.
  intros Hx. unfold set_min. destruct (elements X) as [|y ys] eqn:HX; [|eauto].
  apply elem_of_elements in Hx. rewrite HX in Hx. by apply elem_of_nil in Hx.
Qed.

Lemma set_min_not_OutOfFuel (X : gset Z) : set_min X ≠ OutOfFuel.
Proof. unfold set_min. by destruct (elements X). Qed.

(** ** Runs of consecutive vertices *)

Lemma run_snoc (s : Z) (n : nat) :
  seqZ s (Z.of_nat n) ++ [s + Z.of_nat n] = seqZ s (Z.of_nat (S n)).
Proof. by rewrite seqZ_S. Qed.

Lemma elem_of_run (s : Z) (k : nat) (i : Z) :
  i ∈ run s k ↔ s ≤ i ≤ s + Z.of_nat k.
Proof. unfold run. rewrite elem_of_seqZ. lia. Qed.

Lemma run_inj s1 k1 s2 k2 : run s1 k1 = run s2 k2 → s1 = s2 ∧ k1 = k2.
Proof.
  unfold run. intros Heq.
  assert (Hlen : length (seqZ s1 (Z.of_nat (S k1))) = length (seqZ s2 (Z.of_nat (S k2))))
    by by rewrite Heq.
  rewrite !length_seqZ, !Nat2Z.id in Hlen.
  rewrite (seqZ_cons s1), (seqZ_cons s2) in Heq by lia.
  injection Heq as Hs _. split; [done|lia].
Qed.

Section EnumeratorFacts.

Variable dag_vertex_list : list vertex.
Variables dag_prev_dict dag_next_dict : gmap Z (gset Z).
Variable dag_input_vertex : Z.

#[local] Abbreviation nvertices := (Z.of_nat (length dag_vertex_list)).
#[local] Abbreviation prevs_of := (prevs_of dag_prev_dict).
#[local] Abbreviation nexts_of := (nexts_of dag_next_dict).
#[local] Abbreviation vseg_loop := (vseg_loop dag_prev_dict dag_next_dict).
#[local] Abbreviation _gen_vseg := (_gen_vseg dag_vertex_list dag_prev_dict dag_next_dict dag_input_vertex).
#[local] Abbreviation check_rule3 := (check_rule3 dag_next_dict).
#[local] Abbreviation share_deps := (share_deps dag_prev_dict).
#[local] Abbreviation prev_union := (prev_union dag_prev_dict).
#[local] Abbreviation chain_ok := (chain_ok dag_prev_dict).

(** *** The vsegs are runs *)

Lemma run_from_mono s1 s2 vseg : s1 ≤ s2 → run_from s2 vseg → run_from s1 vseg.
Proof. intros Hle (v & k & Hv & ->). exists v, k. split; [lia|done]. Qed.

Lemma vseg_finish_yields vertex_idx svd : (vseg_finish vertex_idx svd).1 = [].
Proof. unfold vseg_finish. by case_bool_decide. Qed.

Lemma vseg_loop_runs rec vertex_idx done :
  (∀ idx d svd, vertex_idx < idx → Forall (run_from idx) (rec idx d svd).1) →
  ∀ frontiers (n : nat) svd,
    frontiers = seqZ (vertex_idx + Z.of_nat n) (Z.of_nat (length frontiers)) →
    Forall (run_from vertex_idx)
      (vseg_loop rec vertex_idx done frontiers (seqZ vertex_idx (Z.of_nat n)) svd).1.
Proof.
  intros Hrec frontiers. induction frontiers as [|f rest IH]; intros n svd Hfr; simpl.
  { rewrite vseg_finish_yields. constructor. }
  rewrite seqZ_cons in Hfr by (simpl; lia). injection Hfr as Hf Hrest.
  assert (Hnext : rest = seqZ (vertex_idx + Z.of_nat (S n)) (Z.of_nat (length rest))).
  { rewrite Hrest at 1. f_equal; lia. }
  destruct (getitem dag_prev_dict f) as [fp| |]; simpl; [|constructor..].
  destruct (share_deps _ fp) as [sd| |]; simpl; [|constructor..].
  destruct (negb sd || coupled_prevs _ fp).
  { destruct (seqZ vertex_idx (Z.of_nat n)); simpl; [constructor|].
    rewrite vseg_finish_yields. constructor. }
  rewrite Hf, run_snoc.
  destruct (check_rule3 _ _ _); simpl; [| by apply IH | constructor].
  constructor.
  { exists vertex_idx, n. split; [lia|done]. }
  case_bool_decide; [by apply IH|].
  apply Forall_forall. intros y Hy. apply gbind_elem_of in Hy as [Hy|(a & _ & Hy)].
  - eapply run_from_mono; [|eapply Forall_forall; [apply Hrec|exact Hy]]; lia.
  - eapply Forall_forall; [apply IH|exact Hy]. done.
Qed.

Lemma range_frontiers (a b : Z) :
  range a b = seqZ (a + Z.of_nat 0) (Z.of_nat (length (range a b))).
Proof.
  unfold range. rewrite length_seqZ. destruct (decide (0 ≤ b - a)).
  - f_equal; lia.
  - by rewrite !seqZ_nil by lia.
Qed.

Lemma gen_vseg_runs fuel :
  ∀ vertex_idx done svd,
    Forall (run_from vertex_idx) (_gen_vseg fuel vertex_idx done svd).1.
Proof.
  induction fuel as [|fuel IH]; intros vertex_idx done svd; simpl; [constructor|].
  destruct (not_done done); simpl;
    exact (vseg_loop_runs _ _ _ (λ idx d s _, IH idx d s) _ 0%nat _
             (range_frontiers _ _)).
Qed.

(** *** The checks of a frontier *)

Lemma prev_union_spec vseg : ∀ acc u,
  prev_union acc vseg = Ok u →
  ∀ p, p ∈ u ↔ p ∈ acc ∨ ∃ i, i ∈ vseg ∧ p ∈ prevs_of i.
Proof.
  induction vseg as [|i rest IH]; intros acc u; simpl.
  - intros [= <-] p. split; [by left|]. intros [?|(i & Hi & _)]; [done|].
    by apply elem_of_nil in Hi.
  - unfold getitem, EnumSpec.prevs_of. destruct (dag_prev_dict !! i) as [X|] eqn:Hi; [|done].
    simpl. intros Hu p. rewrite (IH _ _ Hu p), elem_of_union. split.
    + intros [[?|?]|(j & Hj & Hp)]; [by left| |].
      * right. exists i. rewrite Hi. split; [apply elem_of_cons; by left|done].
      * right. exists j. split; [apply elem_of_cons; by right|done].
    + intros [?|(j & Hj & Hp)]; [by left; left|].
      apply elem_of_cons in Hj as [->|Hj].
      * rewrite Hi in Hp. by left; right.
      * right. eauto.
Qed.

Lemma prev_union_Ok vseg : ∀ acc,
  (∀ i, i ∈ vseg → is_Some (dag_prev_dict !! i)) →
  ∃ u, prev_union acc vseg = Ok u.
Proof.
  induction vseg as [|i rest IH]; intros acc Hkeys; simpl; [eauto|].
  destruct (Hkeys i) as [X HX]; [apply elem_of_cons; by left|].
  unfold getitem. rewrite HX. simpl. apply IH.
  intros j Hj. apply Hkeys, elem_of_cons. by right.
Qed.

Lemma share_deps_Ok vseg fp :
  (∀ i, i ∈ vseg → is_Some (dag_prev_dict !! i)) →
  ∃ sd, share_deps vseg fp = Ok sd.
Proof.
  intros Hkeys. unfold Defs.share_deps. destruct vseg as [|i rest]; [eauto|].
  destruct (prev_union_Ok (i :: rest) (list_to_set (i :: rest)) Hkeys) as [u ->].
  simpl. eauto.
Qed.

Lemma coupled_prevs_nil fp : coupled_prevs [] fp = false.
Proof.
  unfold coupled_prevs. replace (isdisjoint fp []) with true; [by rewrite andb_false_r|].
  symmetry. apply isdisjoint_true. intros x _ Hx. by apply elem_of_nil in Hx.
Qed.

Lemma extends_ok_nil frontier :
  is_Some (dag_prev_dict !! frontier) → extends_ok dag_prev_dict [] frontier = true.
Proof.
  intros [X HX]. unfold extends_ok, getitem. rewrite HX. simpl.
  by rewrite coupled_prevs_nil.
Qed.

(** *** The check of rule 3 *)

Lemma check_rule3_Valid vseg frontier idxs :
  check_rule3 vseg frontier idxs = R3Valid ↔ rule3_on dag_next_dict vseg idxs = true.
Proof.
  induction idxs as [|idx rest IH]; simpl; [done|].
  unfold getitem. destruct (dag_next_dict !! idx) as [X|]; simpl; [|done].
  destruct (isdisjoint X vseg || issubset X vseg); simpl; [done|].
  destruct (set_min _) as [m| |]; [case_bool_decide|..]; done.
Qed.

(** In a run that ends at the frontier, the smallest next vertex missing
    from the run lies after the frontier, as soon as the next vertices of a
    vertex lie after it. *)
Lemma missing_next_after_frontier s k idx (X : gset Z) :
  (∀ j, j ∈ X → idx < j) → idx ∈ run s k →
  isdisjoint X (run s k) || issubset X (run s k) = false →
  ∃ m, set_min (difference_tuple X (run s k)) = Ok m ∧ s + Z.of_nat k < m.
Proof.
  intros Hafter Hrun [_ Hsub]%orb_false_iff.
  assert (∃ j, j ∈ difference_tuple X (run s k)) as [j Hj].
  { destruct (decide (difference_tuple X (run s k) = ∅)) as [He|Hne].
    - exfalso. apply not_true_iff_false in Hsub. apply Hsub, issubset_true.
      intros x Hx. destruct (decide (x ∈ run s k)); [done|].
      assert (x ∈ difference_tuple X (run s k)) as Hin.
      { apply elem_of_difference. split; [done|by rewrite elem_of_list_to_set]. }
      rewrite He in Hin. by apply not_elem_of_empty in Hin.
    - apply set_choose_L in Hne. exact Hne. }
  destruct (set_min_nonempty _ _ Hj) as [m Hm]. exists m. split; [done|].
  apply set_min_Ok in Hm as [Hm _].
  unfold difference_tuple in Hm. apply elem_of_difference in Hm as [HmX Hmrun].
  rewrite elem_of_list_to_set, elem_of_run in Hmrun.
  specialize (Hafter m HmX). apply elem_of_run in Hrun. lia.
Qed.

(** The assertion of line 179 holds at every check of a run that ends at
    the frontier. *)
Lemma check_rule3_assertion s k idxs :
  (∀ i j, j ∈ nexts_of i → i < j) →
  (∀ i, i ∈ idxs → i ∈ run s k) →
  check_rule3 (run s k) (s + Z.of_nat k) idxs ≠ R3Raise (AssertionError 179).
Proof.
  intros Hnext Hidx. induction idxs as [|idx rest IH]; simpl; [done|].
  unfold getitem. destruct (dag_next_dict !! idx) as [X|] eqn:HX; simpl; [|done].
  destruct (isdisjoint X (run s k) || issubset X (run s k)) eqn:Hok; simpl.
  { apply IH. intros i Hi. apply Hidx, elem_of_cons. by right. }
  destruct (missing_next_after_frontier s k idx X) as (m & -> & Hm); [| |done|].
  - intros j Hj. apply Hnext. unfold EnumSpec.nexts_of. by rewrite HX.
  - apply Hidx, elem_of_cons. by left.
  - by rewrite bool_decide_true by lia.
Qed.

Lemma check_rule3_run s k idxs :
  (∀ i, i ∈ idxs → i ∈ run s k ∧ is_Some (dag_next_dict !! i)) →
  (∀ i j, j ∈ nexts_of i → i < j) →
  check_rule3 (run s k) (s + Z.of_nat k) idxs
  = if rule3_on dag_next_dict (run s k) idxs then R3Valid else R3Invalid.
Proof.
  intros Hidx Hnext. induction idxs as [|idx rest IH]; simpl; [done|].
  destruct (Hidx idx) as [Hrun [X HX]]; [apply elem_of_cons; by left|].
  unfold getitem. rewrite HX. simpl.
  assert (IH' : check_rule3 (run s k) (s + Z.of_nat k) rest
                = if rule3_on dag_next_dict (run s k) rest then R3Valid else R3Invalid).
  { apply IH; intros; apply Hidx; apply elem_of_cons; auto. }
  destruct (isdisjoint X (run s k) || issubset X (run s k)) eqn:Hok; simpl; [done|].
  destruct (missing_next_after_frontier s k idx X) as (m & -> & Hm); [|done..|].
  - intros j Hj. apply Hnext. unfold EnumSpec.nexts_of. by rewrite HX.
  - by rewrite bool_decide_true by lia.
Qed.

Lemma vseg_finish_outcome vertex_idx svd :
  (vseg_finish vertex_idx svd).2 ≠ Raise (AssertionError 179).
Proof. unfold vseg_finish. by case_bool_decide. Qed.

Lemma vseg_loop_assertion rec vertex_idx done :
  (∀ i j, j ∈ nexts_of i → i < j) →
  (∀ idx d svd, (rec idx d svd).2 ≠ Raise (AssertionError 179)) →
  ∀ frontiers (n : nat) svd,
    frontiers = seqZ (vertex_idx + Z.of_nat n) (Z.of_nat (length frontiers)) →
    (vseg_loop rec vertex_idx done frontiers (seqZ vertex_idx (Z.of_nat n)) svd).2
    ≠ Raise (AssertionError 179).
Proof.
  intros Hafter Hrec frontiers.
  induction frontiers as [|f rest IH]; intros n svd Hfr; simpl.
  { apply vseg_finish_outcome. }
  rewrite seqZ_cons in Hfr by (simpl; lia). injection Hfr as Hf Hrest.
  assert (Hnext : rest = seqZ (vertex_idx + Z.of_nat (S n)) (Z.of_nat (length rest))).
  { rewrite Hrest at 1. f_equal; lia. }
  destruct (getitem dag_prev_dict f) as [fp| |] eqn:Hfp; simpl;
    [|intros [= ->]; unfold getitem in Hfp; by destruct (dag_prev_dict !! f)|done].
  destruct (share_deps _ fp) as [sd|e|] eqn:Hsd; simpl; [| |done].
  2: { unfold Defs.share_deps in Hsd.
       destruct (seqZ vertex_idx (Z.of_nat n)) as [|i0 l0]; [done|].
       assert (∀ vs acc, prev_union acc vs ≠ Raise (AssertionError 179)) as Hpu.
       { induction vs as [|i vs IHvs]; intros acc; simpl; [done|].
         unfold getitem. destruct (dag_prev_dict !! i); simpl; [apply IHvs|done]. }
       destruct (prev_union _ _) eqn:Hpu'; simpl in Hsd; try done.
       injection Hsd as <-. intros [= ->]. by apply (Hpu _ _ Hpu'). }
  destruct (negb sd || coupled_prevs _ fp).
  { destruct (seqZ vertex_idx (Z.of_nat n)); simpl; [done|apply vseg_finish_outcome]. }
  rewrite Hf, run_snoc.
  pose proof (check_rule3_assertion vertex_idx n (run vertex_idx n) Hafter
                (λ i Hi, Hi)) as H3.
  unfold run in H3.
  destruct (check_rule3 _ _ _) as [| |e]; simpl; [|by apply IH|congruence].
  case_bool_decide; [by apply IH|].
  unfold gbind. destruct (rec _ _ _).2 as [a|e|] eqn:Hr; simpl; [by apply IH| |done].
  intros [= ->]. by apply (Hrec _ _ _ Hr).
Qed.

Lemma gen_vseg_assertion fuel :
  (∀ i j, j ∈ nexts_of i → i < j) →
  ∀ vertex_idx done svd,
    (_gen_vseg fuel vertex_idx done svd).2 ≠ Raise (AssertionError 179).
Proof.
  intros Hafter.
  induction fuel as [|fuel IH]; intros vertex_idx dn svd; simpl; [easy|].
  destruct (not_done dn); simpl;
    exact (vseg_loop_assertion _ _ _ Hafter IH _ 0%nat _ (range_frontiers _ _)).
Qed.

(** *** The checks and the rules *)

Lemma extends_ok_true vseg frontier :
  vseg ≠ [] → extends_ok dag_prev_dict vseg frontier = true →
  (∃ p, p ∈ prevs_of frontier ∧ (p ∈ vseg ∨ ∃ i, i ∈ vseg ∧ p ∈ prevs_of i)) ∧
  ((1 < size (prevs_of frontier))%nat → ∀ p, p ∈ prevs_of frontier → p ∉ vseg).
Proof.
  intros Hne. unfold extends_ok, getitem, EnumSpec.prevs_of at 1 3 4.
  destruct (dag_prev_dict !! frontier) as [fp|]; [simpl|done].
  unfold Defs.share_deps. destruct vseg as [|i0 rest]; [done|].
  destruct (prev_union _ _) as [u| |] eqn:Hu; [simpl|done..].
  intros [Hsd Hcp]%andb_true_iff. split.
  - apply negb_true_iff, bool_decide_eq_false in Hsd.
    destruct (decide (fp ∩ u = ∅)) as [He|Hne'].
    { exfalso. apply Hsd. by apply disjoint_intersection_L. }
    apply set_choose_L in Hne' as [p [Hp Hpu]%elem_of_intersection].
    exists p. split; [done|].
    apply (prev_union_spec _ _ _ Hu) in Hpu as [Hpu|Hpu]; [left|by right].
    by apply elem_of_list_to_set in Hpu.
  - intros Hsize p Hp Hin. apply negb_true_iff in Hcp. unfold coupled_prevs in Hcp.
    rewrite bool_decide_true in Hcp by done. simpl in Hcp.
    apply negb_false_iff in Hcp.
    by apply (proj1 (isdisjoint_true _ _) Hcp p).
Qed.

Lemma extends_ok_intro vseg frontier :
  is_Some (dag_prev_dict !! frontier) →
  (∀ i, i ∈ vseg → is_Some (dag_prev_dict !! i)) →
  (∃ p, p ∈ prevs_of frontier ∧ (p ∈ vseg ∨ ∃ i, i ∈ vseg ∧ p ∈ prevs_of i)) →
  ((1 < size (prevs_of frontier))%nat → ∀ p, p ∈ prevs_of frontier → p ∉ vseg) →
  extends_ok dag_prev_dict vseg frontier = true.
Proof.
  intros [fp Hfp] Hkeys (p & Hp & Hshare) Hcoupled.
  unfold extends_ok, getitem. unfold EnumSpec.prevs_of in Hp, Hcoupled at 1 2.
  rewrite Hfp in *. simpl in *.
  destruct (share_deps_Ok vseg fp Hkeys) as [sd Hsd]. rewrite Hsd.
  apply andb_true_iff. split.
  - unfold Defs.share_deps in Hsd. destruct vseg as [|i0 rest]; [by injection Hsd|].
    destruct (prev_union_Ok (i0 :: rest) (list_to_set (i0 :: rest)) Hkeys) as [u Hu].
    rewrite Hu in Hsd. simpl in Hsd. injection Hsd as <-.
    apply negb_true_iff, bool_decide_eq_false. intros Hd.
    apply (Hd p Hp). apply (prev_union_spec _ _ _ Hu).
    destruct Hshare as [?|?]; [left|by right]. by apply elem_of_list_to_set.
  - apply negb_true_iff. unfold coupled_prevs. case_bool_decide; [simpl|done].
    apply negb_false_iff, isdisjoint_true. auto.
Qed.

Lemma rule3_on_true vseg idxs :
  rule3_on dag_next_dict vseg idxs = true →
  ∀ i, i ∈ idxs →
    (∀ j, j ∈ nexts_of i → j ∉ vseg) ∨ (∀ j, j ∈ nexts_of i → j ∈ vseg).
Proof.
  induction idxs as [|idx rest IH]; simpl; [by intros _ i ?%elem_of_nil|].
  intros [Hidx Hrest]%andb_true_iff i [->|Hi]%elem_of_cons; [|by apply IH].
  unfold EnumSpec.nexts_of. destruct (dag_next_dict !! idx) as [X|]; [simpl|done].
  apply orb_true_iff in Hidx as [Hd|Hs].
  - left. by apply isdisjoint_true.
  - right. by apply issubset_true.
Qed.

Lemma rule3_on_intro vseg idxs :
  (∀ i, i ∈ idxs → is_Some (dag_next_dict !! i)) →
  (∀ i, i ∈ idxs →
    (∀ j, j ∈ nexts_of i → j ∉ vseg) ∨ (∀ j, j ∈ nexts_of i → j ∈ vseg)) →
  rule3_on dag_next_dict vseg idxs = true.
Proof.
  induction idxs as [|idx rest IH]; simpl; [done|]. intros Hkeys H3.
  apply andb_true_iff. split.
  - destruct (Hkeys idx) as [X HX]; [apply elem_of_cons; by left|].
    specialize (H3 idx). unfold EnumSpec.nexts_of in H3. rewrite HX in *. simpl in H3.
    apply orb_true_iff. destruct H3 as [H3|H3]; [apply elem_of_cons; by left| |].
    + left. by apply isdisjoint_true.
    + right. by apply issubset_true.
  - apply IH; intros; [apply Hkeys|apply H3]; apply elem_of_cons; by right.
Qed.

(** A run splits into a shorter run, the next vertex and the rest. *)
Lemma run_split s (k j : nat) :
  (j < k)%nat →
  run s k = run s j ++ (s + Z.of_nat (S j))
                    :: seqZ (s + Z.of_nat (S (S j))) (Z.of_nat (k - S j)).
Proof.
  intros Hj. unfold run.
  replace (Z.of_nat (S k)) with (Z.of_nat (S j) + Z.of_nat (S (k - S j))) by lia.
  rewrite seqZ_app by lia. f_equal. rewrite seqZ_cons by lia. f_equal. f_equal; lia.
Qed.

Lemma run_decompose s k pre f post :
  run s k = pre ++ f :: post →
  pre = seqZ s (Z.of_nat (length pre)) ∧ f = s + Z.of_nat (length pre) ∧
  (length pre ≤ k)%nat.
Proof.
  intros Heq.
  assert (Hlen : length (run s k) = (length pre + S (length post))%nat).
  { rewrite Heq, length_app. done. }
  unfold run in Hlen. rewrite length_seqZ, Nat2Z.id in Hlen.
  split; [|split; [|lia]].
  - apply list_eq. intros i. destruct (decide (i < length pre)%nat) as [Hi|Hi].
    + rewrite lookup_seqZ_lt by lia.
      rewrite <- (lookup_app_l pre (f :: post)) by done. rewrite <- Heq.
      unfold run. by rewrite lookup_seqZ_lt by lia.
    + rewrite lookup_seqZ_ge by lia. apply lookup_ge_None. lia.
  - assert (Hf : run s k !! length pre = Some f).
    { rewrite Heq. by rewrite list_lookup_middle. }
    unfold run in Hf. apply lookup_seqZ in Hf. lia.
Qed.

(** *** The vsegs of the loop of one start *)

Lemma chain_ok_S s k :
  chain_ok s (S k) ↔
  chain_ok s k ∧ extends_ok dag_prev_dict (run s k) (s + Z.of_nat (S k)) = true.
Proof.
  unfold chain_ok. split.
  - intros H. split; [intros j Hj; apply H; lia|apply H; lia].
  - intros [H1 H2] j Hj. destruct (decide (j = k)) as [->|]; [done|apply H1; lia].
Qed.

Lemma elem_of_loop_runs s : ∀ (m k : nat) x,
  chain_ok s k →
  x ∈ loop_runs dag_prev_dict dag_next_dict (seqZ (s + Z.of_nat (S k)) (Z.of_nat m)) (run s k)
  ↔ ∃ k' : nat, (k < k' ≤ k + m)%nat ∧ x = run s k' ∧ chain_ok s k' ∧
                rule3_ok dag_next_dict (run s k') = true.
Proof.
  induction m as [|m IH]; intros k x Hchain.
  { rewrite seqZ_nil by lia. simpl. split; [by intros ?%elem_of_nil|].
    intros (k' & ? & _). lia. }
  rewrite seqZ_cons by lia. simpl.
  replace (Z.pred (Z.of_nat (S m))) with (Z.of_nat m) by lia.
  replace (Z.succ (s + Z.of_nat (S k))) with (s + Z.of_nat (S (S k))) by lia.
  assert (Hrun : run s k ++ [s + Z.of_nat (S k)] = run s (S k)) by apply run_snoc.
  destruct (extends_ok dag_prev_dict (run s k) (s + Z.of_nat (S k))) eqn:Hext.
  - rewrite Hrun, elem_of_app, IH by (apply chain_ok_S; auto). split.
    + intros [Hx|(k' & Hk' & Hx)].
      * destruct (rule3_ok dag_next_dict (run s (S k))) eqn:H3;
          [|by apply elem_of_nil in Hx].
        apply list_elem_of_singleton in Hx as ->.
        exists (S k). split; [lia|]. split; [done|]. split; [by apply chain_ok_S|done].
      * exists k'. split; [lia|done].
    + intros (k' & Hk' & -> & Hc & H3).
      destruct (decide (k' = S k)) as [->|].
      * left. rewrite H3. by apply list_elem_of_singleton.
      * right. exists k'. split; [lia|done].
  - split; [by intros ?%elem_of_nil|]. intros (k' & Hk' & -> & Hc & _).
    rewrite (Hc k) in Hext by lia. done.
Qed.

Lemma NoDup_loop_runs s : ∀ (m k : nat),
  chain_ok s k →
  NoDup (loop_runs dag_prev_dict dag_next_dict (seqZ (s + Z.of_nat (S k)) (Z.of_nat m)) (run s k)).
Proof.
  induction m as [|m IH]; intros k Hchain.
  { rewrite seqZ_nil by lia. constructor. }
  rewrite seqZ_cons by lia. simpl.
  replace (Z.pred (Z.of_nat (S m))) with (Z.of_nat m) by lia.
  replace (Z.succ (s + Z.of_nat (S k))) with (s + Z.of_nat (S (S k))) by lia.
  assert (Hrun : run s k ++ [s + Z.of_nat (S k)] = run s (S k)) by apply run_snoc.
  destruct (extends_ok dag_prev_dict (run s k) (s + Z.of_nat (S k))) eqn:Hext;
    [|constructor].
  rewrite Hrun. apply NoDup_app. split; [|split].
  - destruct (rule3_ok _ _); [apply NoDup_singleton|constructor].
  - intros x Hx Hx'. apply elem_of_loop_runs in Hx' as (k' & Hk' & -> & _);
      [|by apply chain_ok_S].
    destruct (rule3_ok _ _); [|by apply elem_of_nil in Hx].
    apply list_elem_of_singleton in Hx. apply run_inj in Hx. lia.
  - apply IH. by apply chain_ok_S.
Qed.

(** *** What a call yields, over an adjacency that follows the order *)

Section Topological.

#[local] Arguments Defs.check_rule3 : simpl never.

Hypothesis adjacency : topological_adjacency dag_prev_dict dag_next_dict nvertices.

Lemma prev_key i : 0 ≤ i < nvertices → is_Some (dag_prev_dict !! i).
Proof. intros Hi. by apply adjacency. Qed.

Lemma next_key i : 0 ≤ i < nvertices → is_Some (dag_next_dict !! i).
Proof. intros Hi. by apply adjacency. Qed.

Lemma next_after i j : j ∈ nexts_of i → i < j.
Proof. destruct adjacency as (_ & _ & H). apply H. Qed.

Lemma check_rule3_topological s k :
  0 ≤ s → s + Z.of_nat k < nvertices →
  check_rule3 (run s k) (s + Z.of_nat k) (run s k)
  = if rule3_ok dag_next_dict (run s k) then R3Valid else R3Invalid.
Proof.
  intros Hs Hk. apply check_rule3_run.
  - intros i Hi. split; [done|]. apply elem_of_run in Hi. apply next_key. lia.
  - intros i j. apply next_after.
Qed.

Lemma rule3_ok_single s :
  0 ≤ s < nvertices → rule3_ok dag_next_dict [s] = true.
Proof.
  intros Hs. unfold rule3_ok, rule3_on. simpl. destruct (next_key s Hs) as [X HX].
  rewrite HX, andb_true_r. apply orb_true_iff. left. apply isdisjoint_true.
  intros x Hx Hxs%list_elem_of_singleton. subst x.
  assert (s < s); [|lia]. apply next_after. unfold EnumSpec.nexts_of. by rewrite HX.
Qed.

Lemma check_rule3_single s :
  0 ≤ s < nvertices → check_rule3 [s] s [s] = R3Valid.
Proof.
  intros Hs. pose proof (check_rule3_topological s 0) as H.
  replace (s + Z.of_nat 0) with s in H by lia. change (run s 0) with [s] in H.
  rewrite H, rule3_ok_single by lia. done.
Qed.

(** The iterations of a call after the recursive call of its first
    iteration has returned: every later start is explored, so the loop
    does not recurse. *)
Lemma vseg_loop_explored rec s done :
  0 ≤ s →
  ∀ frontiers (k : nat) svd,
    frontiers = seqZ (s + Z.of_nat (S k)) (Z.of_nat (length frontiers)) →
    s + Z.of_nat (S k) + Z.of_nat (length frontiers) = nvertices →
    s ∉ svd →
    (∀ j, s + Z.of_nat (S k) < j ≤ nvertices → j ∈ svd) →
    vseg_loop rec s done frontiers (run s k) svd
    = (loop_runs dag_prev_dict dag_next_dict frontiers (run s k), Ok (svd ∪ {[s]})).
Proof.
  intros Hs frontiers.
  induction frontiers as [|f rest IH]; intros k svd Hfr Hlen Hnot Hdone; simpl.
  { unfold vseg_finish. by rewrite bool_decide_false. }
  rewrite seqZ_cons in Hfr by (simpl; lia). injection Hfr as Hf Hrest.
  assert (Hnext : rest = seqZ (s + Z.of_nat (S (S k))) (Z.of_nat (length rest))).
  { rewrite Hrest at 1. f_equal; lia. }
  simpl in Hlen.
  unfold extends_ok.
  destruct (prev_key f) as [fp Hfp]; [lia|].
  unfold getitem. rewrite Hfp.
  destruct (share_deps_Ok (run s k) fp) as [sd Hsd].
  { intros i Hi%elem_of_run. apply prev_key. lia. }
  rewrite Hsd.
  assert (Hrun : run s k ++ [f] = run s (S k)).
  { unfold run. rewrite Hf. apply run_snoc. }
  destruct sd, (coupled_prevs (run s k) fp); simpl.
  2: {
    rewrite Hrun, Hf, check_rule3_topological by lia.
    rewrite (IH (S k) svd Hnext) by (try done; try lia; intros; apply Hdone; lia).
    destruct (rule3_ok _ _); [|done].
    unfold yield_then. by rewrite bool_decide_true by (apply Hdone; lia). }
  all: unfold run; rewrite seqZ_cons by lia; unfold vseg_finish;
    by rewrite bool_decide_false.
Qed.

(** A call from a start whose later starts are all unexplored: it yields
    the vsegs of every start from its own on, and leaves them explored. *)
Lemma gen_vseg_spec (n : nat) :
  ∀ fuel s done svd,
    s = nvertices - Z.of_nat n → 0 ≤ s → (n < fuel)%nat →
    (∀ j, s ≤ j ≤ nvertices → j ∉ (if not_done done then ∅ else svd)) →
    ∃ svd',
      _gen_vseg fuel s done svd
      = (all_runs dag_prev_dict dag_next_dict nvertices n, Ok svd') ∧
      ∀ j, j ∈ svd' ↔ j ∈ (if not_done done then ∅ else svd) ∨ s ≤ j ≤ nvertices.
Proof.
  induction n as [|n IH]; intros fuel s done svd Hs Hs0 Hfuel Hfresh;
    (destruct fuel as [|fuel]; [lia|]); simpl.
  - replace (range s nvertices) with (@nil Z) by (unfold range; by rewrite seqZ_nil by lia).
    destruct (not_done done); simpl; unfold vseg_finish;
      (rewrite bool_decide_false by (apply Hfresh; lia));
      eexists; (split; [done|]); intros j; rewrite elem_of_union, elem_of_singleton;
      split; (intros [?|?]; [by left|right; lia]).
  - set (svd0 := if not_done done then ∅ else svd) in *.
    set (done0 := if not_done done then ∅ else default ∅ done).
    assert (Hloop : ∀ d, ∃ svd',
      vseg_loop (_gen_vseg fuel) s d (range s nvertices) [] svd0
      = ([s] :: all_runs dag_prev_dict dag_next_dict nvertices n
           ++ loop_runs dag_prev_dict dag_next_dict (range (s + 1) nvertices) [s],
         Ok svd') ∧
      ∀ j, j ∈ svd' ↔ j ∈ svd0 ∨ s ≤ j ≤ nvertices).
    { intros d. unfold range. rewrite seqZ_cons by lia. simpl vseg_loop.
      destruct (prev_key s) as [fp Hfp]; [lia|].
      unfold getitem at 1. rewrite Hfp. cbn -[Defs.check_rule3 Defs.vseg_loop].
      rewrite coupled_prevs_nil. cbn -[Defs.check_rule3 Defs.vseg_loop].
      rewrite check_rule3_single by lia.
      unfold yield_then. rewrite bool_decide_false by (apply Hfresh; lia).
      assert (Hnd : not_done (Some (d ∪ ({[s]} ∪ ∅))) = false).
      { apply bool_decide_eq_false. intros He.
        assert (s ∈ d ∪ ({[s]} ∪ ∅)) as Hin by set_solver.
        rewrite He in Hin. by apply not_elem_of_empty in Hin. }
      destruct (IH fuel (s + 1) (Some (d ∪ ({[s]} ∪ ∅))) svd0) as (svd1 & Hrec & Hsvd1);
        [lia|lia|lia| |].
      { rewrite Hnd. intros j Hj. apply Hfresh. lia. }
      rewrite Hnd in Hsvd1.
      rewrite (gbind_yields_ok _ _ svd1) by (by rewrite Hrec).
      rewrite Hrec. simpl.
      change [s] with (run s 0).
      rewrite (vseg_loop_explored _ s d Hs0 _ 0%nat svd1).
      + simpl. eexists. split.
        * unfold range. do 4 f_equal. f_equal; lia.
        * intros j. rewrite elem_of_union, elem_of_singleton, Hsvd1.
          split; [intros [[?|?]|?]|intros [?|?]]; auto with lia.
      + rewrite length_seqZ. f_equal; lia.
      + rewrite length_seqZ. lia.
      + rewrite Hsvd1. intros [?|?]; [|lia]. eapply Hfresh; [|done]. lia.
      + intros j Hj. apply Hsvd1. right. lia. }
    change (all_runs dag_prev_dict dag_next_dict nvertices (S n))
      with ([nvertices - Z.of_nat (S n)]
              :: all_runs dag_prev_dict dag_next_dict nvertices n
              ++ loop_runs dag_prev_dict dag_next_dict
                   (range (nvertices - Z.of_nat (S n) + 1) nvertices)
                   [nvertices - Z.of_nat (S n)]).
    rewrite <- Hs.
    destruct (not_done done); simpl; apply Hloop.
Qed.

Lemma chain_ok_0 s : chain_ok s 0.
Proof. intros j Hj. lia. Qed.

Lemma elem_of_all_runs (n : nat) : ∀ x,
  Z.of_nat n ≤ nvertices →
  x ∈ all_runs dag_prev_dict dag_next_dict nvertices n
  ↔ ∃ (s : Z) (k : nat), nvertices - Z.of_nat n ≤ s ∧ s + Z.of_nat k < nvertices ∧
       x = run s k ∧ chain_ok s k ∧ rule3_ok dag_next_dict (run s k) = true.
Proof.
  induction n as [|n IH]; intros x Hn.
  { simpl. split; [by intros ?%elem_of_nil|]. intros (s & k & ? & ? & _). lia. }
  change (all_runs dag_prev_dict dag_next_dict nvertices (S n))
    with ([nvertices - Z.of_nat (S n)]
            :: all_runs dag_prev_dict dag_next_dict nvertices n
            ++ loop_runs dag_prev_dict dag_next_dict
                 (range (nvertices - Z.of_nat (S n) + 1) nvertices)
                 [nvertices - Z.of_nat (S n)]).
  set (s0 := nvertices - Z.of_nat (S n)).
  assert (Hrange : range (s0 + 1) nvertices = seqZ (s0 + Z.of_nat 1) (Z.of_nat n)).
  { unfold range. f_equal; lia. }
  rewrite Hrange. change [s0] with (run s0 0).
  rewrite elem_of_cons, elem_of_app, IH, elem_of_loop_runs by (lia || apply chain_ok_0).
  split.
  - intros [->|[(s & k & Hs & Hk & -> & Hc & H3)|(k & Hk & -> & Hc & H3)]].
    + exists s0, 0%nat. split; [lia|]. split; [lia|]. split; [done|].
      split; [apply chain_ok_0|]. apply (rule3_ok_single s0). lia.
    + exists s, k. split; [lia|done].
    + exists s0, k. split; [lia|]. split; [lia|done].
  - intros (s & k & Hs & Hk & -> & Hc & H3).
    destruct (decide (s = s0)) as [->|].
    + destruct k as [|k]; [by left|]. right. right. exists (S k). split; [lia|done].
    + right. left. exists s, k. split; [lia|done].
Qed.

Lemma NoDup_all_runs (n : nat) :
  Z.of_nat n ≤ nvertices → NoDup (all_runs dag_prev_dict dag_next_dict nvertices n).
Proof.
  induction n as [|n IH]; intros Hn; [constructor|].
  change (all_runs dag_prev_dict dag_next_dict nvertices (S n))
    with ([nvertices - Z.of_nat (S n)]
            :: all_runs dag_prev_dict dag_next_dict nvertices n
            ++ loop_runs dag_prev_dict dag_next_dict
                 (range (nvertices - Z.of_nat (S n) + 1) nvertices)
                 [nvertices - Z.of_nat (S n)]).
  set (s0 := nvertices - Z.of_nat (S n)).
  assert (Hrange : range (s0 + 1) nvertices = seqZ (s0 + Z.of_nat 1) (Z.of_nat n)).
  { unfold range. f_equal; lia. }
  rewrite Hrange. change [s0] with (run s0 0).
  apply NoDup_cons. split; [|apply NoDup_app; split; [|split]].
  - rewrite elem_of_app, elem_of_all_runs, elem_of_loop_runs by (lia || apply chain_ok_0).
    intros [(s & k & Hs & _ & Heq & _)|(k & Hk & Heq & _)]; apply run_inj in Heq; lia.
  - apply IH. lia.
  - intros x Hx Hx'. apply elem_of_all_runs in Hx as (s & k & Hs & _ & -> & _); [|lia].
    apply elem_of_loop_runs in Hx' as (k' & _ & Heq & _); [|apply chain_ok_0].
    apply run_inj in Heq. lia.
  - apply NoDup_loop_runs, chain_ok_0.
Qed.

(** The top-level call. *)
Lemma gen_vseg_all_spec svd :
  ∃ svd',
    gen_vseg_all dag_vertex_list dag_prev_dict dag_next_dict dag_input_vertex svd
    = (all_runs dag_prev_dict dag_next_dict nvertices (length dag_vertex_list), Ok svd').
Proof.
  destruct (gen_vseg_spec (length dag_vertex_list) (S (length dag_vertex_list)) 0 None svd)
    as (svd' & H & _); [lia|lia|lia| |by eauto].
  simpl. intros j _. apply not_elem_of_empty.
Qed.

Lemma prev_before i j : j ∈ prevs_of i → j < i.
Proof. destruct adjacency as (_ & H & _). apply H. Qed.

Lemma chain_ok_rules s k :
  0 ≤ s → s + Z.of_nat k < nvertices →
  chain_ok s k ↔ rule1 dag_prev_dict (run s k) ∧ rule2 dag_prev_dict (run s k).
Proof.
  intros Hs Hk. split.
  - intros Hchain. split.
    + intros pre f post Heq Hpre.
      destruct (run_decompose _ _ _ _ _ Heq) as (Hp & Hf & Hlen).
      destruct pre as [|x pre']; [done|]. simpl length in *.
      destruct (extends_ok_true (run s (length pre')) f) as [H1 _].
      * unfold run. rewrite seqZ_cons by lia. done.
      * rewrite Hf. apply Hchain. apply (f_equal length) in Heq.
        unfold run in Heq. rewrite length_seqZ, length_app in Heq. simpl in Heq. lia.
      * unfold run in H1. rewrite <- Hp in H1. exact H1.
    + intros f p Hf Hsize Hp Hin.
      apply elem_of_run in Hf. apply elem_of_run in Hin.
      pose proof (prev_before _ _ Hp) as Hlt.
      set (j := Z.to_nat (f - s - 1)).
      assert (Hfj : f = s + Z.of_nat (S j)) by lia.
      destruct (extends_ok_true (run s j) f) as [_ H2].
      * unfold run. rewrite seqZ_cons by lia. done.
      * rewrite Hfj. apply Hchain. lia.
      * apply (H2 Hsize p Hp). apply elem_of_run. lia.
  - intros [H1 H2] j Hj. apply extends_ok_intro.
    + apply prev_key. lia.
    + intros i Hi%elem_of_run. apply prev_key. lia.
    + apply (H1 (run s j) _ _ (run_split s k j Hj)).
      unfold run. rewrite seqZ_cons by lia. done.
    + intros Hsize p Hp Hin. apply (H2 (s + Z.of_nat (S j)) p); [|done..|].
      * apply elem_of_run. lia.
      * apply elem_of_run. apply elem_of_run in Hin. lia.
Qed.

Lemma rule3_ok_rule3 s k :
  0 ≤ s → s + Z.of_nat k < nvertices →
  rule3_ok dag_next_dict (run s k) = true ↔ rule3 dag_next_dict (run s k).
Proof.
  intros Hs Hk. split.
  - intros H. exact (rule3_on_true _ _ H).
  - intros H. apply rule3_on_intro; [|exact H].
    intros i Hi%elem_of_run. apply next_key. lia.
Qed.

(** The top-level call ends normally; it yields, once each, the runs of
    vertices of the DAG that satisfy the three rules. *)
Lemma gen_vseg_all_runs svd :
  ∃ ys svd',
    gen_vseg_all dag_vertex_list dag_prev_dict dag_next_dict dag_input_vertex svd
    = (ys, Ok svd') ∧
    NoDup ys ∧
    ∀ vseg, vseg ∈ ys ↔
      (∃ s k, vseg = run s k ∧ 0 ≤ s ∧ s + Z.of_nat k < nvertices) ∧
      rule1 dag_prev_dict vseg ∧ rule2 dag_prev_dict vseg ∧ rule3 dag_next_dict vseg.
Proof.
  destruct (gen_vseg_all_spec svd) as [svd' Hgen].
  eexists _, svd'. split; [exact Hgen|]. split; [apply NoDup_all_runs; lia|].
  intros vseg. rewrite elem_of_all_runs by lia. split.
  - intros (s & k & Hs & Hk & -> & Hc & H3). split; [exists s, k; split; [done|lia]|].
    apply chain_ok_rules in Hc as [? ?]; [|lia..].
    apply rule3_ok_rule3 in H3; [|lia..]. done.
  - intros ((s & k & -> & Hs & Hk) & H1 & H2 & H3). exists s, k.
    split; [lia|]. split; [lia|]. split; [done|].
    split; [by apply chain_ok_rules|by apply rule3_ok_rule3].
Qed.

End Topological.

End EnumeratorFacts.

(** * Properties of the scheduling DAG builder *)

(** ** Loops *)

Lemma for_each_app {A S : Type} (body : S → A → result S) l1 l2 s :
  for_each body (l1 ++ l2) s = s' ← for_each body l1 s; for_each body l2 s'.
Proof.
  revert s. induction l1 as [|x l1 IH]; intros s; simpl; [done|].
  destruct (body s x) as [s'| |]; simpl; [apply IH|done..].
Qed.

(** A property of the state that the body of a loop keeps holds when the
    loop ends. *)
Lemma for_each_inv {A S : Type} (body : S → A → result S) (P : list A → S → Prop) :
  (∀ pre s x s', P pre s → body s x = Ok s' → P (pre ++ [x]) s') →
  ∀ l pre s s', P pre s → for_each body l s = Ok s' → P (pre ++ l) s'.
Proof.
  intros Hbody l. induction l as [|x l IH]; intros pre s s' HP; simpl.
  - intros [= <-]. by rewrite app_nil_r.
  - destruct (body s x) as [s1| |] eqn:Hx; simpl; [|done..]. intros Hl.
    rewrite cons_middle, app_assoc. eapply IH; [|exact Hl]. eapply Hbody; eauto.
Qed.

Section BuilderFacts.

Variable network : Network.

#[local] Abbreviation eligible := (eligible network).
#[local] Abbreviation chained := (chained network).
#[local] Abbreviation vertex_set_ok := (vertex_set_ok network).
#[local] Abbreviation can_merge := (can_merge network).
#[local] Abbreviation find_merge := (find_merge network).
#[local] Abbreviation add_layer := (add_layer network).

(** ** The test of a vertex *)

Lemma can_merge_spec prevs v b :
  can_merge prevs v = Ok b → (b = true ↔ eligible prevs v).
Proof.
  unfold Defs.can_merge. destruct (last v) as [vtail|] eqn:Hlast; [|done].
  apply last_Some in Hlast as [vhead ->]. rewrite removelast_last.
  intros [= <-]. rewrite !andb_true_iff, !bool_decide_eq_true. split.
  - intros [[Hd Ht] Hn]. exists vhead, vtail. split; [done|]. split; [|done].
    intros l Hl Hin. apply (Hd _ Hin). apply elem_of_list_to_set, list_elem_of_fmap. eauto.
  - intros (vhead' & vtail' & [-> ->]%app_inj_tail & Hd & Ht & Hn).
    split; [split|]; [|done..]. intros x Hx Hin.
    apply elem_of_list_to_set, list_elem_of_fmap in Hin as (l & -> & Hl).
    by apply (Hd l).
Qed.

Lemma can_merge_Ok prevs v : v ≠ [] → ∃ b, can_merge prevs v = Ok b.
Proof.
  intros Hv. unfold Defs.can_merge.
  destruct (last v) eqn:Hlast; [eauto|]. by apply last_None in Hlast.
Qed.

(** ** The scan of the vertices *)

Lemma find_merge_Some dag prevs idxs idx :
  find_merge dag prevs idxs = Ok (Some idx) →
  ∃ pre post (v : vertex), idxs = pre ++ idx :: post ∧ dag !! idx = Some v ∧ eligible prevs v ∧
    ∀ j, j ∈ pre → ∃ v' : vertex, dag !! j = Some v' ∧ ¬ eligible prevs v'.
Proof.
  induction idxs as [|i idxs IH]; simpl; [done|].
  destruct (dag !! i) as [v|] eqn:Hv; [|done].
  destruct (can_merge prevs v) as [b| |] eqn:Hb; simpl; [|done..].
  apply can_merge_spec in Hb. destruct b.
  - intros [= <-]. exists [], idxs, v. split; [done|]. split; [done|].
    split; [by apply Hb|]. by intros j ?%elem_of_nil.
  - intros (pre & post & v' & -> & Hv' & He & Hpre)%IH.
    exists (i :: pre), post, v'. split; [done|]. split; [done|]. split; [done|].
    intros j [->|Hj]%elem_of_cons; [|by apply Hpre].
    exists v. split; [done|]. intros He'. by apply Hb in He'.
Qed.

Lemma find_merge_None dag prevs idxs :
  find_merge dag prevs idxs = Ok None →
  ∀ j, j ∈ idxs → ∃ v' : vertex, dag !! j = Some v' ∧ ¬ eligible prevs v'.
Proof.
  induction idxs as [|i idxs IH]; simpl; [by intros _ j ?%elem_of_nil|].
  destruct (dag !! i) as [v|] eqn:Hv; [|done].
  destruct (can_merge prevs v) as [b| |] eqn:Hb; simpl; [|done..].
  apply can_merge_spec in Hb. destruct b; [done|].
  intros Hrest j [->|Hj]%elem_of_cons; [|by apply IH].
  exists v. split; [done|]. intros He'. by apply Hb in He'.
Qed.

Lemma find_merge_first dag prevs pre idx post v :
  (∀ j, j ∈ pre → ∃ v' : vertex, dag !! j = Some v' ∧ v' ≠ [] ∧ ¬ eligible prevs v') →
  dag !! idx = Some v → eligible prevs v →
  find_merge dag prevs (pre ++ idx :: post) = Ok (Some idx).
Proof.
  intros Hpre Hv He. induction pre as [|i pre IH]; simpl.
  - rewrite Hv. destruct He as (vh & vt & -> & He).
    destruct (can_merge_Ok prevs (vh ++ [vt])) as [b Hb]; [by destruct vh|].
    rewrite Hb. simpl. apply can_merge_spec in Hb.
    destruct b; [done|]. assert (false = true) as Hf; [|done].
    apply Hb. by exists vh, vt.
  - destruct (Hpre i) as (v' & Hv' & Hne & Hnot); [apply elem_of_cons; by left|].
    rewrite Hv'. destruct (can_merge_Ok prevs v' Hne) as [b Hb]. rewrite Hb. simpl.
    apply can_merge_spec in Hb. destruct b; [by destruct Hnot; apply Hb|].
    apply IH. intros j Hj. apply Hpre, elem_of_cons. by right.
Qed.

Lemma find_merge_all dag prevs idxs :
  (∀ j, j ∈ idxs → ∃ v' : vertex, dag !! j = Some v' ∧ v' ≠ [] ∧ ¬ eligible prevs v') →
  find_merge dag prevs idxs = Ok None.
Proof.
  induction idxs as [|i idxs IH]; intros Hall; simpl; [done|].
  destruct (Hall i) as (v' & Hv' & Hne & Hnot); [apply elem_of_cons; by left|].
  rewrite Hv'. destruct (can_merge_Ok prevs v' Hne) as [b Hb]. rewrite Hb. simpl.
  apply can_merge_spec in Hb. destruct b; [by destruct Hnot; apply Hb|].
  apply IH. intros j Hj. apply Hall, elem_of_cons. by right.
Qed.

(** ** The body of the loop over the layers *)

Lemma rev_seq_split (n idx : nat) :
  (idx < n)%nat →
  reverse (seq 0 n)
  = reverse (seq (S idx) (n - S idx)) ++ idx :: reverse (seq 0 idx).
Proof.
  intros Hidx. replace n with (idx + S (n - S idx))%nat at 1 by lia.
  rewrite seq_app, reverse_app. simpl. rewrite reverse_cons.
  by rewrite <- app_assoc.
Qed.

Lemma add_layer_conv dag layer_name :
  isinstance_ConvLayer (net_getitem network layer_name) = true →
  add_layer dag layer_name = Ok (dag ++ [[layer_name]]).
Proof. intros H. unfold Defs.add_layer. by rewrite H. Qed.

Lemma prevs_nonempty (layer_name : string) :
  prev_layers network layer_name ≠ [] →
  bool_decide ((list_to_set (prev_layers network layer_name) : gset (option string)) = ∅)
  = false.
Proof.
  intros Hne. apply bool_decide_eq_false. intros He.
  destruct (prev_layers network layer_name) as [|x l]; [done|].
  assert (x ∈ (list_to_set (x :: l) : gset (option string))) as Hin by set_solver.
  rewrite He in Hin. by apply not_elem_of_empty in Hin.
Qed.

Lemma add_layer_merge (dag : list vertex) layer_name idx (v : vertex) :
  let prevs : gset (option string) := list_to_set (prev_layers network layer_name) in
  isinstance_ConvLayer (net_getitem network layer_name) = false →
  prev_layers network layer_name ≠ [] →
  Forall (λ v, v ≠ []) dag →
  dag !! idx = Some v → eligible prevs v →
  (∀ j (v' : vertex), (idx < j)%nat → dag !! j = Some v' → ¬ eligible prevs v') →
  add_layer dag layer_name = Ok (<[idx := v ++ [layer_name]]> dag).
Proof.
  intros prevs Hconv Hprevs Hne Hv He Hlater. unfold Defs.add_layer.
  rewrite Hconv, prevs_nonempty by done.
  pose proof (lookup_lt_Some _ _ _ Hv) as Hlt.
  rewrite (rev_seq_split _ idx Hlt).
  rewrite (find_merge_first _ _ _ _ _ v); [simpl; by rewrite Hv| |done..].
  intros j Hj. apply elem_of_reverse, elem_of_seq in Hj.
  destruct (lookup_lt_is_Some_2 dag j) as [v' Hv']; [lia|].
  exists v'. split; [done|]. split.
  - eapply (Forall_lookup_1 _ _ _ _ Hne Hv').
  - apply (Hlater j); [lia|done].
Qed.

Lemma add_layer_new (dag : list vertex) layer_name :
  let prevs : gset (option string) := list_to_set (prev_layers network layer_name) in
  isinstance_ConvLayer (net_getitem network layer_name) = false →
  prev_layers network layer_name ≠ [] →
  Forall (λ v, v ≠ []) dag →
  (∀ v, v ∈ dag → ¬ eligible prevs v) →
  add_layer dag layer_name = Ok (dag ++ [[layer_name]]).
Proof.
  intros prevs Hconv Hprevs Hne Hnone. unfold Defs.add_layer.
  rewrite Hconv, prevs_nonempty by done.
  rewrite find_merge_all; [done|].
  intros j Hj. apply elem_of_reverse, elem_of_seq in Hj.
  destruct (lookup_lt_is_Some_2 dag j) as [v' Hv']; [lia|].
  exists v'. split; [done|]. split.
  - eapply (Forall_lookup_1 _ _ _ _ Hne Hv').
  - apply Hnone. by eapply list_elem_of_lookup_2.
Qed.

(** What the body may do: start a vertex, or extend an eligible one. *)
Lemma add_layer_cases (dag dag' : list vertex) layer_name :
  add_layer dag layer_name = Ok dag' →
  dag' = dag ++ [[layer_name]] ∨
  ∃ idx (v : vertex), dag !! idx = Some v ∧
    eligible (list_to_set (prev_layers network layer_name)) v ∧
    dag' = <[idx := v ++ [layer_name]]> dag.
Proof.
  unfold Defs.add_layer. destruct (isinstance_ConvLayer _); [intros [= <-]; by left|].
  case_bool_decide; [done|].
  destruct (find_merge _ _ _) as [[idx|]| |] eqn:Hfind; simpl; [| |done..].
  - apply find_merge_Some in Hfind as (_ & _ & v & _ & Hv & He & _).
    rewrite Hv. intros [= <-]. right. by exists idx, v.
  - intros [= <-]. by left.
Qed.

Lemma chained_snoc (v : vertex) vtail layer_name :
  chained v → last v = Some vtail →
  Some vtail ∈ prev_layers network layer_name →
  length (next_layers network vtail) = 1%nat →
  chained (v ++ [layer_name]).
Proof.
  intros Hc Hlast Hprev Hnext i a b Ha Hb.
  apply last_Some in Hlast as [vh ->].
  destruct (decide (S i < length (vh ++ [vtail]))%nat) as [Hi|Hi].
  - rewrite lookup_app_l in Ha; [|lia]. rewrite lookup_app_l in Hb; [|lia].
    by apply (Hc i).
  - pose proof (lookup_lt_Some _ _ _ Hb) as Hlen.
    rewrite !length_app in Hlen. rewrite !length_app in Hi. simpl in Hlen, Hi.
    assert (i = length vh) as -> by lia.
    rewrite <- app_assoc in Ha. rewrite <- app_assoc in Hb. simpl in Ha, Hb.
    rewrite list_lookup_middle in Ha by done.
    rewrite (lookup_app_r vh) in Hb by lia.
    replace (S (length vh) - length vh)%nat with 1%nat in Hb by lia.
    simpl in Hb. injection Ha as <-. injection Hb as <-. done.
Qed.

Lemma concat_insert_snoc (dag : list vertex) idx (v : vertex) x :
  dag !! idx = Some v → concat (<[idx := v ++ [x]]> dag) ≡ₚ concat dag ++ [x].
Proof.
  intros Hv. pose proof (lookup_lt_Some _ _ _ Hv) as Hlt.
  rewrite insert_take_drop by done.
  rewrite <- (take_drop_middle dag idx v Hv) at 3.
  rewrite !concat_app. simpl. rewrite <- !app_assoc.
  apply Permutation_app_head. apply Permutation_app_head.
  apply Permutation_app_comm.
Qed.

Lemma add_layer_ok layers dag dag' layer_name :
  vertex_set_ok layers dag → add_layer dag layer_name = Ok dag' →
  vertex_set_ok (layers ++ [layer_name]) dag'.
Proof.
  intros [Hne Hperm Hch Hord] [->|(idx & v & Hv & He & ->)]%add_layer_cases.
  - split.
    + apply Forall_app. split; [done|]. by repeat constructor.
    + rewrite concat_app. simpl. by apply Permutation_app_tail.
    + apply Forall_app. split; [done|]. apply Forall_singleton.
      intros [|?] a b Ha Hb; simpl in Hb; done.
    + apply Forall_app. split.
      * eapply Forall_impl; [exact Hord|]. intros v Hsub. by apply sublist_inserts_r.
      * apply Forall_singleton. apply sublist_inserts_l. done.
  - destruct He as (vh & vt & -> & Hd & Ht & Hn). split.
    + apply Forall_insert; [done|]. by destruct vh.
    + rewrite concat_insert_snoc by done. by apply Permutation_app_tail.
    + apply Forall_insert; [done|].
      apply (chained_snoc _ vt); [|apply last_snoc|by apply elem_of_list_to_set in Ht|done].
      eapply (Forall_lookup_1 _ _ _ _ Hch Hv).
    + apply Forall_insert.
      * eapply Forall_impl; [exact Hord|]. intros v Hsub. by apply sublist_inserts_r.
      * apply sublist_app; [|done]. eapply (Forall_lookup_1 _ _ _ _ Hord Hv).
Qed.

Lemma for_each_add_layer_ok layers dag :
  for_each add_layer layers [] = Ok dag → vertex_set_ok layers dag.
Proof.
  intros Hloop.
  apply (for_each_inv add_layer (λ pre s, vertex_set_ok pre s)
           (λ pre s x s' H1 H2, add_layer_ok pre s s' x H1 H2) layers [] [] dag);
    [|done].
  split; by constructor.
Qed.

Lemma build_vertex_set_ok dag :
  build_vertex_set network = Ok dag → vertex_set_ok (net_iter network) dag.
Proof.
  unfold build_vertex_set.
  destruct (for_each _ _ _) as [d| |] eqn:Hloop; simpl; [|done..].
  case_bool_decide; [|done]. intros [= <-]. by apply for_each_add_layer_ok.
Qed.

End BuilderFacts.

(** * Properties of the topological sorter *)

(** ** Lists of disjoint vertices *)

Lemma elem_of_concat {A : Type} (L : list (list A)) x :
  x ∈ concat L ↔ ∃ l, x ∈ l ∧ l ∈ L.
Proof.
  induction L as [|a L IH]; simpl.
  - split; [by intros ?%elem_of_nil|]. by intros (l & _ & ?%elem_of_nil).
  - rewrite elem_of_app, IH. split.
    + intros [?|(l & ? & ?)]; [exists a|exists l]; (split; [done|]);
        apply elem_of_cons; auto.
    + intros (l & Hx & [->|Hl]%elem_of_cons); [by left|right; eauto].
Qed.

Lemma concat_disjoint {A : Type} (L : list (list A)) u v x :
  NoDup (concat L) → u ∈ L → v ∈ L → x ∈ u → x ∈ v → u = v.
Proof.
  induction L as [|a L IH]; simpl; [by intros _ ?%elem_of_nil|].
  intros (Ha & Hdisj & HL)%NoDup_app Hu Hv Hxu Hxv.
  apply elem_of_cons in Hu as [->|Hu], Hv as [->|Hv]; [done| | |by apply IH].
  - exfalso. apply (Hdisj x Hxu). apply elem_of_concat. eauto.
  - exfalso. apply (Hdisj x Hxv). apply elem_of_concat. eauto.
Qed.

Lemma concat_NoDup_vertices {A : Type} (L : list (list A)) :
  NoDup (concat L) → Forall (λ v, v ≠ []) L → NoDup L.
Proof.
  induction L as [|a L IH]; simpl; [constructor|].
  intros (Ha & Hdisj & HL)%NoDup_app [Hne Hrest]%Forall_cons.
  apply NoDup_cons. split; [|by apply IH].
  intros Hin. destruct a as [|x a]; [done|].
  apply (Hdisj x); [apply elem_of_cons; by left|].
  apply elem_of_concat. exists (x :: a). split; [apply elem_of_cons; by left|done].
Qed.

(** In a concatenation of disjoint vertices, the layers of an earlier
    vertex stand before the layers of a later one. *)
Lemma concat_lookup_order {A : Type} (L : list (list A)) (i j p q : nat) u v x y :
  NoDup (concat L) →
  L !! i = Some u → L !! j = Some v → (i < j)%nat →
  x ∈ u → y ∈ v →
  concat L !! p = Some x → concat L !! q = Some y → (p < q)%nat.
Proof.
  revert i j p q. induction L as [|a L IH]; intros i j p q; [done|].
  simpl. intros Hnd Hu Hv Hij Hx Hy Hp Hq.
  pose proof Hnd as (Ha & Hdisj & HL)%NoDup_app.
  destruct j as [|j]; [lia|]. simpl in Hv.
  assert (Hyin : y ∈ concat L).
  { apply elem_of_concat. exists v. split; [done|]. by eapply list_elem_of_lookup_2. }
  assert (Hq' : (length a ≤ q)%nat).
  { destruct (decide (length a ≤ q)%nat); [done|]. exfalso.
    rewrite lookup_app_l in Hq by lia. apply list_elem_of_lookup_2 in Hq.
    by apply (Hdisj y). }
  destruct i as [|i]; simpl in Hu.
  - injection Hu as ->. destruct (decide (p < length u)%nat); [lia|]. exfalso.
    rewrite lookup_app_r in Hp by lia. apply list_elem_of_lookup_2 in Hp.
    by apply (Hdisj x).
  - assert (Hxin : x ∈ concat L).
    { apply elem_of_concat. exists u. split; [done|]. by eapply list_elem_of_lookup_2. }
    assert (Hp' : (length a ≤ p)%nat).
    { destruct (decide (length a ≤ p)%nat); [done|]. exfalso.
      rewrite lookup_app_l in Hp by lia. apply list_elem_of_lookup_2 in Hp.
      by apply (Hdisj x). }
    rewrite lookup_app_r in Hp, Hq by done.
    assert (p - length a < q - length a)%nat; [|lia].
    eapply (IH i j); eauto. lia.
Qed.

Lemma concat_Permutation {A : Type} (L1 L2 : list (list A)) :
  L1 ≡ₚ L2 → concat L1 ≡ₚ concat L2.
Proof.
  induction 1 as [|x l1 l2 _ IH|x y l|l1 l2 l3 _ IH1 _ IH2]; simpl.
  - done.
  - by apply Permutation_app_head.
  - rewrite !app_assoc. apply Permutation_app_tail, Permutation_app_comm.
  - by etrans.
Qed.

Lemma concat_lookup_vertex {A : Type} (L : list (list A)) (p : nat) x :
  concat L !! p = Some x → ∃ (a : nat) u, L !! a = Some u ∧ x ∈ u.
Proof.
  intros Hp%list_elem_of_lookup_2. apply elem_of_concat in Hp as (u & Hx & Hu).
  apply list_elem_of_lookup in Hu as [a Ha]. eauto.
Qed.

(** In a concatenation of disjoint vertices, the layers of a vertex stand
    in the order of the vertex. *)
Lemma concat_lookup_same {A : Type} (L : list (list A)) (a i j p q : nat) u x y :
  NoDup (concat L) →
  L !! a = Some u → u !! i = Some x → u !! j = Some y → (i < j)%nat →
  concat L !! p = Some x → concat L !! q = Some y → (p < q)%nat.
Proof.
  intros Hnd Ha Hi Hj Hij Hp Hq.
  rewrite <- (take_drop_middle L a u Ha) in Hnd, Hp, Hq.
  rewrite concat_app in Hnd, Hp, Hq. simpl in Hnd, Hp, Hq.
  set (pre := concat (take a L)) in *. set (post := concat (drop (S a) L)) in *.
  assert (Hx : (pre ++ u ++ post) !! (length pre + i)%nat = Some x).
  { rewrite lookup_app_r by lia. replace (length pre + i - length pre)%nat with i by lia.
    rewrite lookup_app_l; [done|]. by eapply lookup_lt_Some. }
  assert (Hy : (pre ++ u ++ post) !! (length pre + j)%nat = Some y).
  { rewrite lookup_app_r by lia. replace (length pre + j - length pre)%nat with j by lia.
    rewrite lookup_app_l; [done|]. by eapply lookup_lt_Some. }
  pose proof (NoDup_lookup _ _ _ _ Hnd Hp Hx).
  pose proof (NoDup_lookup _ _ _ _ Hnd Hq Hy). lia.
Qed.

(** ** The vertices of a well formed network *)

Section VertexFacts.

Variable network : Network.
Variable rank : string → nat.
Variable dag_vertex_set : list vertex.

Hypothesis network_wf : network_ok network rank.
Hypothesis vertices_wf : vertex_set_ok network (net_iter network) dag_vertex_set.

#[local] Abbreviation vedge := (vedge network).
#[local] Abbreviation vrank := (vrank rank).

Lemma vertices_nodup : NoDup (concat dag_vertex_set).
Proof.
  rewrite (vs_layers _ _ _ vertices_wf). apply (net_nodup _ _ network_wf).
Qed.

Lemma vertex_layer v l : v ∈ dag_vertex_set → l ∈ v → l ∈ net_iter network.
Proof.
  intros Hv Hl. rewrite <- (vs_layers _ _ _ vertices_wf).
  apply elem_of_concat. eauto.
Qed.

Lemma vertex_disjoint u v l :
  u ∈ dag_vertex_set → v ∈ dag_vertex_set → l ∈ u → l ∈ v → u = v.
Proof. apply concat_disjoint, vertices_nodup. Qed.

Lemma vertex_set_nodup : NoDup dag_vertex_set.
Proof.
  apply concat_NoDup_vertices; [apply vertices_nodup|].
  apply (vs_nonempty _ _ _ vertices_wf).
Qed.

Lemma vertex_chained v : v ∈ dag_vertex_set → chained network v.
Proof.
  intros Hv. pose proof (vs_chained _ _ _ vertices_wf) as H.
  rewrite Forall_forall in H. by apply H.
Qed.

(** The ranks grow along a vertex. *)
Lemma vertex_rank_mono v (i j : nat) a b :
  v ∈ dag_vertex_set → v !! i = Some a → v !! j = Some b → (i < j)%nat →
  (rank a < rank b)%nat.
Proof.
  intros Hv Ha Hb Hij. revert b Hb. induction j as [|j IH]; intros b Hb; [lia|].
  destruct (lookup_lt_is_Some_2 v j) as [c Hc].
  { apply lookup_lt_Some in Hb. lia. }
  assert (rank c < rank b)%nat as Hcb.
  { apply (net_acyclic _ _ network_wf).
    - apply (vertex_layer v); [done|]. by eapply list_elem_of_lookup_2.
    - apply (vertex_layer v); [done|]. by eapply list_elem_of_lookup_2.
    - by apply (vertex_chained v Hv j c b). }
  destruct (decide (i = j)) as [->|Hne].
  - rewrite Ha in Hc. by injection Hc as ->.
  - specialize (IH ltac:(lia) c Hc). lia.
Qed.

Lemma vertex_rank_last v l :
  v ∈ dag_vertex_set → l ∈ v → (rank l ≤ vrank v)%nat.
Proof.
  intros Hv [i Hi]%list_elem_of_lookup. unfold BuildSpec.vrank.
  destruct (last v) as [t|] eqn:Hlast.
  - rewrite last_lookup in Hlast.
    destruct (decide (i = pred (length v))) as [->|Hne].
    + rewrite Hi in Hlast. injection Hlast as ->. lia.
    + apply lookup_lt_Some in Hi as Hlt.
      pose proof (vertex_rank_mono v i (pred (length v)) l t Hv Hi Hlast). lia.
  - apply last_None in Hlast. subst v. done.
Qed.

(** An edge leaves a vertex at its last layer, and leads to a vertex of a
    larger rank. *)
Lemma vedge_rank u v :
  u ∈ dag_vertex_set → v ∈ dag_vertex_set → vedge u v → (vrank u < vrank v)%nat.
Proof.
  intros Hu Hv (Hne & l & nl & Hl & Hnl & Hnext).
  pose proof (vertex_layer u l Hu Hl) as Hlnet.
  pose proof (vertex_layer v nl Hv Hnl) as Hnlnet.
  apply list_elem_of_lookup in Hl as [i Hi].
  destruct (u !! S i) as [b|] eqn:Hb.
  - exfalso. apply Hne.
    destruct (vertex_chained u Hu i l b Hi Hb) as [Hprev Hone].
    apply (net_prev_next _ _ network_wf) in Hprev;
      [|done|apply (vertex_layer u); [done|by eapply list_elem_of_lookup_2]].
    destruct (next_layers network l) as [|x [|y rest]] eqn:Hn; [done| |done].
    apply list_elem_of_singleton in Hprev. apply list_elem_of_singleton in Hnext.
    assert (nl = b) as -> by congruence.
    apply (vertex_disjoint u v b); [done..| |done]. by eapply list_elem_of_lookup_2.
  - assert (vrank u = rank l) as ->.
    { unfold BuildSpec.vrank. rewrite last_lookup.
      apply lookup_ge_None in Hb. apply lookup_lt_Some in Hi as Hlt.
      replace (pred (length u)) with i by lia. by rewrite Hi. }
    assert (rank l < rank nl)%nat.
    { apply (net_acyclic _ _ network_wf); [done..|].
      by apply (net_prev_next _ _ network_wf). }
    pose proof (vertex_rank_last v nl Hv Hnl). lia.
Qed.

(** ** The next layers and the next vertices of a vertex *)

Lemma truthy_Some (s : string) : truthy (Some s) = true ↔ s ≠ ""%string.
Proof. simpl. rewrite negb_true_iff. apply String.eqb_neq. Qed.

#[local] Arguments truthy : simpl never.

Lemma dfs_next_layers_spec (v : vertex) s :
  s ∈ dfs_next_layers network v ↔
  ∃ l, l ∈ v ∧ Some s ∈ next_layers network l ∧ s ≠ ""%string ∧ s ∉ v.
Proof.
  unfold dfs_next_layers.
  set (step := λ (acc : list string) (nl : option string),
         match nl with
         | Some s =>
             if truthy nl && bool_decide (s ∉ v) && bool_decide (s ∉ acc)
             then acc ++ [s] else acc
         | None => acc
         end).
  assert (Hstep : ∀ nl acc, s ∈ step acc nl ↔
            s ∈ acc ∨ (nl = Some s ∧ s ≠ ""%string ∧ s ∉ v)).
  { intros [t|] acc; simpl; [|by split; [left|intros [?|[? _]]]].
    destruct (truthy (Some t) && bool_decide (t ∉ v) && bool_decide (t ∉ acc)) eqn:Hc.
    - apply andb_true_iff in Hc as [[Ht Hv]%andb_true_iff Hacc].
      apply truthy_Some in Ht. apply bool_decide_eq_true in Hv.
      rewrite elem_of_app, list_elem_of_singleton. split.
      + intros [?| ->]; [by left|by right].
      + intros [?|[ [= ->] _]]; [by left|by right].
    - split; [by left|]. intros [?|([= ->] & Ht & Hv)]; [done|].
      apply truthy_Some in Ht. rewrite Ht in Hc. simpl in Hc.
      rewrite bool_decide_true in Hc by done. simpl in Hc.
      by apply bool_decide_eq_false, dec_stable in Hc. }
  assert (Hinner : ∀ nls acc, s ∈ foldl step acc nls ↔
            s ∈ acc ∨ (Some s ∈ nls ∧ s ≠ ""%string ∧ s ∉ v)).
  { induction nls as [|nl nls IH]; intros acc; simpl.
    - split; [by left|]. by intros [?|[?%elem_of_nil _]].
    - rewrite IH, Hstep, elem_of_cons. naive_solver. }
  assert (Houter : ∀ ls acc,
            s ∈ foldl (λ acc l, foldl step acc (next_layers network l)) acc ls ↔
            s ∈ acc ∨ ∃ l, l ∈ ls ∧ Some s ∈ next_layers network l ∧
                           s ≠ ""%string ∧ s ∉ v).
  { induction ls as [|l ls IH]; intros acc; simpl.
    - split; [by left|]. by intros [?|(l & ?%elem_of_nil & _)].
    - rewrite IH, Hinner. setoid_rewrite elem_of_cons. naive_solver. }
  rewrite Houter. split; [intros [?%elem_of_nil|?]; done|by right].
Qed.

Lemma elem_of_vertices_of (ls : list string) (U : gset vertex) (x : vertex) :
  x ∈ vertices_of ls U ↔ ∃ l, l ∈ ls ∧ x ∈ U ∧ l ∈ x.
Proof.
  unfold vertices_of. rewrite list_elem_of_bind.
  setoid_rewrite list_elem_of_filter. setoid_rewrite elem_of_elements.
  naive_solver.
Qed.

(** The next vertices of a visit are the unseen vertices an edge leads
    to. *)
Lemma next_vertices_spec (v x : vertex) (U : gset vertex) :
  v ∈ dag_vertex_set → (∀ y, y ∈ U → y ∈ dag_vertex_set) →
  x ∈ vertices_of (reverse (dfs_next_layers network v)) U ↔ x ∈ U ∧ vedge v x.
Proof.
  intros Hv HU. rewrite elem_of_vertices_of.
  setoid_rewrite elem_of_reverse. setoid_rewrite dfs_next_layers_spec. split.
  - intros (nl & (l & Hl & Hnext & Hname & Hnot) & HxU & Hnl). split; [done|].
    split; [intros ->; done|]. by exists l, nl.
  - intros [HxU (Hne & l & nl & Hl & Hnl & Hnext)]. exists nl.
    split; [|done]. exists l. split; [done|]. split; [done|]. split.
    + apply (net_names _ _ network_wf). apply (vertex_layer x); auto.
    + intros Hin. apply Hne. apply (vertex_disjoint v x nl); auto.
Qed.

(** ** The depth-first search *)

#[local] Abbreviation dfs_inv := (dfs_inv network dag_vertex_set).
#[local] Abbreviation visit_pre := (visit_pre rank dag_vertex_set).
#[local] Abbreviation visit_post := (visit_post network dag_vertex_set).
#[local] Abbreviation dfs_ok := (dfs_ok network rank dag_vertex_set).

Lemma for_each_dfs_ok f :
  dfs_ok f →
  ∀ vs st st',
    dfs_inv st → (∀ x, x ∈ vs → visit_pre x st) →
    for_each (λ s nv, f nv s) vs st = Ok st' →
    dfs_inv st' ∧ seen st' = seen st ∧ unseen st' ⊆ unseen st ∧
    (∃ new, visited st' = visited st ++ new) ∧ ∀ x, x ∈ vs → x ∈ visited st'.
Proof.
  intros Hf vs. induction vs as [|x vs IH]; intros st st' Hinv Hpre; simpl.
  - intros [= <-]. split; [done|]. split; [done|]. split; [done|].
    split; [exists []; by rewrite app_nil_r|]. by intros x ?%elem_of_nil.
  - destruct (f x st) as [st1| |] eqn:Hx; simpl; [|done..]. intros Hrest.
    destruct (Hf x st st1 Hinv) as (Hinv1 & Hseen1 & Hunseen1 & [new1 Hnew1] & Hx1);
      [apply Hpre, elem_of_cons; by left|done|].
    destruct (IH st1 st' Hinv1) as (Hinv' & Hseen' & Hunseen' & [new' Hnew'] & Hvs');
      [|done|].
    { intros y Hy. destruct (Hpre y) as [Hy1 Hy2]; [apply elem_of_cons; by right|].
      split; [done|]. by rewrite Hseen1. }
    split; [done|]. split; [congruence|]. split; [set_solver|].
    split; [exists (new1 ++ new'); by rewrite Hnew', Hnew1, app_assoc|].
    intros y [->|Hy]%elem_of_cons; [|by apply Hvs'].
    rewrite Hnew'. apply elem_of_app. by left.
Qed.

Lemma dfs_ok_fuel fuel : dfs_ok (_dfs network fuel).
Proof.
  induction fuel as [|fuel IH]; intros v st st' Hinv [Hv Hrank]; simpl; [done|].
  case_bool_decide as Hassert; [|done]. destruct Hassert as [Hnseen Hnvisited].
  set (st1 := {| visited := visited st; unseen := unseen st ∖ {[v]};
                 seen := seen st ∪ {[v]} |}).
  destruct (for_each _ _ st1) as [st2| |] eqn:Hloop; simpl; [|done..].
  case_bool_decide as Hin; [|done]. intros [= <-].
  destruct Hinv as [Hcover Hus Huv Hsv Hnd Htopo].
  assert (Hinv1 : dfs_inv st1).
  { split; simpl; [|set_solver..|done|done].
    intros x. rewrite Hcover. destruct (decide (x = v)); set_solver. }
  assert (Hnextv : ∀ x, x ∈ vertices_of (reverse (dfs_next_layers network v)) (unseen st1)
                        ↔ x ∈ unseen st1 ∧ vedge v x).
  { intros x. apply next_vertices_spec; [done|]. intros y Hy. apply Hcover.
    simpl in Hy. set_solver. }
  assert (Hpre : ∀ x, x ∈ vertices_of (reverse (dfs_next_layers network v)) (unseen st1)
                      → visit_pre x st1).
  { intros x [Hx Hedge]%Hnextv. assert (Hxv : x ∈ dag_vertex_set).
    { apply Hcover. simpl in Hx. set_solver. }
    split; [done|]. intros w Hw.
    pose proof (vedge_rank v x Hv Hxv Hedge).
    simpl in Hw. apply elem_of_union in Hw as [Hw| ->%elem_of_singleton]; [|done].
    specialize (Hrank w Hw). lia. }
  destruct (for_each_dfs_ok _ IH _ st1 st2 Hinv1 Hpre Hloop)
    as (Hinv2 & Hseen2 & Hunseen2 & [new Hnew] & Hvisited2).
  simpl in Hseen2, Hunseen2, Hnew.
  destruct Hinv2 as [Hcover2 Hus2 Huv2 Hsv2 Hnd2 Htopo2].
  split; [|split; [|split; [|split]]]; simpl.
  - split; simpl.
    + intros x. rewrite Hcover2, elem_of_app, list_elem_of_singleton, elem_of_difference,
        elem_of_singleton.
      destruct (decide (x = v)) as [->|]; naive_solver.
    + intros x Hx. specialize (Hus2 x Hx). set_solver.
    + intros x Hx. rewrite elem_of_app, list_elem_of_singleton.
      intros [?| ->]; [by apply (Huv2 x)|by apply (Hus2 v)].
    + intros x [Hx Hne]%elem_of_difference. rewrite elem_of_app, list_elem_of_singleton.
      intros [?| ->]; [by apply (Hsv2 x)|set_solver].
    + apply NoDup_app. split; [done|]. split; [|apply NoDup_singleton].
      intros x Hx ->%list_elem_of_singleton. by apply (Hsv2 v).
    + intros l1 u l2 x Hsplit Hx Hedge.
      destruct l2 as [|z l2 _] using rev_ind.
      * apply app_inj_tail in Hsplit as [<- <-].
        apply Hcover in Hx as Hx'. destruct Hx' as [Hx'|[Hx'|Hx']].
        -- apply Hvisited2, Hnextv. split; [|done]. simpl.
           destruct Hedge as [Hne _]. set_solver.
        -- pose proof (vedge_rank v x Hv Hx Hedge). specialize (Hrank x Hx'). lia.
        -- rewrite Hnew. apply elem_of_app. by left.
      * rewrite app_comm_cons, app_assoc in Hsplit.
        apply app_inj_tail in Hsplit as [Hsplit _]. by eapply Htopo2.
  - rewrite Hseen2. set_solver.
  - set_solver.
  - exists (new ++ [v]). by rewrite Hnew, app_assoc.
  - apply elem_of_app. right. by apply list_elem_of_singleton.
Qed.

(** ** The order returned by the sorter *)

Lemma topological_order_ok order :
  _topological_order network dag_vertex_set = Ok order →
  order ≡ₚ dag_vertex_set ∧ topological network order.
Proof.
  unfold _topological_order.
  set (st0 := {| visited := []; unseen := list_to_set dag_vertex_set; seen := ∅ |}).
  destruct (for_each _ _ st0) as [st| |] eqn:Hloop; simpl; [|done..].
  case_bool_decide as Hunseen; [|done]. case_bool_decide as Hseen; [|done].
  intros [= <-].
  assert (Hinv0 : dfs_inv st0).
  { split; simpl; [set_solver..|constructor|].
    intros l1 u l2 v Hnil. by destruct l1. }
  assert (Hpre : ∀ x, x ∈ vertices_of (reverse (first_layers network)) (unseen st0)
                      → visit_pre x st0).
  { intros x (l & _ & Hx & _)%elem_of_vertices_of. split; [|set_solver].
    simpl in Hx. by apply elem_of_list_to_set in Hx. }
  destruct (for_each_dfs_ok _ (dfs_ok_fuel (S (length dag_vertex_set))) _ st0 st
              Hinv0 Hpre Hloop) as (Hinv & _).
  destruct Hinv as [Hcover Hus Huv Hsv Hnd Htopo]. split.
  - rewrite reverse_Permutation. apply NoDup_Permutation; [done|apply vertex_set_nodup|].
    intros x. rewrite Hcover, Hunseen, Hseen. set_solver.
  - intros i j u v Hi Hj Hedge.
    apply reverse_lookup_Some in Hi as [Hi Hilt], Hj as [Hj Hjlt].
    destruct (list_elem_of_split_length _ _ _ Hi) as (l1 & l2 & Hsplit & Hlen).
    assert (Hv : v ∈ dag_vertex_set).
    { apply Hcover. right. right. by eapply list_elem_of_lookup_2. }
    pose proof (Htopo l1 u l2 v Hsplit Hv Hedge) as Hin.
    apply list_elem_of_lookup in Hin as [k Hk].
    assert (visited st !! k = Some v) as Hk'.
    { rewrite Hsplit. rewrite lookup_app_l; [done|]. by eapply lookup_lt_Some. }
    apply lookup_lt_Some in Hk.
    assert (k = (length (visited st) - S j)%nat) as Hkj.
    { eapply NoDup_lookup; eauto. }
    lia.
Qed.

(** The layers, flattened in the order of the sorter: every layer once,
    and a layer after its previous layers. *)
Lemma ordered_layers_ok order :
  _topological_order network dag_vertex_set = Ok order →
  concat order ≡ₚ net_iter network ∧
  ∀ (i j : nat) p c,
    concat order !! i = Some p → concat order !! j = Some c →
    Some p ∈ prev_layers network c → (i < j)%nat.
Proof.
  intros [Hperm Htopo]%topological_order_ok.
  assert (Hlayers : concat order ≡ₚ net_iter network).
  { rewrite (concat_Permutation _ _ Hperm). apply (vs_layers _ _ _ vertices_wf). }
  split; [done|]. intros i j p c Hi Hj Hprev.
  assert (Hnd : NoDup (concat order)).
  { rewrite Hlayers. apply (net_nodup _ _ network_wf). }
  assert (Hp : p ∈ net_iter network).
  { rewrite <- Hlayers. by eapply list_elem_of_lookup_2. }
  assert (Hc : c ∈ net_iter network).
  { rewrite <- Hlayers. by eapply list_elem_of_lookup_2. }
  destruct (concat_lookup_vertex _ _ _ Hi) as (a & u & Ha & Hpu).
  destruct (concat_lookup_vertex _ _ _ Hj) as (b & v & Hb & Hcv).
  assert (Hu : u ∈ dag_vertex_set).
  { rewrite <- Hperm. by eapply list_elem_of_lookup_2. }
  assert (Hv : v ∈ dag_vertex_set).
  { rewrite <- Hperm. by eapply list_elem_of_lookup_2. }
  pose proof (net_acyclic _ _ network_wf p c Hp Hc Hprev) as Hrank.
  destruct (decide (u = v)) as [->|Hne].
  - apply list_elem_of_lookup in Hpu as [i' Hi'], Hcv as [j' Hj'].
    apply (concat_lookup_same order b i' j' i j v p c); try done.
    destruct (decide (i' < j')%nat); [done|]. exfalso.
    destruct (decide (i' = j')) as [->|].
    + rewrite Hi' in Hj'. injection Hj' as ->. lia.
    + pose proof (vertex_rank_mono v j' i' c p Hv Hj' Hi'). lia.
  - apply (concat_lookup_order order a b i j u v p c); try done.
    apply (Htopo a b u v Ha Hb). split; [done|]. exists p, c.
    split; [done|]. split; [done|]. by apply (net_prev_next _ _ network_wf).
Qed.

End VertexFacts.

(** * Properties of the adjacency of the vertices *)

Section AdjacencyFacts.

Variable network : Network.

(** ** The index of the layers *)

Lemma index_layers_spec (order : list vertex) (d : gmap string Z) :
  index_layers order = Ok d →
  ∀ l vidx, d !! l = Some vidx ↔
    ∃ (a : nat) (u : vertex), order !! a = Some u ∧ l ∈ u ∧ vidx = Z.of_nat a.
Proof.
  unfold index_layers. intros Hloop.
  set (pairs := zip (seqZ 0 (Z.of_nat (length order))) order) in *.
  assert (Hpairs : ∀ vidx (u : vertex), (vidx, u) ∈ pairs ↔
            ∃ a : nat, order !! a = Some u ∧ vidx = Z.of_nat a).
  { intros vidx u. unfold pairs. rewrite list_elem_of_lookup. split.
    - intros [a Ha]. apply lookup_zip_with_Some in Ha as (x & y & [= <- <-] & Hx & Hy).
      apply lookup_seqZ in Hx as [-> _]. exists a. split; [done|lia].
    - intros (a & Ha & ->). exists a. apply lookup_zip_with_Some.
      exists (Z.of_nat a), u. split; [done|]. split; [|done].
      apply lookup_seqZ. split; [lia|]. apply lookup_lt_Some in Ha. lia. }
  set (P := λ (pre : list (Z * vertex)) (d : gmap string Z),
         ∀ l vidx, d !! l = Some vidx ↔ ∃ u : vertex, (vidx, u) ∈ pre ∧ l ∈ u).
  assert (HP : P pairs d).
  { apply (λ H1 H2, for_each_inv _ P H1 pairs [] ∅ d H2 Hloop).
    - intros pre s [vidx v] s' HPs Hbody.
      set (Q := λ (prev : list string) (d : gmap string Z),
             ∀ l i, d !! l = Some i ↔
               (∃ u : vertex, (i, u) ∈ pre ∧ l ∈ u) ∨ (i = vidx ∧ l ∈ prev)).
      assert (HQ : Q v s').
      { apply (λ H1 H2, for_each_inv _ Q H1 v [] s s' H2 Hbody).
        - intros prev d0 x d1 HQ0. unfold Q in HQ0 |- *.
          case_bool_decide as Hdom; [done|].
          intros [= <-] l i. apply not_elem_of_dom in Hdom.
          rewrite lookup_insert. case_decide as Hl.
          + subst x. rewrite elem_of_app, list_elem_of_singleton. split.
            * intros [= <-]. right. auto.
            * intros [Hin|[-> _]]; [|done].
              assert (d0 !! l = Some i) as Hsome by (apply HQ0; by left). congruence.
          + rewrite HQ0, elem_of_app, list_elem_of_singleton. naive_solver.
        - intros l i. unfold P in HPs. rewrite HPs. split; [by left|].
          intros [?|[_ ?%elem_of_nil]]; done. }
      intros l i. unfold Q in HQ. rewrite (HQ l i). setoid_rewrite elem_of_app.
      setoid_rewrite list_elem_of_singleton. split.
      + intros [(u & ? & ?)|[-> ?]]; [exists u; auto|exists v; auto].
      + intros (u & [?|[= -> ->]] & ?); [left; eauto|right; auto].
    - intros l vidx. rewrite lookup_empty. split; [done|].
      by intros (u & ?%elem_of_nil & _). }
  intros l vidx. unfold P in HP. rewrite (HP l vidx). setoid_rewrite Hpairs.
  naive_solver.
Qed.

(** ** The links of the layers *)

Lemma set_add_spec (d d' : gmap Z (gset Z)) vidx x :
  set_add d vidx x = Ok d' →
  dom d' = dom d ∧
  ∀ i j, j ∈ prevs_of d' i ↔ j ∈ prevs_of d i ∨ (i = vidx ∧ j = x).
Proof.
  unfold set_add, getitem. destruct (d !! vidx) as [X|] eqn:HX; [simpl|done].
  intros [= <-]. split.
  - rewrite dom_insert_L. apply elem_of_dom_2 in HX. set_solver.
  - intros i j. unfold prevs_of. rewrite lookup_insert. case_decide as Hi.
    + subst i. rewrite HX. simpl. rewrite elem_of_union, elem_of_singleton. naive_solver.
    + naive_solver.
Qed.

Lemma link_layer_ok dict inp (pre : list string) (P N P' N' : gmap Z (gset Z)) l :
  prev_sound network dict inp pre P → next_sound network dict pre N →
  link_layer network inp dict (P, N) l = Ok (P', N') →
  prev_sound network dict inp (pre ++ [l]) P' ∧
  next_sound network dict (pre ++ [l]) N' ∧
  dom P' = dom P ∧ dom N' = dom N.
Proof.
  intros HP HN. unfold link_layer, getitem.
  destruct (dict !! l) as [vidx|] eqn:Hl; [simpl|done].
  destruct (for_each _ (prev_layers network l) P) as [P1| |] eqn:Hprev; [simpl|done..].
  destruct (for_each _ (next_layers network l) N) as [N1| |] eqn:Hnext; [simpl|done..].
  intros [= <- <-].
  set (RP := λ (done : list (option string)) (d : gmap Z (gset Z)),
         dom d = dom P ∧
         ∀ i j, j ∈ prevs_of d i →
           j ∈ prevs_of P i ∨
           (i = vidx ∧ j ≠ i ∧
            (j = inp ∨ ∃ s, Some s ∈ done ∧ dict !! s = Some j))).
  assert (HRP : RP (prev_layers network l) P1).
  { apply (λ H1 H2, for_each_inv _ RP H1 (prev_layers network l) [] P P1 H2 Hprev).
    - intros done d pl d' [Hdom Hd] Hbody. unfold RP.
      assert (Hmono : ∀ i j,
                j ∈ prevs_of P i ∨
                (i = vidx ∧ j ≠ i ∧ (j = inp ∨ ∃ s, Some s ∈ done ∧ dict !! s = Some j)) →
                j ∈ prevs_of P i ∨
                (i = vidx ∧ j ≠ i ∧
                 (j = inp ∨ ∃ s, Some s ∈ done ++ [pl] ∧ dict !! s = Some j))).
      { intros i j. setoid_rewrite elem_of_app. naive_solver. }
      assert (Hadd : ∀ pvidx,
                (pvidx = inp ∨ ∃ s, pl = Some s ∧ dict !! s = Some pvidx) →
                (if bool_decide (pvidx ≠ vidx) then set_add d vidx pvidx else Ok d)
                = Ok d' →
                dom d' = dom P ∧
                ∀ i j, j ∈ prevs_of d' i →
                  j ∈ prevs_of P i ∨
                  (i = vidx ∧ j ≠ i ∧
                   (j = inp ∨ ∃ s, Some s ∈ done ++ [pl] ∧ dict !! s = Some j))).
      { intros pvidx Hpv. case_bool_decide as Hne.
        - intros [Hdom' Hd']%set_add_spec. split; [congruence|].
          intros i j [Hj|[-> ->]]%Hd'; [by apply Hmono, Hd|].
          right. split; [done|]. split; [done|].
          destruct Hpv as [?|(s & -> & ?)]; [by left|right].
          exists s. split; [|done]. apply elem_of_app. right.
          by apply list_elem_of_singleton.
        - intros [= <-]. split; [done|]. intros i j Hj. by apply Hmono, Hd. }
      destruct pl as [s|]; [destruct (truthy (Some s))|]; simpl in Hbody.
      + destruct (dict !! s) as [pvidx|] eqn:Hs; [simpl in Hbody|done].
        apply (Hadd pvidx); [right; eauto|done].
      + apply (Hadd inp); [by left|done].
      + apply (Hadd inp); [by left|done].
    - split; [done|]. intros i j Hj. by left. }
  set (RN := λ (done : list (option string)) (d : gmap Z (gset Z)),
         dom d = dom N ∧
         ∀ i j, j ∈ nexts_of d i →
           j ∈ nexts_of N i ∨
           (i = vidx ∧ j ≠ i ∧ ∃ s, Some s ∈ done ∧ dict !! s = Some j)).
  assert (HRN : RN (next_layers network l) N1).
  { apply (λ H1 H2, for_each_inv _ RN H1 (next_layers network l) [] N N1 H2 Hnext).
    - intros done d nl d' [Hdom Hd] Hbody. unfold RN.
      assert (Hmono : ∀ i j,
                j ∈ nexts_of N i ∨
                (i = vidx ∧ j ≠ i ∧ ∃ s, Some s ∈ done ∧ dict !! s = Some j) →
                j ∈ nexts_of N i ∨
                (i = vidx ∧ j ≠ i ∧ ∃ s, Some s ∈ done ++ [nl] ∧ dict !! s = Some j)).
      { intros i j. setoid_rewrite elem_of_app. naive_solver. }
      assert (Hsame : d' = d → RN (done ++ [nl]) d').
      { intros ->. split; [done|]. intros i j Hj. by apply Hmono, Hd. }
      destruct nl as [s|]; [destruct (truthy (Some s))|]; simpl in Hbody;
        [|apply Hsame; congruence..].
      destruct (dict !! s) as [nvidx|] eqn:Hs; [simpl in Hbody|done].
      case_bool_decide as Hne; [|apply Hsame; congruence].
      apply set_add_spec in Hbody as [Hdom' Hd']. split; [congruence|].
      intros i j [Hj|[-> ->]]%Hd'; [by apply Hmono, Hd|].
      right. split; [done|]. split; [done|]. exists s. split; [|done].
      apply elem_of_app. right. by apply list_elem_of_singleton.
    - split; [done|]. intros i j Hj. by left. }
  destruct HRP as [HdomP HP1], HRN as [HdomN HN1].
  split; [|split; [|done]].
  - intros i j [Hj|(-> & Hne & Hj)]%HP1.
    + destruct (HP i j Hj) as (l0 & ? & ?). exists l0.
      split; [apply elem_of_app; by left|done].
    + exists l. split; [apply elem_of_app; right; by apply list_elem_of_singleton|].
      done.
  - intros i j [Hj|(-> & Hne & Hj)]%HN1.
    + destruct (HN i j Hj) as (l0 & ? & ?). exists l0.
      split; [apply elem_of_app; by left|done].
    + exists l. split; [apply elem_of_app; right; by apply list_elem_of_singleton|].
      done.
Qed.

Lemma for_each_link_layer_ok dict inp layers (P N P' N' : gmap Z (gset Z)) :
  (∀ i, prevs_of P i = ∅) → (∀ i, nexts_of N i = ∅) →
  for_each (link_layer network inp dict) layers (P, N) = Ok (P', N') →
  prev_sound network dict inp layers P' ∧ next_sound network dict layers N' ∧
  dom P' = dom P ∧ dom N' = dom N.
Proof.
  intros HP HN Hloop.
  set (R := λ (pre : list string) (s : gmap Z (gset Z) * gmap Z (gset Z)),
         prev_sound network dict inp pre s.1 ∧ next_sound network dict pre s.2 ∧
         dom s.1 = dom P ∧ dom s.2 = dom N).
  apply (λ H1 H2, for_each_inv _ R H1 layers [] (P, N) (P', N') H2 Hloop).
  - intros pre [P0 N0] l [P1 N1] (HP0 & HN0 & HdP & HdN) Hbody.
    destruct (link_layer_ok dict inp pre P0 N0 P1 N1 l HP0 HN0 Hbody)
      as (? & ? & ? & ?).
    unfold R. simpl in *. split; [done|]. split; [done|]. split; congruence.
  - unfold R. simpl. split; [|split; [|done]].
    + intros i j Hj. rewrite HP in Hj. by apply not_elem_of_empty in Hj.
    + intros i j Hj. rewrite HN in Hj. by apply not_elem_of_empty in Hj.
Qed.

(** ** The scheduling DAG *)

Lemma empty_sets_dom n i : i ∈ dom (empty_sets n) ↔ 0 ≤ i < Z.of_nat n.
Proof.
  unfold empty_sets. rewrite dom_list_to_map_L, elem_of_list_to_set, list_elem_of_fmap.
  setoid_rewrite list_elem_of_fmap. setoid_rewrite elem_of_seqZ. split.
  - intros (y & -> & k & -> & ?). simpl. lia.
  - intros Hi. exists (i, ∅). split; [done|]. exists i. split; [done|lia].
Qed.

Lemma empty_sets_lookup n i : prevs_of (empty_sets n) i = ∅.
Proof.
  unfold prevs_of, empty_sets.
  destruct (list_to_map _ !! i) as [X|] eqn:HX; [simpl|done].
  apply elem_of_list_to_map_2, list_elem_of_fmap in HX as (k & [= _ ->] & _). done.
Qed.

Lemma calc_sched_dag_inv d :
  _calc_sched_dag network = Ok d →
  ∃ vset dict P N,
    build_vertex_set network = Ok vset ∧
    _topological_order network vset = Ok (dag_vertex_list d) ∧
    index_layers (dag_vertex_list d) = Ok dict ∧
    for_each (link_layer network (-1) dict) (net_iter network)
      (empty_sets (length (dag_vertex_list d)), empty_sets (length (dag_vertex_list d)))
    = Ok (P, N) ∧
    dag_prev_dict d = P ∧
    dag_next_dict d = <[-1 := input_nexts (-1) P]> N ∧
    dag_input_vertex d = -1.
Proof.
  unfold _calc_sched_dag.
  destruct (build_vertex_set network) as [vset| |] eqn:H1; simpl; [|intros [=]..].
  destruct (_topological_order network vset) as [order| |] eqn:H2; simpl;
    [|intros [=]..].
  destruct (index_layers order) as [dict| |] eqn:H3; simpl; [|intros [=]..].
  destruct (for_each _ _ _) as [[P N]| |] eqn:Hloop; simpl; [|intros [=]..].
  intros [= <-]. simpl. by exists vset, dict, P, N.
Qed.

Section WellFormed.

Variable rank : string → nat.
Hypothesis network_wf : network_ok network rank.

(** The adjacency computed for a well formed network follows the order of
    the vertices. *)
Lemma calc_sched_dag_adjacency d :
  _calc_sched_dag network = Ok d →
  topological_adjacency (dag_prev_dict d) (dag_next_dict d)
    (Z.of_nat (length (dag_vertex_list d))).
Proof.
  intros (vset & dict & P & N & Hbuild & Horder & Hdict & Hlinks & HP & HN & _)
    %calc_sched_dag_inv.
  set (order := dag_vertex_list d) in *.
  pose proof (build_vertex_set_ok _ _ Hbuild) as Hvs.
  destruct (topological_order_ok _ _ _ network_wf Hvs _ Horder) as [Hperm Htopo].
  pose proof (index_layers_spec _ _ Hdict) as Hindex.
  destruct (for_each_link_layer_ok _ _ _ _ _ _ _
              (empty_sets_lookup _) (empty_sets_lookup _) Hlinks)
    as (Hprev & Hnext & HdomP & HdomN).
  assert (Hnd : NoDup order).
  { rewrite Hperm. by eapply vertex_set_nodup. }
  assert (Hlayer : ∀ (a : nat) (u : vertex) l,
            order !! a = Some u → l ∈ u → l ∈ net_iter network).
  { intros a u l Ha Hl. apply (vertex_layer _ _ Hvs u); [|done].
    rewrite <- Hperm. by eapply list_elem_of_lookup_2. }
  assert (Hedge : ∀ (a b : nat) (u v : vertex) l s,
            order !! a = Some u → order !! b = Some v → a ≠ b →
            l ∈ u → s ∈ v → Some s ∈ next_layers network l → (a < b)%nat).
  { intros a b u v l s Ha Hb Hne Hl Hs Hn. apply (Htopo a b u v Ha Hb).
    split; [|by exists l, s]. intros ->. apply Hne. by eapply NoDup_lookup. }
  rewrite HP, HN. split; [|split].
  - intros i Hi. split.
    + apply elem_of_dom. rewrite HdomP. by apply empty_sets_dom.
    + rewrite lookup_insert_ne by lia. apply elem_of_dom. rewrite HdomN.
      by apply empty_sets_dom.
  - intros i j Hj. destruct (Hprev i j Hj) as (l & Hl & Hli & Hne & Hsrc).
    apply Hindex in Hli as (a & u & Ha & Hlu & ->).
    destruct Hsrc as [->|(s & Hs & Hsj)]; [lia|].
    apply Hindex in Hsj as (b & v & Hb & Hsv & ->).
    assert (b < a)%nat; [|lia].
    apply (Hedge b a v u s l); [done|done|lia|done|done|].
    by apply (proj1 (net_prev_next _ _ network_wf s l
                       (Hlayer b v s Hb Hsv) (Hlayer a u l Ha Hlu))).
  - intros i j Hj. unfold nexts_of in Hj.
    destruct (decide (i = -1)) as [->|Hi].
    + rewrite lookup_insert_eq in Hj. simpl in Hj. unfold input_nexts in Hj.
      apply elem_of_dom in Hj as [X HX]. apply map_lookup_filter_Some in HX as [HX _].
      apply elem_of_dom_2 in HX. rewrite HdomP in HX. apply empty_sets_dom in HX. lia.
    + rewrite lookup_insert_ne in Hj by done.
      destruct (Hnext i j Hj) as (l & Hl & Hli & Hne & s & Hs & Hsj).
      apply Hindex in Hli as (a & u & Ha & Hlu & ->).
      apply Hindex in Hsj as (b & v & Hb & Hsv & ->).
      assert (a < b)%nat; [|lia].
      apply (Hedge a b u v l s); [done|done|lia|done..].
Qed.

End WellFormed.

End AdjacencyFacts.

(** * Properties of the segment generator *)

(** ** Indexing the vertex list *)

Lemma list_getitem_Ok {A : Type} (l : list A) (i : Z) x :
  0 ≤ i → list_getitem l i = Ok x ↔ l !! Z.to_nat i = Some x.
Proof.
  intros Hi. unfold list_getitem. cbv zeta.
  rewrite (bool_decide_false (i < 0)) by lia.
  case_bool_decide as Hr.
  - destruct (l !! Z.to_nat i); split; congruence.
  - split; [done|]. intros Hx%lookup_lt_Some. lia.
Qed.

Lemma mapM_cons {A B : Type} (f : A → result B) x l :
  mapM f (x :: l) = y ← f x; k ← mapM f l; Ok (y :: k).
Proof. done. Qed.

(** The vertices of a run are consecutive vertices of the list. *)
Lemma mapM_getitem_run {A : Type} (l : list A) : ∀ (n : nat) (v : Z) vs,
  0 ≤ v →
  mapM (list_getitem l) (seqZ v (Z.of_nat (S n))) = Ok vs →
  vs = take (S n) (drop (Z.to_nat v) l) ∧ v + Z.of_nat n < Z.of_nat (length l).
Proof.
  induction n as [|n IH]; intros v vs Hv; rewrite seqZ_cons by lia; rewrite mapM_cons;
    (destruct (list_getitem l v) as [x| |] eqn:Hx; simpl; [|done..]);
    apply list_getitem_Ok in Hx; try done;
    pose proof (lookup_lt_Some _ _ _ Hx) as Hlt;
    rewrite (drop_S _ _ _ Hx).
  - simpl. rewrite take_0. intros [= <-]. split; [done|lia].
  - replace (Z.pred (Z.of_nat (S (S n)))) with (Z.of_nat (S n)) by lia.
    destruct (mapM _ _) as [k| |] eqn:Hk; simpl; [|done..]. intros [= <-].
    apply IH in Hk as [-> Hk]; [|lia].
    replace (Z.to_nat (Z.succ v)) with (S (Z.to_nat v)) by lia.
    split; [done|lia].
Qed.

Lemma mapM_getitem_run_Ok {A : Type} (l : list A) : ∀ (n : nat) (v : Z),
  0 ≤ v → v + Z.of_nat n < Z.of_nat (length l) →
  mapM (list_getitem l) (seqZ v (Z.of_nat (S n)))
  = Ok (take (S n) (drop (Z.to_nat v) l)).
Proof.
  induction n as [|n IH]; intros v Hv Hn; rewrite seqZ_cons by lia; rewrite mapM_cons;
    (destruct (lookup_lt_is_Some_2 l (Z.to_nat v)) as [x Hx]; [lia|]);
    rewrite (proj2 (list_getitem_Ok l v x Hv) Hx); simpl;
    rewrite (drop_S _ _ _ Hx).
  - simpl. by rewrite take_0.
  - replace (Z.pred (Z.of_nat (S (S n)))) with (Z.of_nat (S n)) by lia.
    rewrite IH by lia. simpl.
    by replace (Z.to_nat (Z.succ v)) with (S (Z.to_nat v)) by lia.
Qed.

Section OrchestratorFacts.

Variable validator : segment → Network → Z → Resource → number → bool.
Variable self : InterLayerPipeline.

#[local] Abbreviation new_PipelineSegment := (new_PipelineSegment validator self).
#[local] Abbreviation gen_layer_segments := (gen_layer_segments validator self).
#[local] Abbreviation seg_cands_of := (seg_cands_of self).
#[local] Abbreviation yield_valid := (yield_valid validator self).
#[local] Abbreviation gen_pipelined := (gen_pipelined validator self).
#[local] Abbreviation gen_segment := (gen_segment validator self).
#[local] Abbreviation accepts := (accepts validator self).
#[local] Abbreviation layer_segments := (layer_segments validator self).

(** ** The segments of the layers *)

Lemma gen_layer_segments_accepted layers :
  (∀ l, l ∈ layers → accepts [[l]]) →
  gen_layer_segments layers = (layer_segments layers, Ok ()).
Proof.
  induction layers as [|l layers IH]; intros Hacc; simpl; [done|].
  rewrite (Hacc l) by (apply elem_of_cons; by left).
  rewrite IH by (intros; apply Hacc, elem_of_cons; by right). done.
Qed.

Lemma gen_layer_segments_rejected pre l post :
  (∀ l', l' ∈ pre → accepts [[l']]) → ¬ accepts [[l]] →
  gen_layer_segments (pre ++ l :: post)
  = (layer_segments pre, Raise (AssertionError 76)).
Proof.
  intros Hpre Hl. induction pre as [|x pre IH]; simpl.
  - unfold BuildSpec.accepts in Hl. by destruct (validator _ _ _ _ _).
  - rewrite (Hpre x) by (apply elem_of_cons; by left).
    rewrite IH by (intros; apply Hpre, elem_of_cons; by right). done.
Qed.

Lemma gen_layer_segments_valid layers sgm :
  sgm ∈ (gen_layer_segments layers).1 → valid sgm = true ∧ ∃ l, l ∈ layers ∧ seg sgm = [[l]].
Proof.
  induction layers as [|l layers IH]; simpl; [by intros ?%elem_of_nil|].
  destruct (validator [[l]] _ _ _ _) eqn:Hl; simpl; [|by intros ?%elem_of_nil].
  intros [->|Hin]%elem_of_cons.
  - split; [done|]. exists l. split; [apply elem_of_cons; by left|done].
  - destruct (IH Hin) as [? (l' & ? & ?)]. split; [done|]. exists l'.
    split; [apply elem_of_cons; by right|done].
Qed.

(** ** The segments of the vsegs *)

Lemma yield_valid_spec seg_cands sgm :
  sgm ∈ yield_valid seg_cands ↔
  valid sgm = true ∧ ∃ sg, sg ∈ seg_cands ∧ sgm = new_PipelineSegment sg.
Proof.
  unfold Defs.yield_valid. rewrite list_elem_of_filter, list_elem_of_fmap. naive_solver.
Qed.

Lemma gen_pipelined_Ok options vsegs vseg_end :
  (∀ vseg, vseg ∈ vsegs → ∃ c, seg_cands_of options vseg = Ok c) →
  gen_pipelined options vsegs vseg_end
  = (vsegs ≫= (λ vseg, match seg_cands_of options vseg with
                       | Ok c => yield_valid c
                       | _ => []
                       end),
     vseg_end).
Proof.
  induction vsegs as [|vseg vsegs IH]; intros Hok; simpl; [done|].
  destruct (Hok vseg) as [c Hc]; [apply elem_of_cons; by left|].
  rewrite Hc, IH by (intros; apply Hok, elem_of_cons; by right). done.
Qed.

Lemma gen_pipelined_elem options vsegs vseg_end sgm :
  sgm ∈ (gen_pipelined options vsegs vseg_end).1 →
  valid sgm = true ∧
  ∃ vseg c sg, vseg ∈ vsegs ∧ seg_cands_of options vseg = Ok c ∧ sg ∈ c ∧
               sgm = new_PipelineSegment sg.
Proof.
  induction vsegs as [|vseg vsegs IH]; simpl; [by intros ?%elem_of_nil|].
  destruct (seg_cands_of options vseg) as [c| |] eqn:Hc; simpl;
    [|by intros ?%elem_of_nil..].
  intros [Hin|Hin]%elem_of_app.
  - apply yield_valid_spec in Hin as [? (sg & ? & ->)]. split; [done|].
    exists vseg, c, sg. split; [apply elem_of_cons; by left|done].
  - destruct (IH Hin) as [? (vseg' & c' & sg & ? & ?)]. split; [done|].
    exists vseg', c', sg. split; [apply elem_of_cons; by right|done].
Qed.

Lemma seg_cands_of_disabled vseg :
  seg_cands_of {| partition_interlayer := false; hw_gbuf_save_writeback := false |} vseg
  = Ok [].
Proof. done. Qed.

Lemma cands_add_elem (seg_cands : list segment) sg x :
  x ∈ cands_add seg_cands sg ↔ x ∈ seg_cands ∨ x = sg.
Proof.
  unfold cands_add. case_bool_decide.
  - split; [by left|]. by intros [?| ->].
  - rewrite elem_of_app, list_elem_of_singleton. done.
Qed.

Lemma cands_add_NoDup (seg_cands : list segment) sg :
  NoDup seg_cands → NoDup (cands_add seg_cands sg).
Proof.
  intros Hnd. unfold cands_add. case_bool_decide; [done|].
  apply NoDup_app. split; [done|]. split; [|apply NoDup_singleton].
  by intros x Hx ->%list_elem_of_singleton.
Qed.

(** The candidates of a vseg: the tuple of its vertices, and the tuple
    made of the concatenation of its vertices. *)
Lemma seg_cands_of_spec options vseg c :
  seg_cands_of options vseg = Ok c →
  NoDup c ∧
  ∀ sg, sg ∈ c →
    ∃ vs, mapM (list_getitem (dag_vertex_list (dag self))) vseg = Ok vs ∧
          (sg = vs ∨ sg = [concat vs]).
Proof.
  unfold Defs.seg_cands_of.
  destruct (mapM _ vseg) as [vs| |] eqn:Hvs;
    destruct (partition_interlayer options), (hw_gbuf_save_writeback options);
    simpl; intros [= <-];
    (split; [repeat apply cands_add_NoDup; constructor|]);
    intros sg Hsg; repeat (apply cands_add_elem in Hsg as [Hsg| ->]);
    try (by apply elem_of_nil in Hsg); eauto.
Qed.

Lemma gen_pipelined_disabled options vsegs vseg_end :
  partition_interlayer options = false → hw_gbuf_save_writeback options = false →
  gen_pipelined options vsegs vseg_end = ([], vseg_end).
Proof.
  destruct options as [pi hw]. simpl. intros -> ->.
  induction vsegs as [|vseg vsegs IH]; simpl; [done|]. by rewrite IH.
Qed.

Lemma seg_cands_of_run_Ok options (s : Z) (k : nat) :
  0 ≤ s → s + Z.of_nat k < Z.of_nat (length (dag_vertex_list (dag self))) →
  ∃ c, seg_cands_of options (run s k) = Ok c.
Proof.
  intros Hs Hk. unfold Defs.seg_cands_of, run.
  rewrite mapM_getitem_run_Ok by done.
  destruct (partition_interlayer options), (hw_gbuf_save_writeback options);
    simpl; eauto.
Qed.

(** The candidates of a run of vertices of the list. *)
Lemma seg_cands_of_run options (s : Z) (k : nat) c sg :
  0 ≤ s → seg_cands_of options (run s k) = Ok c → sg ∈ c →
  (Z.to_nat s + k < length (dag_vertex_list (dag self)))%nat ∧
  (sg = vertices_of_run (dag_vertex_list (dag self)) (Z.to_nat s) k ∨
   sg = [concat (vertices_of_run (dag_vertex_list (dag self)) (Z.to_nat s) k)]).
Proof.
  intros Hs Hc Hsg. apply seg_cands_of_spec in Hc as [_ Hc].
  destruct (Hc sg Hsg) as (vs & Hvs & Hsgvs).
  apply mapM_getitem_run in Hvs as [-> Hlen]; [|done]. split; [lia|done].
Qed.

(** The segments of the layers are those of a prefix of the layers. *)
Lemma gen_layer_segments_prefix layers :
  ∃ n, (gen_layer_segments layers).1 = layer_segments (take n layers).
Proof.
  induction layers as [|l layers [n IH]]; simpl; [by exists 0%nat|].
  destruct (validator [[l]] _ _ _ _); simpl; [|by exists 0%nat].
  exists (S n). simpl. by rewrite IH.
Qed.

Lemma layer_segments_segs layers :
  seg <$> layer_segments layers = (λ l, [[l]]) <$> layers.
Proof. unfold BuildSpec.layer_segments. by rewrite <- list_fmap_compose. Qed.

(** ** Distinct candidates *)


Lemma NoDup_take {A : Type} (n : nat) (l : list A) : NoDup l → NoDup (take n l).
Proof.
  intros Hnd. rewrite <- (take_drop n l) in Hnd. by apply NoDup_app in Hnd as [? _].
Qed.



End OrchestratorFacts.

(** ** Segments of consecutive vertices *)

Section Materialize.

Variable order : list vertex.
Hypothesis order_nodup : NoDup (concat order).
Hypothesis order_nonempty : Forall (λ v, v ≠ []) order.

#[local] Abbreviation vertices_of_run := (vertices_of_run order).


Lemma vertices_of_run_length v k :
  (v + k < length order)%nat → length (vertices_of_run v k) = S k.
Proof. intros H. unfold BuildSpec.vertices_of_run. rewrite length_take, length_drop. lia. Qed.


Lemma vertices_of_run_nonempty v k : Forall (λ u, u ≠ []) (vertices_of_run v k).
Proof.
  unfold BuildSpec.vertices_of_run. apply Forall_take, Forall_drop, order_nonempty.
Qed.








End Materialize.

Section PipelinedFacts.

Variable validator : segment → Network → Z → Resource → number → bool.
Variable self : InterLayerPipeline.


End PipelinedFacts.

(** * Properties of the constructor *)

(** ** The exceptions of the DAG build *)

Lemma for_each_raise {A S : Type} (body : S → A → result S) (P : exn → Prop) :
  (∀ s x e, body s x = Raise e → P e) →
  ∀ l s e, for_each body l s = Raise e → P e.
Proof.
  intros Hbody l. induction l as [|x l IH]; intros s e; simpl; [done|].
  destruct (body s x) as [s'| |] eqn:Hx; simpl; [apply IH| |done].
  intros [= <-]. by eapply Hbody.
Qed.

Lemma find_merge_raise network dag prevs idxs e :
  find_merge network dag prevs idxs = Raise e → ¬ configuration_error e.
Proof.
  induction idxs as [|i idxs IH]; simpl; [done|].
  destruct (dag !! i) as [v|]; [|intros [= <-] [?|?]; done].
  unfold can_merge. destruct (last v); simpl; [|intros [= <-] [?|?]; done].
  by destruct (_ && _).
Qed.

Lemma add_layer_raise network dag l e :
  add_layer network dag l = Raise e → ¬ configuration_error e.
Proof.
  unfold add_layer. destruct (isinstance_ConvLayer _); [done|].
  case_bool_decide; [intros [= <-] [?|?]; done|].
  destruct (find_merge _ _ _ _) as [[idx|]| |] eqn:Hf; simpl; [| |..].
  - destruct (dag !! idx); [done|intros [= <-] [?|?]; done].
  - done.
  - intros [= <-]. by eapply find_merge_raise.
  - done.
Qed.

Lemma build_vertex_set_raise network e :
  build_vertex_set network = Raise e → ¬ configuration_error e.
Proof.
  unfold build_vertex_set.
  destruct (for_each _ _ _) as [d| |] eqn:Hloop; simpl; [|intros [= <-]|done].
  - case_bool_decide; [done|intros [= <-] [?|?]; done].
  - eapply (for_each_raise _ (λ e, ¬ configuration_error e)); [|exact Hloop].
    intros s x e'. apply add_layer_raise.
Qed.

Lemma dfs_raise network fuel : ∀ v st e,
  _dfs network fuel v st = Raise e → ¬ configuration_error e.
Proof.
  induction fuel as [|fuel IH]; intros v st e; simpl; [done|].
  case_bool_decide; [|intros [= <-] [?|?]; done].
  destruct (for_each _ _ _) as [st'| |] eqn:Hloop; simpl; [|intros [= <-]|done].
  - case_bool_decide; [done|intros [= <-] [?|?]; done].
  - eapply (for_each_raise _ (λ e, ¬ configuration_error e)); [|exact Hloop].
    intros s x e'. apply IH.
Qed.

Lemma topological_order_raise network vset e :
  _topological_order network vset = Raise e → ¬ configuration_error e.
Proof.
  unfold _topological_order.
  destruct (for_each _ _ _) as [st'| |] eqn:Hloop; simpl; [|intros [= <-]|done].
  - repeat case_bool_decide; try done; intros [= <-] [?|?]; done.
  - eapply (for_each_raise _ (λ e, ¬ configuration_error e)); [|exact Hloop].
    intros s x e'. apply dfs_raise.
Qed.

Lemma index_layers_raise order e :
  index_layers order = Raise e → ¬ configuration_error e.
Proof.
  unfold index_layers. apply (for_each_raise _ (λ e, ¬ configuration_error e)).
  intros s [vidx v] e'. apply (for_each_raise _ (λ e, ¬ configuration_error e)).
  intros d l e''. case_bool_decide; [intros [= <-] [?|?]; done|done].
Qed.

Lemma getitem_raise {K V : Type} `{Countable K} (d : gmap K V) k e :
  getitem d k = Raise e → ¬ configuration_error e.
Proof. unfold getitem. destruct (d !! k); [done|intros [= <-] [?|?]; done]. Qed.

Lemma set_add_raise d vidx x e :
  set_add d vidx x = Raise e → ¬ configuration_error e.
Proof.
  unfold set_add. destruct (getitem d vidx) eqn:Hg; simpl; [done| |done].
  intros [= <-]. by eapply getitem_raise.
Qed.

Lemma link_layer_raise network inp dict dicts l e :
  link_layer network inp dict dicts l = Raise e → ¬ configuration_error e.
Proof.
  unfold link_layer.
  destruct (getitem dict l) as [vidx| |] eqn:Hl; simpl;
    [|intros [= <-]; by eapply getitem_raise|done].
  destruct (for_each _ (prev_layers network l) _) as [P| |] eqn:HP; simpl;
    [|intros [= <-]|done].
  - destruct (for_each _ (next_layers network l) _) as [N| |] eqn:HN; simpl;
      [done|intros [= <-]|done].
    eapply (for_each_raise _ (λ e, ¬ configuration_error e)); [|exact HN].
    intros d [s|] e'; [|done]. destruct (truthy _); [|done].
    destruct (getitem dict s) eqn:Hs; simpl;
      [|intros [= <-]; by eapply getitem_raise|done].
    case_bool_decide; [apply set_add_raise|done].
  - eapply (for_each_raise _ (λ e, ¬ configuration_error e)); [|exact HP].
    intros d pl e'.
    assert (Hadd : ∀ pvidx,
      (if bool_decide (pvidx ≠ vidx) then set_add d vidx pvidx else Ok d) = Raise e' →
      ¬ configuration_error e').
    { intros pvidx. case_bool_decide; [apply set_add_raise|done]. }
    destruct pl as [s|]; [destruct (truthy _)|]; simpl; [|apply Hadd..].
    destruct (getitem dict s) eqn:Hs; simpl;
      [apply Hadd|intros [= <-]; by eapply getitem_raise|done].
Qed.

Lemma calc_sched_dag_raise network e :
  _calc_sched_dag network = Raise e → ¬ configuration_error e.
Proof.
  unfold _calc_sched_dag.
  destruct (build_vertex_set network) as [vset| |] eqn:H1; simpl;
    [|intros [= <-]; by eapply build_vertex_set_raise|done].
  destruct (_topological_order network vset) as [order| |] eqn:H2; simpl;
    [|intros [= <-]; by eapply topological_order_raise|done].
  destruct (index_layers order) as [dict| |] eqn:H3; simpl;
    [|intros [= <-]; by eapply index_layers_raise|done].
  destruct (for_each _ _ _) as [[P N]| |] eqn:H4; simpl; [done| |done].
  intros [= <-]. eapply (for_each_raise _ (λ e, ¬ configuration_error e)); [|exact H4].
  intros s x e'. apply link_layer_raise.
Qed.

(** ** The check of [max_util_drop] *)

Lemma in_unit_interval_check x :
  number_le (Num 0) x && number_le x (Num 1) = true ↔ in_unit_interval x.
Proof.
  destruct x as [q|[]|]; simpl; try (split; [done|by intros []]).
  rewrite andb_true_iff, !Qle_bool_iff. done.
Qed.

(** ** Constructed pipelines *)

Lemma init_Ok network batch resource mud self :
  __init__ network batch resource mud = Ok self →
  ∃ net res, network = PyNetwork net ∧ resource = PyResource res ∧
    in_unit_interval mud ∧ _calc_sched_dag net = Ok (dag self) ∧
    Defs.network self = net ∧ seg_vertex_done self = ∅.
Proof.
  unfold __init__. destruct network as [net| |]; [|done..].
  destruct resource as [|res|]; [done| |done].
  destruct (number_le _ _ && number_le _ _) eqn:Hr; simpl; [|done].
  destruct (_calc_sched_dag net) as [d| |] eqn:Hd; simpl; [|done..].
  intros [= <-]. exists net, res. simpl. by apply in_unit_interval_check in Hr.
Qed.

Lemma init_pipeline_of net batch res mud d :
  in_unit_interval mud → _calc_sched_dag net = Ok d →
  __init__ (PyNetwork net) batch (PyResource res) mud
  = Ok (pipeline_of net batch res mud d).
Proof.
  intros Hr%in_unit_interval_check Hd. unfold __init__. by rewrite Hr, Hd.
Qed.

(** The example pipelines are what the constructor returns. *)
Lemma fan_pipeline_constructed :
  __init__ (PyNetwork fan_network) 1 (PyResource example_resource)
    max_util_drop_default = Ok fan_pipeline.
Proof. apply init_pipeline_of; [done|]. vm_compute. reflexivity. Qed.

Lemma chain_pipeline_constructed :
  __init__ (PyNetwork chain_network) 1 (PyResource example_resource)
    max_util_drop_default = Ok chain_pipeline.
Proof. apply init_pipeline_of; [done|]. vm_compute. reflexivity. Qed.

Lemma single_pipeline_constructed :
  __init__ (PyNetwork single_network) 1 (PyResource example_resource)
    max_util_drop_default = Ok single_pipeline.
Proof. apply init_pipeline_of; [done|]. vm_compute. reflexivity. Qed.

Lemma network_okb_sound network rank :
  network_okb network rank = true → network_ok network rank.
Proof.
  unfold network_okb. rewrite !andb_true_iff, bool_decide_eq_true.
  intros [[Hnd Hnames] Hpairs].
  rewrite forallb_forall in Hnames. rewrite forallb_forall in Hpairs.
  assert (Hpair : ∀ a b, a ∈ net_iter network → b ∈ net_iter network →
            (Some a ∈ prev_layers network b ↔ Some b ∈ next_layers network a) ∧
            (Some a ∈ prev_layers network b → (rank a < rank b)%nat)).
  { intros a b Ha%list_elem_of_In Hb%list_elem_of_In.
    specialize (Hpairs a Ha). rewrite forallb_forall in Hpairs.
    specialize (Hpairs b Hb). apply andb_true_iff in Hpairs as [Heq Hrank].
    apply eqb_prop in Heq. split.
    - rewrite <- (bool_decide_eq_true (Some a ∈ _)),
              <- (bool_decide_eq_true (Some b ∈ _)). by rewrite Heq.
    - intros Hp. apply orb_true_iff in Hrank as [Hn|Hr].
      + apply negb_true_iff, bool_decide_eq_false in Hn. done.
      + by apply bool_decide_eq_true in Hr. }
  split; [done| | |].
  - intros l Hl%list_elem_of_In. specialize (Hnames l Hl).
    apply negb_true_iff in Hnames. by apply String.eqb_neq.
  - intros a b Ha Hb. by apply Hpair.
  - intros a b Ha Hb. by apply Hpair.
Qed.

Lemma fan_network_ok : network_ok fan_network (declaration_rank fan_network).
Proof. apply network_okb_sound. vm_compute. reflexivity. Qed.

Lemma chain_network_ok : network_ok chain_network (declaration_rank chain_network).
Proof. apply network_okb_sound. vm_compute. reflexivity. Qed.

Lemma single_network_ok : network_ok single_network (declaration_rank single_network).
Proof. apply network_okb_sound. vm_compute. reflexivity. Qed.

Section Constructed.

Variable net : Network.
Variable rank : string → nat.
Hypothesis network_wf : network_ok net rank.

Variable self : InterLayerPipeline.
Variables (batch : Z) (res : Resource) (mud : number).
Hypothesis constructed : __init__ (PyNetwork net) batch (PyResource res) mud = Ok self.

Lemma constructed_dag : _calc_sched_dag net = Ok (dag self).
Proof.
  destruct (init_Ok _ _ _ _ _ constructed) as (n & r & [= <-] & _ & _ & H & _). done.
Qed.

Lemma constructed_network : network self = net.
Proof.
  destruct (init_Ok _ _ _ _ _ constructed) as (n & r & [= <-] & _ & _ & _ & H & _). done.
Qed.

Lemma constructed_adjacency :
  topological_adjacency (dag_prev_dict (dag self)) (dag_next_dict (dag self))
    (Z.of_nat (length (dag_vertex_list (dag self)))).
Proof. eapply calc_sched_dag_adjacency; [exact network_wf|exact constructed_dag]. Qed.

Lemma constructed_sorted :
  ∃ vset, vertex_set_ok net (net_iter net) vset ∧
          _topological_order net vset = Ok (dag_vertex_list (dag self)).
Proof.
  destruct (calc_sched_dag_inv _ _ constructed_dag) as (vset & _ & _ & _ & Hb & Ho & _).
  exists vset. split; [by apply build_vertex_set_ok|done].
Qed.

Lemma constructed_layers : concat (dag_vertex_list (dag self)) ≡ₚ net_iter net.
Proof.
  destruct constructed_sorted as (vset & Hvs & Ho).
  by destruct (ordered_layers_ok _ _ _ network_wf Hvs _ Ho).
Qed.

Lemma constructed_nodup : NoDup (concat (dag_vertex_list (dag self))).
Proof. rewrite constructed_layers. apply (net_nodup _ _ network_wf). Qed.

Lemma constructed_nonempty : Forall (λ v, v ≠ []) (dag_vertex_list (dag self)).
Proof.
  destruct constructed_sorted as (vset & Hvs & Ho).
  destruct (topological_order_ok _ _ _ network_wf Hvs _ Ho) as [Hperm _].
  rewrite Hperm. apply (vs_nonempty _ _ _ Hvs).
Qed.

End Constructed.

(** * Termination: the fuel of the constructor is enough *)

(** A loop whose body keeps an invariant and needs no more fuel under it
    needs no more fuel either. *)
Lemma for_each_fuel {A S : Type} (body : S → A → result S) (P : S → Prop) :
  ∀ l s,
    (∀ s x, P s → x ∈ l →
       body s x ≠ OutOfFuel ∧ ∀ s', body s x = Ok s' → P s') →
    P s →
    for_each body l s ≠ OutOfFuel ∧ ∀ s', for_each body l s = Ok s' → P s'.
Proof.
  induction l as [|x l IH]; intros s Hbody HP; simpl.
  - split; [done|]. by intros s' [= <-].
  - destruct (Hbody s x HP) as [Hfuel Hok]; [apply elem_of_cons; by left|].
    destruct (body s x) as [s1| |]; simpl; [|done..].
    apply IH; [|by apply Hok].
    intros s2 y HP2 Hy. apply Hbody; [done|apply elem_of_cons; by right].
Qed.

Lemma for_each_total {A S : Type} (body : S → A → result S) :
  (∀ s x, body s x ≠ OutOfFuel) → ∀ l s, for_each body l s ≠ OutOfFuel.
Proof.
  intros Hbody l s.
  apply (for_each_fuel body (λ _, True)); [|done]. intros. by split.
Qed.

Lemma size_list_to_set_le {A : Type} `{Countable A} (l : list A) :
  (size (list_to_set l : gset A) ≤ length l)%nat.
Proof.
  induction l as [|x l IH]; [by rewrite list_to_set_nil, size_empty|].
  rewrite list_to_set_cons, size_union_alt, size_singleton. simpl.
  pose proof (subseteq_size (list_to_set l ∖ {[x]}) (list_to_set l : gset A)) as Hle.
  assert (size (list_to_set l ∖ {[x]} : gset A) ≤ size (list_to_set l : gset A))%nat
    by (apply Hle; set_solver).
  lia.
Qed.

Section SorterFuel.

Variable network : Network.
Variable dag_vertex_set : list vertex.

#[local] Abbreviation dfs_cover := (dfs_cover dag_vertex_set).

(** A visit that passes its assertion takes its vertex out of the unseen
    ones, so the visits in progress are never more than the unseen
    vertices the first of them found. *)
Lemma dfs_fuel fuel : ∀ v st,
  dfs_cover st → v ∈ dag_vertex_set → (size (unseen st) < fuel)%nat →
  _dfs network fuel v st ≠ OutOfFuel ∧
  ∀ st', _dfs network fuel v st = Ok st' → dfs_cover st' ∧ unseen st' ⊆ unseen st.
Proof.
  induction fuel as [|fuel IH]; intros v st [Hcover Hunseen] Hv Hsize; [lia|].
  simpl. case_bool_decide as Hassert; [|done]. destruct Hassert as [Hnseen Hnvisited].
  assert (Hvu : v ∈ unseen st) by (destruct (Hcover v Hv) as [?|[?|?]]; done).
  set (st1 := {| visited := visited st; unseen := unseen st ∖ {[v]};
                 seen := seen st ∪ {[v]} |}).
  assert (Hsize1 : (size (unseen st1) < size (unseen st))%nat).
  { apply subset_size. simpl. set_solver. }
  destruct (for_each_fuel (λ s nv, _dfs network fuel nv s)
              (λ s, dfs_cover s ∧ unseen s ⊆ unseen st1)
              (vertices_of (reverse (dfs_next_layers network v)) (unseen st1)) st1)
    as [Hfuel Hok].
  - intros s x [Hs Hsub] Hx.
    assert (Hxv : x ∈ dag_vertex_set).
    { unfold vertices_of in Hx. apply list_elem_of_bind in Hx as (l & Hx & _).
      apply list_elem_of_filter in Hx as [_ Hx]. apply elem_of_elements in Hx.
      apply Hunseen. simpl in Hx. set_solver. }
    destruct (IH x s Hs Hxv) as [Hf Hk].
    { pose proof (subseteq_size _ _ Hsub). lia. }
    split; [done|]. intros s' Hs'. destruct (Hk s' Hs') as [? ?].
    split; [done|set_solver].
  - split; [|done]. split; simpl.
    + intros x Hx. destruct (decide (x = v)) as [->|]; [set_solver|].
      destruct (Hcover x Hx) as [?|[?|?]]; set_solver.
    + intros x Hx. apply Hunseen. set_solver.
  - destruct (for_each _ _ st1) as [st2| |]; simpl; [|done..].
    destruct (Hok st2 eq_refl) as [[Hcover2 Hunseen2] Hsub2].
    case_bool_decide; [|done]. split; [done|]. intros st' [= <-]. simpl.
    split; [|set_solver]. split; simpl; [|done].
    intros x Hx. rewrite elem_of_app, list_elem_of_singleton, elem_of_difference,
      elem_of_singleton.
    destruct (decide (x = v)) as [->|]; [by right; right; right|].
    destruct (Hcover2 x Hx) as [?|[?|?]]; auto.
Qed.

(** The sorter never runs out of fuel. *)
Lemma topological_order_fuel :
  _topological_order network dag_vertex_set ≠ OutOfFuel.
Proof.
  unfold _topological_order.
  set (st0 := {| visited := []; unseen := list_to_set dag_vertex_set; seen := ∅ |}).
  destruct (for_each_fuel (λ s v, _dfs network (S (length dag_vertex_set)) v s)
              (λ s, dfs_cover s ∧ unseen s ⊆ unseen st0)
              (vertices_of (reverse (first_layers network)) (unseen st0)) st0)
    as [Hfuel _].
  - intros s x [Hs Hsub] Hx.
    assert (Hxv : x ∈ dag_vertex_set).
    { unfold vertices_of in Hx. apply list_elem_of_bind in Hx as (l & Hx & _).
      apply list_elem_of_filter in Hx as [_ Hx]. apply elem_of_elements in Hx.
      simpl in Hx. by apply elem_of_list_to_set in Hx. }
    destruct (dfs_fuel (S (length dag_vertex_set)) x s Hs Hxv) as [Hf Hk].
    { pose proof (subseteq_size _ _ Hsub).
      pose proof (size_list_to_set_le dag_vertex_set). simpl in *. lia. }
    split; [done|]. intros s' Hs'. destruct (Hk s' Hs') as [? ?].
    split; [done|set_solver].
  - split; [|done]. split; simpl; intros x; rewrite elem_of_list_to_set; auto.
  - destruct (for_each _ _ st0) as [st| |]; simpl; [|done..].
    by repeat case_bool_decide.
Qed.

End SorterFuel.

(** The DAG build, and with it the constructor, never runs out of fuel:
    the constructor returns an object or raises an exception. *)
Lemma calc_sched_dag_fuel network : _calc_sched_dag network ≠ OutOfFuel.
Proof.
  unfold _calc_sched_dag.
  assert (Hfind : ∀ dag prevs idxs, find_merge network dag prevs idxs ≠ OutOfFuel).
  { intros dag prevs idxs. induction idxs as [|i idxs IH]; simpl; [done|].
    destruct (dag !! i) as [v|]; [|done].
    unfold can_merge. destruct (last v); simpl; [|done]. by destruct (_ && _). }
  assert (Hbuild : build_vertex_set network ≠ OutOfFuel).
  { unfold build_vertex_set.
    pose proof (for_each_total (add_layer network)) as Hloop.
    destruct (for_each _ _ _) as [d| |] eqn:Hd; simpl; [by case_bool_decide|done|].
    exfalso. eapply Hloop; [|exact Hd]. intros s x. unfold add_layer.
    destruct (isinstance_ConvLayer _); [done|]. case_bool_decide; [done|].
    pose proof (Hfind s (list_to_set (prev_layers network x))
                  (reverse (seq 0 (length s)))) as Hf.
    destruct (find_merge _ _ _ _) as [[idx|]| |]; simpl; [|done..].
    by destruct (s !! idx). }
  destruct (build_vertex_set network) as [vset| |]; simpl; [|done..].
  pose proof (topological_order_fuel network vset) as Hsort.
  destruct (_topological_order network vset) as [order| |]; simpl; [|done..].
  assert (Hindex : index_layers order ≠ OutOfFuel).
  { unfold index_layers. apply for_each_total. intros s [vidx v].
    apply for_each_total. intros d l. by case_bool_decide. }
  destruct (index_layers order) as [dict| |]; simpl; [|done..].
  assert (Hget : ∀ (d : gmap string Z) k, getitem d k ≠ OutOfFuel).
  { intros d k. unfold getitem. by destruct (d !! k). }
  assert (Hadd : ∀ d vidx x, set_add d vidx x ≠ OutOfFuel).
  { intros d vidx x. unfold set_add, getitem. by destruct (d !! vidx). }
  assert (Hlink : ∀ s x, link_layer network (-1) dict s x ≠ OutOfFuel).
  { intros s x. unfold link_layer.
    pose proof (Hget dict x). destruct (getitem dict x) as [vidx| |]; simpl; [|done..].
    assert (HP : ∀ l d, for_each (λ d pl,
        pvidx ← (match pl with
                 | Some s => if truthy pl then getitem dict s else Ok (-1)
                 | None => Ok (-1)
                 end);
        if bool_decide (pvidx ≠ vidx) then set_add d vidx pvidx else Ok d) l d
        ≠ OutOfFuel).
    { apply for_each_total. intros d pl.
      assert (Hif : ∀ pvidx, (if bool_decide (pvidx ≠ vidx) then set_add d vidx pvidx
                              else Ok d) ≠ OutOfFuel)
        by (intros; case_bool_decide; [apply Hadd|done]).
      destruct pl as [l|]; [destruct (truthy _)|]; simpl; [|apply Hif..].
      pose proof (Hget dict l). destruct (getitem dict l); simpl; [apply Hif|done..]. }
    specialize (HP (prev_layers network x) s.1).
    destruct (for_each _ (prev_layers network x) _) as [P| |]; simpl; [|done..].
    assert (HN : ∀ l d, for_each (λ d nl,
        match nl with
        | Some s =>
            if truthy nl then
              nvidx ← getitem dict s;
              if bool_decide (nvidx ≠ vidx) then set_add d vidx nvidx else Ok d
            else Ok d
        | None => Ok d
        end) l d ≠ OutOfFuel).
    { apply for_each_total. intros d [l|]; [|done]. destruct (truthy _); [|done].
      pose proof (Hget dict l). destruct (getitem dict l) as [nvidx| |]; simpl;
        [|done..].
      case_bool_decide; [apply Hadd|done]. }
    specialize (HN (next_layers network x) s.2).
    by destruct (for_each _ (next_layers network x) _). }
  pose proof (for_each_total _ Hlink (net_iter network)
                (empty_sets (length order), empty_sets (length order))) as Hloop.
  by destruct (for_each _ _ _).
Qed.

Lemma init_fuel network batch resource mud :
  __init__ network batch resource mud ≠ OutOfFuel.
Proof.
  unfold __init__. destruct network as [net| |]; [|done..].
  destruct resource as [|res|]; [done| |done].
  destruct (negb _); [done|].
  pose proof (calc_sched_dag_fuel net). by destruct (_calc_sched_dag net).
Qed.

(** A call of [gen_segment] on a constructed pipeline ends normally or
    with the assertion of line 76. *)
Lemma gen_layer_segments_outcome validator self layers :
  (gen_layer_segments validator self layers).2 = Ok () ∨
  (gen_layer_segments validator self layers).2 = Raise (AssertionError 76).
Proof.
  induction layers as [|l layers IH]; simpl; [by left|].
  destruct (validator [[l]] _ _ _ _); simpl; [done|by right].
Qed.

Lemma gen_segment_outcome validator net rank batch res mud self options :
  network_ok net rank →
  __init__ (PyNetwork net) batch (PyResource res) mud = Ok self →
  (∃ memo, outcome (gen_segment validator self options) = Ok memo) ∨
  outcome (gen_segment validator self options) = Raise (AssertionError 76).
Proof.
  intros Hnet Hinit.
  pose proof (constructed_adjacency _ _ Hnet _ _ _ _ Hinit) as Hadj.
  destruct (gen_vseg_all_runs _ _ _ (dag_input_vertex (dag self)) Hadj
              (seg_vertex_done self)) as (vsegs & memo' & Hgen & _ & Hruns).
  unfold gen_segment, outcome, gbind.
  destruct (gen_layer_segments_outcome validator self (net_iter (network self)))
    as [-> | ->]; simpl; [|by right].
  left. exists memo'. unfold self_gen_vseg. rewrite Hgen. simpl.
  rewrite gen_pipelined_Ok; [done|].
  intros vseg [(s & k & -> & Hs & Hk) _]%Hruns. by apply seg_cands_of_run_Ok.
Qed.

(** * Properties of the vertex segment enumerator *)

(** A decidable proposition holds when its decision computes to true. *)
Ltac by_compute :=
  match goal with
  | |- ?P => refine (bool_decide_unpack P _); vm_compute; exact I
  end.




(** X19.  For every well formed network (the layer names are distinct
    and none is empty, the next layers are the converse of the previous
    layers, the network is acyclic) whose construction succeeds, every
    vseg a pass of the enumerator yields satisfies the rules 1, 2 and 3
    with respect to the computed adjacency. *)
Theorem gen_vseg_yields_satisfy_rules
    (net : Network) (rank : string → nat) (batch : Z) (res : Resource) (mud : number)
    (self : InterLayerPipeline) (memo : gset Z) (vseg : list Z) :
  network_ok net rank →
  __init__ (PyNetwork net) batch (PyResource res) mud = Ok self →
  vseg ∈ yields (gen_vseg_all (dag_vertex_list (dag self)) (dag_prev_dict (dag self))
                   (dag_next_dict (dag self)) (dag_input_vertex (dag self)) memo) →
  rule1 (dag_prev_dict (dag self)) vseg ∧
  rule2 (dag_prev_dict (dag self)) vseg ∧
  rule3 (dag_next_dict (dag self)) vseg.
Proof.
  intros Hnet Hinit Hin.
  destruct (gen_vseg_all_runs _ _ _ (dag_input_vertex (dag self))
              (constructed_adjacency _ _ Hnet _ _ _ _ Hinit) memo)
    as (vsegs & memo' & Hgen & _ & Hspec).
  rewrite Hgen in Hin. simpl in Hin. by apply Hspec in Hin as (_ & ? & ? & ?).
Qed.

Lemma gen_vseg_yields_satisfy_rules_fan :
  network_ok fan_network (declaration_rank fan_network) ∧
  __init__ (PyNetwork fan_network) 1 (PyResource example_resource)
    max_util_drop_default = Ok fan_pipeline ∧
  [1; 2; 3] ∈ yields (self_gen_vseg fan_pipeline) ∧
  rule1 (dag_prev_dict (dag fan_pipeline)) [1; 2; 3] ∧
  rule2 (dag_prev_dict (dag fan_pipeline)) [1; 2; 3] ∧
  rule3 (dag_next_dict (dag fan_pipeline)) [1; 2; 3].
Proof.
  split; [apply network_okb_sound; vm_compute; reflexivity|].
  split; [apply init_pipeline_of; [done|vm_compute; reflexivity]|].
  split; [by_compute|].
  apply (gen_vseg_yields_satisfy_rules fan_network (declaration_rank fan_network)
           1 example_resource max_util_drop_default fan_pipeline ∅).
  - apply network_okb_sound. vm_compute. reflexivity.
  - apply init_pipeline_of; [done|vm_compute; reflexivity].
  - by_compute.
Defined.

(** The next vertices of every vertex have larger indices, as a property
    of the dictionary that can be computed. *)
Lemma nexts_after_check (d : gmap Z (gset Z)) :
  map_Forall (λ i (X : gset Z), set_Forall (λ j, i < j) X) d →
  ∀ i j, j ∈ nexts_of d i → i < j.
Proof.
  intros Hall i j. unfold nexts_of. destruct (d !! i) as [X|] eqn:HX; simpl.
  - intros Hj. by apply (Hall i X HX j).
  - by intros ?%not_elem_of_empty.
Qed.

(** C8.  Over an adjacency in which the next vertices of a vertex have
    larger indices, whenever the check of rule 3 finds a vertex of the
    current vseg (a run that ends at the frontier) whose next vertices are
    neither all outside nor all inside the vseg, the smallest next vertex
    missing from the vseg lies after the frontier; no call of the
    enumerator raises the assertion error of line 179. *)
Theorem rule3_assertion_holds
    (dag_vertex_list : list vertex) (dag_prev_dict dag_next_dict : gmap Z (gset Z))
    (dag_input_vertex : Z) :
  (∀ i j, j ∈ nexts_of dag_next_dict i → i < j) →
  (∀ s k idx nexts,
     idx ∈ run s k → dag_next_dict !! idx = Some nexts →
     isdisjoint nexts (run s k) || issubset nexts (run s k) = false →
     ∃ m, set_min (difference_tuple nexts (run s k)) = Ok m ∧ s + Z.of_nat k < m) ∧
  (∀ fuel vertex_idx done memo,
     outcome (_gen_vseg dag_vertex_list dag_prev_dict dag_next_dict dag_input_vertex
                fuel vertex_idx done memo)
     ≠ Raise (AssertionError 179)).
Proof.
  intros Hafter. split.
  - intros s k idx nexts Hidx Hnexts Hcheck.
    apply (missing_next_after_frontier s k idx nexts); [|done..].
    intros j Hj. apply Hafter. unfold nexts_of. by rewrite Hnexts.
  - intros fuel vertex_idx dn memo. by apply gen_vseg_assertion.
Qed.

Lemma rule3_assertion_holds_fan :
  (∀ i j, j ∈ nexts_of (dag_next_dict fan_dag) i → i < j) ∧
  (∃ m, set_min (difference_tuple ({[ 1; 2; 3 ]} : gset Z) (run 0 1)) = Ok m ∧
        0 + Z.of_nat 1 < m) ∧
  outcome (self_gen_vseg fan_pipeline) ≠ Raise (AssertionError 179).
Proof.
  assert (Hafter : ∀ i j, j ∈ nexts_of (dag_next_dict fan_dag) i → i < j).
  { apply nexts_after_check. by_compute. }
  split; [exact Hafter|].
  destruct (rule3_assertion_holds (dag_vertex_list fan_dag) (dag_prev_dict fan_dag)
              (dag_next_dict fan_dag) (dag_input_vertex fan_dag) Hafter) as [Hmin Hnever].
  split.
  - apply (Hmin 0 1%nat 0 {[ 1; 2; 3 ]}); [by_compute|vm_compute; reflexivity..].
  - apply Hnever.
Defined.

(** C9.  Every vseg a call of the enumerator yields is a run of
    consecutive vertex indices that starts at the start index of the call
    or later, hence at a vertex index that is not negative: the input
    vertex, -1, is in no vseg.  So every segment the generator makes from a
    vseg is made of consecutive vertices of the topological order: their
    tuple, or the single stage of their concatenation. *)
Theorem gen_vseg_yields_consecutive :
  (∀ (dag_vertex_list : list vertex) (dag_prev_dict dag_next_dict : gmap Z (gset Z))
     (dag_input_vertex : Z) fuel vertex_idx done memo vseg,
     0 ≤ vertex_idx →
     vseg ∈ yields (_gen_vseg dag_vertex_list dag_prev_dict dag_next_dict
                      dag_input_vertex fuel vertex_idx done memo) →
     ∃ v k, vertex_idx ≤ v ∧ 0 ≤ v ∧ vseg = run v k ∧ -1 ∉ vseg) ∧
  (∀ validator self options sgm,
     sgm ∈ yields (gen_segment validator self options) →
     (∃ layer, layer ∈ net_iter (network self) ∧ seg sgm = [[layer]]) ∨
     ∃ v k : nat,
       (v + k < length (dag_vertex_list (dag self)))%nat ∧
       (seg sgm = vertices_of_run (dag_vertex_list (dag self)) v k ∨
        seg sgm = [concat (vertices_of_run (dag_vertex_list (dag self)) v k)])).
Proof.
  split.
  - intros dvl prev next inp fuel vertex_idx dn memo vseg Hidx Hin.
    pose proof (gen_vseg_runs dvl prev next inp fuel vertex_idx dn memo) as Hruns.
    rewrite Forall_forall in Hruns. destruct (Hruns vseg Hin) as (v & k & Hv & ->).
    exists v, k. split; [done|]. split; [lia|]. split; [done|].
    rewrite elem_of_run. lia.
  - intros validator self options sgm Hin. unfold gen_segment in Hin.
    apply gbind_elem_of in Hin as [Hin|(_ & _ & Hin)].
    + left. apply gen_layer_segments_valid in Hin as [_ (l & ? & ?)]. eauto.
    + right. apply gen_pipelined_elem in Hin
        as [_ (vseg & c & sg & Hvseg & Hc & Hsg & ->)].
      pose proof (gen_vseg_runs (dag_vertex_list (dag self)) (dag_prev_dict (dag self))
                    (dag_next_dict (dag self)) (dag_input_vertex (dag self))
                    (S (length (dag_vertex_list (dag self)))) 0 None
                    (seg_vertex_done self)) as Hruns.
      rewrite Forall_forall in Hruns. destruct (Hruns vseg Hvseg) as (v & k & Hv & ->).
      apply seg_cands_of_spec in Hc as [_ Hc].
      destruct (Hc sg Hsg) as (vs & Hvs & Hsgvs).
      apply mapM_getitem_run in Hvs as [-> Hlen]; [|done].
      exists (Z.to_nat v), k. split; [lia|]. simpl. done.
Qed.

Lemma gen_vseg_yields_consecutive_fan :
  0 ≤ 1 ∧
  [2; 3] ∈ yields (_gen_vseg (dag_vertex_list fan_dag) (dag_prev_dict fan_dag)
                     (dag_next_dict fan_dag) (dag_input_vertex fan_dag)
                     4 1 (Some {[ -1; 0 ]}) ∅) ∧
  ∃ v k, 1 ≤ v ∧ 0 ≤ v ∧ [2; 3] = run v k ∧ -1 ∉ [2; 3].
Proof.
  split; [lia|]. split; [by_compute|].
  apply (proj1 gen_vseg_yields_consecutive (dag_vertex_list fan_dag)
           (dag_prev_dict fan_dag) (dag_next_dict fan_dag) (dag_input_vertex fan_dag)
           4%nat 1 (Some {[ -1; 0 ]}) ∅ [2; 3]); [lia|by_compute].
Defined.

(** * Properties of the scheduling DAG and of the constructor *)

(** X20.  For every well formed network (the layer names are distinct
    and none is empty, the next layers are the converse of the previous
    layers, the network is acyclic) the constructor accepts,
    [ordered_layer_list] holds every layer name of the network exactly
    once, and a layer stands in it after each of its previous layers. *)
Theorem ordered_layer_list_topological
    (net : Network) (rank : string → nat) (batch : Z) (res : Resource) (mud : number)
    (self : InterLayerPipeline) :
  network_ok net rank →
  __init__ (PyNetwork net) batch (PyResource res) mud = Ok self →
  ordered_layer_list self ≡ₚ net_iter net ∧
  NoDup (ordered_layer_list self) ∧
  ∀ (i j : nat) producer consumer,
    ordered_layer_list self !! i = Some producer →
    ordered_layer_list self !! j = Some consumer →
    Some producer ∈ prev_layers net consumer →
    (i < j)%nat.
Proof.
  intros Hnet Hinit. unfold ordered_layer_list.
  destruct (constructed_sorted _ _ _ _ _ Hinit) as (vset & Hvs & Horder).
  destruct (ordered_layers_ok _ _ _ Hnet Hvs _ Horder) as [Hperm Hbefore].
  split; [done|]. split; [|done].
  rewrite Hperm. apply (net_nodup _ _ Hnet).
Qed.

Lemma ordered_layer_list_topological_fan :
  network_ok fan_network (declaration_rank fan_network) ∧
  __init__ (PyNetwork fan_network) 1 (PyResource example_resource)
    max_util_drop_default = Ok fan_pipeline ∧
  ordered_layer_list fan_pipeline = ["A"; "B"; "C"; "D"]%string ∧
  ordered_layer_list fan_pipeline ≡ₚ net_iter fan_network ∧
  NoDup (ordered_layer_list fan_pipeline) ∧
  ∀ (i j : nat) producer consumer,
    ordered_layer_list fan_pipeline !! i = Some producer →
    ordered_layer_list fan_pipeline !! j = Some consumer →
    Some producer ∈ prev_layers fan_network consumer →
    (i < j)%nat.
Proof.
  split; [apply network_okb_sound; vm_compute; reflexivity|].
  split; [apply init_pipeline_of; [done|vm_compute; reflexivity]|].
  split; [reflexivity|].
  apply (ordered_layer_list_topological fan_network (declaration_rank fan_network)
           1 example_resource max_util_drop_default).
  - apply network_okb_sound. vm_compute. reflexivity.
  - apply init_pipeline_of; [done|vm_compute; reflexivity].
Defined.

(** C7.  The constructor raises a configuration error (a [TypeError] or a
    [ValueError]) if and only if [network] is not a [Network], [resource]
    is not a [Resource], or [max_util_drop] is outside of the closed
    interval from 0 to 1.  With proper arguments the checks raise nothing:
    the constructor goes on with the DAG build, whose exceptions are not
    configuration errors.  With improper arguments the error is raised
    whatever the DAG build would do, and no object is made. *)
Theorem init_configuration_error
    (network : pyobj) (batch : Z) (resource : pyobj) (mud : number) :
  ((∃ e, __init__ network batch resource mud = Raise e ∧ configuration_error e) ↔
   ¬ is_Network network ∨ ¬ is_Resource resource ∨ ¬ in_unit_interval mud) ∧
  (∀ net res,
     network = PyNetwork net → resource = PyResource res → in_unit_interval mud →
     __init__ network batch resource mud
     = d ← _calc_sched_dag net; Ok (pipeline_of net batch res mud d)) ∧
  (¬ is_Network network → __init__ network batch resource mud = Raise TypeError) ∧
  (is_Network network → ¬ is_Resource resource →
   __init__ network batch resource mud = Raise TypeError) ∧
  (is_Network network → is_Resource resource → ¬ in_unit_interval mud →
   __init__ network batch resource mud = Raise ValueError).
Proof.
  assert (Hgood : ∀ net res,
    network = PyNetwork net → resource = PyResource res → in_unit_interval mud →
    __init__ network batch resource mud
    = d ← _calc_sched_dag net; Ok (pipeline_of net batch res mud d)).
  { intros net res -> -> Hr%in_unit_interval_check. unfold __init__. by rewrite Hr. }
  assert (Hnet : ¬ is_Network network →
                 __init__ network batch resource mud = Raise TypeError).
  { intros Hn. destruct network as [net| |]; [|done..]. destruct Hn. by exists net. }
  assert (Hres : is_Network network → ¬ is_Resource resource →
                 __init__ network batch resource mud = Raise TypeError).
  { intros [net ->] Hn. destruct resource as [|res|]; [done| |done].
    destruct Hn. by exists res. }
  assert (Hmud : is_Network network → is_Resource resource → ¬ in_unit_interval mud →
                 __init__ network batch resource mud = Raise ValueError).
  { intros [net ->] [res ->] Hr. unfold __init__.
    destruct (number_le _ _ && number_le _ _) eqn:Hc; [|done].
    by apply in_unit_interval_check in Hc. }
  split; [|done]. split.
  - intros (e & He & Hconf).
    destruct network as [net| |]; [|left; by intros [? ?]..].
    destruct resource as [|res|]; [right; left; by intros [? ?]| |right; left; by intros [? ?]].
    right. right. intros Hr.
    rewrite (Hgood net res eq_refl eq_refl Hr) in He.
    destruct (_calc_sched_dag net) as [d|e'| ] eqn:Hd; simpl in He; [done| |done].
    injection He as <-. by apply (calc_sched_dag_raise net e').
  - intros Hbad.
    destruct network as [net| |];
      [|exists TypeError; split; [done|by left]..].
    destruct resource as [|res|];
      [exists TypeError; split; [done|by left]|
      |exists TypeError; split; [done|by left]].
    exists ValueError. split; [|by right]. apply Hmud; [by eexists..|].
    destruct Hbad as [Hb|[Hb|Hb]]; [destruct Hb; by eexists..|done].
Qed.

(** * Properties of the segments of [gen_segment] *)




(** C5.  When the validator accepts the single-layer segment of every
    layer of the network, a call of [gen_segment] yields first the segment
    ((L,),) of each layer L, in the order in which the network iterates
    over its layers, whatever the options are; with both options disabled
    it yields nothing else, however the enumerator ends. *)
Theorem gen_segment_layer_segments
    (validator : segment → Network → Z → Resource → number → bool)
    (self : InterLayerPipeline) (options : Options) :
  (∀ layer, layer ∈ net_iter (network self) → accepts validator self [[layer]]) →
  seg <$> layer_segments validator self (net_iter (network self))
  = (λ layer, [[layer]]) <$> net_iter (network self) ∧
  (∃ pipelined,
     yields (gen_segment validator self options)
     = layer_segments validator self (net_iter (network self)) ++ pipelined) ∧
  (partition_interlayer options = false → hw_gbuf_save_writeback options = false →
   yields (gen_segment validator self options)
   = layer_segments validator self (net_iter (network self))).
Proof.
  intros Hacc. split; [apply layer_segments_segs|].
  unfold gen_segment, yields.
  rewrite (gbind_yields_ok _ _ ()) by (by rewrite gen_layer_segments_accepted).
  rewrite gen_layer_segments_accepted by done. simpl. split; [by eexists|].
  intros Hpi Hhw. by rewrite gen_pipelined_disabled, app_nil_r.
Qed.

Lemma gen_segment_layer_segments_fan :
  (∀ layer, layer ∈ net_iter (network fan_pipeline) →
     accepts accept_all fan_pipeline [[layer]]) ∧
  seg <$> yields (gen_segment accept_all fan_pipeline
                    {| partition_interlayer := false; hw_gbuf_save_writeback := false |})
  = [ [["A"]]; [["B"]]; [["C"]]; [["D"]] ]%string ∧
  yields (gen_segment accept_all fan_pipeline
            {| partition_interlayer := false; hw_gbuf_save_writeback := false |})
  = layer_segments accept_all fan_pipeline (net_iter (network fan_pipeline)).
Proof.
  assert (Hacc : ∀ layer, layer ∈ net_iter (network fan_pipeline) →
                   accepts accept_all fan_pipeline [[layer]]) by (intros; reflexivity).
  split; [exact Hacc|]. split; [vm_compute; reflexivity|].
  apply (gen_segment_layer_segments accept_all fan_pipeline
           {| partition_interlayer := false; hw_gbuf_save_writeback := false |} Hacc);
    reflexivity.
Defined.

(** C10.  When the validator rejects the single-layer segment of a layer
    and accepts those of the layers before it, a call of [gen_segment]
    yields the segments of the layers before it and raises the
    [AssertionError] of line 76: it yields neither the rejected segment
    nor any later one.  Every segment the call yields is valid.  The
    candidates of the vsegs that the validator rejects are left out, and
    change nothing else: the second loop yields the valid candidates of
    every vseg and ends as the enumerator ends. *)
Theorem gen_segment_rejected_layer_segment
    (validator : segment → Network → Z → Resource → number → bool)
    (self : InterLayerPipeline) (options : Options)
    (pre : list string) (layer : string) (post : list string) :
  net_iter (network self) = pre ++ layer :: post →
  (∀ l, l ∈ pre → accepts validator self [[l]]) →
  ¬ accepts validator self [[layer]] →
  gen_segment validator self options
  = (layer_segments validator self pre, Raise (AssertionError 76)) ∧
  (∀ sgm, sgm ∈ yields (gen_segment validator self options) → valid sgm = true) ∧
  (∀ vsegs vseg_end,
     (∀ vseg, vseg ∈ vsegs → ∃ c, seg_cands_of self options vseg = Ok c) →
     gen_pipelined validator self options vsegs vseg_end
     = (vsegs ≫= (λ vseg, match seg_cands_of self options vseg with
                          | Ok c => filter (λ sgm, valid sgm = true)
                                      (new_PipelineSegment validator self <$> c)
                          | _ => []
                          end),
        vseg_end)).
Proof.
  intros Hlayers Hpre Hlayer.
  assert (Hgen : gen_segment validator self options
                 = (layer_segments validator self pre, Raise (AssertionError 76))).
  { unfold gen_segment, gbind.
    by rewrite Hlayers, (gen_layer_segments_rejected validator self pre layer post). }
  split; [done|]. split.
  - rewrite Hgen. unfold yields, layer_segments. simpl.
    intros sgm (l & -> & Hl)%list_elem_of_fmap. by apply Hpre.
  - intros vsegs vseg_end Hok. by apply gen_pipelined_Ok.
Qed.

Lemma gen_segment_rejected_layer_segment_fan :
  net_iter (network fan_pipeline) = ["A"] ++ "B" :: ["C"; "D"] ∧
  (∀ l, l ∈ ["A"%string] → accepts reject_B fan_pipeline [[l]]) ∧
  ¬ accepts reject_B fan_pipeline [["B"%string]] ∧
  gen_segment reject_B fan_pipeline
    {| partition_interlayer := true; hw_gbuf_save_writeback := true |}
  = (layer_segments reject_B fan_pipeline ["A"%string], Raise (AssertionError 76)) ∧
  seg <$> layer_segments reject_B fan_pipeline ["A"%string] = [ [["A"%string]] ].
Proof.
  assert (Hpre : ∀ l, l ∈ ["A"%string] → accepts reject_B fan_pipeline [[l]])
    by (by intros l ->%list_elem_of_singleton).
  assert (Hrej : ¬ accepts reject_B fan_pipeline [["B"%string]]) by (by vm_compute).
  split; [reflexivity|]. split; [exact Hpre|]. split; [exact Hrej|].
  split; [|reflexivity].
  apply (gen_segment_rejected_layer_segment reject_B fan_pipeline
           {| partition_interlayer := true; hw_gbuf_save_writeback := true |}
           ["A"%string] "B"%string ["C"; "D"]%string eq_refl Hpre Hrej).
Defined.

(** * The sorter, whatever the network is *)

(** A loop that ends normally keeps an invariant that its body keeps. *)
Lemma for_each_Ok_inv {A S : Type} (body : S → A → result S) (P : S → Prop) :
  ∀ l s s',
    (∀ s x s', P s → x ∈ l → body s x = Ok s' → P s') →
    P s → for_each body l s = Ok s' → P s'.
Proof.
  induction l as [|x l IH]; intros s s' Hbody HP; simpl.
  - by intros [= <-].
  - destruct (body s x) as [s1| |] eqn:Hx; simpl; [|done..].
    apply IH; [|by eapply Hbody; [|apply elem_of_cons; left|]].
    intros s2 y s3 HP2 Hy. apply Hbody; [done|apply elem_of_cons; by right].
Qed.

(** Two positions of a list without repetition hold different values. *)
Lemma NoDup_bind_apart {A B : Type} (f : A → list B) (l : list A) a1 a2 x :
  NoDup (l ≫= f) → a1 ∈ l → a2 ∈ l → a1 ≠ a2 → x ∈ f a1 → x ∈ f a2 → False.
Proof.
  induction l as [|a l IH]; intros Hnd H1 H2 Hne Hx1 Hx2;
    [by apply elem_of_nil in H1|].
  change ((a :: l) ≫= f) with (f a ++ (l ≫= f)) in Hnd.
  apply NoDup_app in Hnd as (_ & Hdisj & Hnd).
  apply elem_of_cons in H1 as [->|H1], H2 as [->|H2].
  - done.
  - apply (Hdisj x Hx1), list_elem_of_bind. by exists a2.
  - apply (Hdisj x Hx2), list_elem_of_bind. by exists a1.
  - by apply IH.
Qed.

Section SorterFacts.

Variable network : Network.

Lemma for_each_visit_frame (f : vertex → dfs_state → result dfs_state) :
  (∀ v st st', f v st = Ok st' → visit_frame v st st') →
  ∀ vs st st', for_each (λ s nv, f nv s) vs st = Ok st' →
    NoDup vs ∧ (∀ x, x ∈ vs → (x ∉ visited st) ∧ x ∈ visited st') ∧
    seen st' = seen st ∧ visited st `prefix_of` visited st' ∧
    unseen st' ⊆ unseen st.
Proof.
  intros Hf vs. induction vs as [|x vs IH]; intros st st'; simpl.
  - intros [= <-]. split; [constructor|]. split; [by intros x ?%elem_of_nil|done].
  - destruct (f x st) as [st1| |] eqn:Hx; simpl; [|done..]. intros Hrest.
    destruct (Hf x st st1 Hx) as (Hns & Hnv & Hv1 & Hseen1 & Hpre1 & Hun1).
    destruct (IH st1 st' Hrest) as (Hnd & Hvs & Hseen' & Hpre' & Hun').
    split; [|split; [|split; [congruence|split; [by etrans|set_solver]]]].
    + apply NoDup_cons. split; [|done]. intros Hin. by destruct (Hvs x Hin).
    + intros y [->|Hy]%elem_of_cons.
      * split; [done|]. destruct Hpre' as [k ->]. apply elem_of_app. by left.
      * destruct (Hvs y Hy) as [Hy1 Hy']. split; [|done].
        intros Hin. apply Hy1. destruct Hpre1 as [k ->]. apply elem_of_app. by left.
Qed.

Lemma dfs_visit_frame fuel : ∀ v st st',
  _dfs network fuel v st = Ok st' →
  visit_frame v st st' ∧
  NoDup (vertices_of (reverse (dfs_next_layers network v)) (unseen st ∖ {[v]})).
Proof.
  induction fuel as [|fuel IH]; intros v st st'; simpl; [done|].
  case_bool_decide as Hassert; [|done]. destruct Hassert as [Hnseen Hnvisited].
  destruct (for_each _ _ _) as [st2| |] eqn:Hloop; simpl; [|done..].
  case_bool_decide as Hin; [|done]. intros [= <-].
  destruct (for_each_visit_frame (_dfs network fuel) (λ v st st' H, proj1 (IH v st st' H))
              _ _ _ Hloop) as (Hnd & _ & Hseen2 & Hpre2 & Hun2).
  simpl in *. split; [|done].
  split; [done|]. split; [done|]. split; [|split; [|split]]; simpl.
  - apply elem_of_app. right. by apply list_elem_of_singleton.
  - rewrite Hseen2. set_solver.
  - destruct Hpre2 as [k ->]. exists (k ++ [v]). by rewrite app_assoc.
  - set_solver.
Qed.

(** The errors of the search: only the assertion on the entry of a visit
    can fail; [seen.remove] finds its vertex. *)
Lemma for_each_dfs_outcome (f : vertex → dfs_state → result dfs_state) :
  (∀ v st, (∃ st', f v st = Ok st') ∨ f v st = Raise (AssertionError 317) ∨
           f v st = OutOfFuel) →
  ∀ vs st,
    (∃ st', for_each (λ s nv, f nv s) vs st = Ok st') ∨
    for_each (λ s nv, f nv s) vs st = Raise (AssertionError 317) ∨
    for_each (λ s nv, f nv s) vs st = OutOfFuel.
Proof.
  intros Hf vs. induction vs as [|x vs IH]; intros st; simpl; [left; by eexists|].
  destruct (Hf x st) as [[st1 ->]|[-> | ->]]; simpl; [apply IH|by right; left|by right; right].
Qed.

Lemma dfs_outcome fuel : ∀ v st,
  (∃ st', _dfs network fuel v st = Ok st') ∨
  _dfs network fuel v st = Raise (AssertionError 317) ∨
  _dfs network fuel v st = OutOfFuel.
Proof.
  induction fuel as [|fuel IH]; intros v st; simpl; [by right; right|].
  case_bool_decide as Hassert; [|by right; left].
  destruct (for_each_dfs_outcome (_dfs network fuel) IH
              (vertices_of (reverse (dfs_next_layers network v)) (unseen st ∖ {[v]}))
              {| visited := visited st; unseen := unseen st ∖ {[v]};
                 seen := seen st ∪ {[v]} |}) as [[st2 Hloop]|[Hloop|Hloop]];
    rewrite Hloop; simpl; [|by right; left|by right; right].
  destruct (for_each_visit_frame (_dfs network fuel)
              (λ v st st' H, proj1 (dfs_visit_frame fuel v st st' H))
              _ _ _ Hloop) as (_ & _ & Hseen2 & _).
  simpl in Hseen2. rewrite bool_decide_true by (rewrite Hseen2; set_solver).
  left. by eexists.
Qed.

(** The sorter returns an order or fails one of two assertions. *)
Lemma topological_order_ends (dag_vertex_set : list vertex) :
  (∃ order, _topological_order network dag_vertex_set = Ok order) ∨
  _topological_order network dag_vertex_set = Raise (AssertionError 317) ∨
  _topological_order network dag_vertex_set = Raise (AssertionError 350).
Proof.
  pose proof (topological_order_fuel network dag_vertex_set) as Hfuel.
  unfold _topological_order in *.
  set (st0 := {| visited := []; unseen := list_to_set dag_vertex_set; seen := ∅ |}) in *.
  destruct (for_each_dfs_outcome (_dfs network (S (length dag_vertex_set)))
              (dfs_outcome (S (length dag_vertex_set)))
              (vertices_of (reverse (first_layers network)) (unseen st0)) st0)
    as [[st Hloop]|[Hloop|Hloop]]; rewrite Hloop in *; simpl in *;
    [|by right; left|done].
  destruct (for_each_visit_frame (_dfs network (S (length dag_vertex_set)))
              (λ v st st' H, proj1 (dfs_visit_frame _ v st st' H))
              _ _ _ Hloop) as (_ & _ & Hseen & _).
  case_bool_decide; [|by right; right].
  rewrite bool_decide_true by done. left. by eexists.
Qed.

(** ** The sets of the search *)

Section Sets.

Variable dag_vertex_set : list vertex.

Lemma dfs_start_sets : dfs_sets dag_vertex_set (dfs_start dag_vertex_set).
Proof.
  split; simpl; [|set_solver..|constructor].
  intros v. rewrite elem_of_list_to_set. set_solver.
Qed.

Lemma dfs_start_cover : dfs_cover dag_vertex_set (dfs_start dag_vertex_set).
Proof. split; simpl; intros v; rewrite elem_of_list_to_set; auto. Qed.

Lemma dfs_sets_visit fuel : ∀ v st st',
  dfs_sets dag_vertex_set st → v ∈ dag_vertex_set →
  _dfs network fuel v st = Ok st' → dfs_sets dag_vertex_set st'.
Proof.
  induction fuel as [|fuel IH]; intros v st st' Hsets Hv; simpl; [done|].
  case_bool_decide as Hassert; [|done]. destruct Hassert as [Hnseen Hnvisited].
  set (st1 := {| visited := visited st; unseen := unseen st ∖ {[v]};
                 seen := seen st ∪ {[v]} |}).
  destruct (for_each _ _ st1) as [st2| |] eqn:Hloop; simpl; [|done..].
  case_bool_decide as Hin; [|done]. intros [= <-].
  destruct Hsets as [Hcover Hus Huv Hsv Hnd].
  assert (Hsets1 : dfs_sets dag_vertex_set st1).
  { split; simpl; [|set_solver..|done].
    intros x. rewrite Hcover. destruct (decide (x = v)); set_solver. }
  assert (Hsets2 : dfs_sets dag_vertex_set st2).
  { apply (for_each_Ok_inv _ (dfs_sets dag_vertex_set) _ _ _) with (3 := Hloop);
      [|done].
    intros s x s' Hs Hx. apply IH; [done|].
    apply elem_of_vertices_of in Hx as (_ & _ & Hx & _).
    apply Hcover. simpl in Hx. set_solver. }
  destruct (for_each_visit_frame (_dfs network fuel)
              (λ v st st' H, proj1 (dfs_visit_frame fuel v st st' H))
              _ _ _ Hloop) as (_ & _ & Hseen2 & _).
  simpl in Hseen2.
  destruct Hsets2 as [Hcover2 Hus2 Huv2 Hsv2 Hnd2]. split; simpl.
  - intros x. rewrite Hcover2, elem_of_app, list_elem_of_singleton, elem_of_difference,
      elem_of_singleton.
    destruct (decide (x = v)) as [->|]; naive_solver.
  - intros x Hx. specialize (Hus2 x Hx). set_solver.
  - intros x Hx. rewrite elem_of_app, list_elem_of_singleton.
    intros [?| ->]; [by apply (Huv2 x)|by apply (Hus2 v)].
  - intros x [Hx Hne]%elem_of_difference. rewrite elem_of_app, list_elem_of_singleton.
    intros [?| ->]; [by apply (Hsv2 x)|set_solver].
  - apply NoDup_app. split; [done|]. split; [|apply NoDup_singleton].
    intros x Hx ->%list_elem_of_singleton. by apply (Hsv2 v).
Qed.

(** The order the sorter returns holds the vertices of the set, once
    each. *)
Lemma topological_order_sets (order : list vertex) :
  _topological_order network dag_vertex_set = Ok order →
  NoDup order ∧ ∀ v, v ∈ order ↔ v ∈ dag_vertex_set.
Proof.
  unfold _topological_order. fold (dfs_start dag_vertex_set).
  destruct (for_each _ _ _) as [st| |] eqn:Hloop; simpl; [|done..].
  case_bool_decide as Hunseen; [|done]. case_bool_decide as Hseen; [|done].
  intros [= <-].
  assert (Hsets : dfs_sets dag_vertex_set st).
  { apply (for_each_Ok_inv _ (dfs_sets dag_vertex_set) _ _ _) with (3 := Hloop);
      [|apply dfs_start_sets].
    intros s x s' Hs Hx. apply dfs_sets_visit; [done|].
    apply elem_of_vertices_of in Hx as (_ & _ & Hx & _).
    simpl in Hx. by apply elem_of_list_to_set in Hx. }
  destruct Hsets as [Hcover _ _ _ Hnd]. split; [by rewrite reverse_Permutation|].
  intros v. rewrite elem_of_reverse, Hcover, Hunseen, Hseen. set_solver.
Qed.

End Sets.

End SorterFacts.

(** * The adjacency records every link *)

Lemma for_each_cons_Ok {A S : Type} (body : S → A → result S) x l s s' :
  for_each body (x :: l) s = Ok s' →
  ∃ s1, body s x = Ok s1 ∧ for_each body l s1 = Ok s'.
Proof. simpl. destruct (body s x) as [s1| |]; simpl; [eauto|done..]. Qed.

Section LinkFacts.

Variable network : Network.
Variable dict : gmap string Z.
Variable inp : Z.

#[local] Arguments truthy : simpl never.

(** The loop over the previous layers of a layer of the vertex [vidx]. *)
Lemma prev_loop_complete (vidx : Z) : ∀ pls (d d' : gmap Z (gset Z)),
  for_each (λ d pl,
      pvidx ← (match pl with
               | Some s => if truthy pl then getitem dict s else Ok inp
               | None => Ok inp
               end);
      if bool_decide (pvidx ≠ vidx) then set_add d vidx pvidx else Ok d) pls d = Ok d' →
  (∀ i j, j ∈ prevs_of d i → j ∈ prevs_of d' i) ∧
  ∀ pl j, pl ∈ pls → prev_index dict inp pl = Some j → j ≠ vidx → j ∈ prevs_of d' vidx.
Proof.
  induction pls as [|pl pls IH]; intros d d'.
  - intros [= <-]. split; [done|]. by intros pl j ?%elem_of_nil.
  - intros (d1 & Hbody & Hrest)%for_each_cons_Ok. cbv beta in Hbody.
    destruct (IH d1 d' Hrest) as [Hmono Hall].
    assert (Hstep : (∀ i j, j ∈ prevs_of d i → j ∈ prevs_of d1 i) ∧
                    ∀ j, prev_index dict inp pl = Some j → j ≠ vidx →
                         j ∈ prevs_of d1 vidx).
    { assert (Hadd : ∀ pvidx,
                (if bool_decide (pvidx ≠ vidx) then set_add d vidx pvidx else Ok d)
                = Ok d1 →
                (∀ i j, j ∈ prevs_of d i → j ∈ prevs_of d1 i) ∧
                (pvidx ≠ vidx → pvidx ∈ prevs_of d1 vidx)).
      { intros pvidx. case_bool_decide as Hne.
        - intros [_ Hd1]%set_add_spec. split; intros; apply Hd1; auto.
        - intros [= <-]. split; [done|]. intros. done. }
      unfold prev_index.
      destruct pl as [s|]; [destruct (truthy (Some s))|]; simpl in Hbody.
      - unfold getitem in Hbody. destruct (dict !! s) as [pvidx|]; [simpl in Hbody|done].
        destruct (Hadd pvidx Hbody). split; [done|]. by intros j [= <-].
      - destruct (Hadd inp Hbody). split; [done|]. by intros j [= <-].
      - destruct (Hadd inp Hbody). split; [done|]. by intros j [= <-]. }
    destruct Hstep as [Hmono1 Hpl]. split; [by auto|].
    intros pl' j [->|Hin]%elem_of_cons Hj Hne; [|by eapply Hall].
    by apply Hmono, Hpl.
Qed.

(** The loop over the next layers of a layer of the vertex [vidx]. *)
Lemma next_loop_complete (vidx : Z) : ∀ nls (d d' : gmap Z (gset Z)),
  for_each (λ d nl,
      match nl with
      | Some s =>
          if truthy nl then
            nvidx ← getitem dict s;
            if bool_decide (nvidx ≠ vidx) then set_add d vidx nvidx else Ok d
          else Ok d
      | None => Ok d
      end) nls d = Ok d' →
  (∀ i j, j ∈ nexts_of d i → j ∈ nexts_of d' i) ∧
  ∀ s j, Some s ∈ nls → s ≠ ""%string → dict !! s = Some j → j ≠ vidx →
         j ∈ nexts_of d' vidx.
Proof.
  induction nls as [|nl nls IH]; intros d d'.
  - intros [= <-]. split; [done|]. by intros s j ?%elem_of_nil.
  - intros (d1 & Hbody & Hrest)%for_each_cons_Ok. cbv beta in Hbody.
    destruct (IH d1 d' Hrest) as [Hmono Hall].
    assert (Hstep : (∀ i j, j ∈ nexts_of d i → j ∈ nexts_of d1 i) ∧
                    ∀ s j, nl = Some s → s ≠ ""%string → dict !! s = Some j →
                           j ≠ vidx → j ∈ nexts_of d1 vidx).
    { destruct nl as [s|]; [|injection Hbody as <-; by split].
      destruct (truthy (Some s)) eqn:Ht.
      - unfold getitem in Hbody. destruct (dict !! s) as [nvidx|] eqn:Hs;
          [simpl in Hbody|done].
        case_bool_decide as Hne.
        + apply set_add_spec in Hbody as [_ Hd1].
          split; [intros; apply Hd1; auto|].
          intros s' j [= <-] _ Hj Hjne. apply Hd1. right. split; [done|congruence].
        + injection Hbody as <-. split; [done|].
          intros s' j [= <-] _ Hj Hjne. congruence.
      - injection Hbody as <-. split; [done|]. intros s' j [= <-] Hs'.
        apply truthy_Some in Hs'. congruence. }
    destruct Hstep as [Hmono1 Hnl]. split; [by auto|].
    intros s j [Heq|Hin]%elem_of_cons Hs Hj Hne; [|by eapply Hall].
    apply Hmono. by eapply Hnl.
Qed.

Lemma link_layer_complete (pre : list string) (P N P' N' : gmap Z (gset Z)) l :
  prev_complete network dict inp pre P → next_complete network dict pre N →
  link_layer network inp dict (P, N) l = Ok (P', N') →
  prev_complete network dict inp (pre ++ [l]) P' ∧
  next_complete network dict (pre ++ [l]) N'.
Proof.
  intros HP HN. unfold link_layer, getitem.
  destruct (dict !! l) as [vidx|] eqn:Hl; [simpl|done].
  destruct (for_each _ (prev_layers network l) P) as [P1| |] eqn:Hprev; [simpl|done..].
  destruct (for_each _ (next_layers network l) N) as [N1| |] eqn:Hnext; [simpl|done..].
  intros [= <- <-].
  apply prev_loop_complete in Hprev as [HmonoP HallP].
  apply next_loop_complete in Hnext as [HmonoN HallN].
  split.
  - intros l0 i pl j [Hin| ->%list_elem_of_singleton]%elem_of_app Hi Hpl Hj Hne.
    + by apply HmonoP, (HP l0 i pl j).
    + assert (i = vidx) as -> by congruence. by apply (HallP pl j).
  - intros l0 i s j [Hin| ->%list_elem_of_singleton]%elem_of_app Hi Hs Hsne Hj Hne.
    + by apply HmonoN, (HN l0 i s j).
    + assert (i = vidx) as -> by congruence. by apply (HallN s j).
Qed.

Lemma for_each_link_layer_complete layers (P N P' N' : gmap Z (gset Z)) :
  for_each (link_layer network inp dict) layers (P, N) = Ok (P', N') →
  prev_complete network dict inp layers P' ∧ next_complete network dict layers N'.
Proof.
  intros Hloop.
  set (R := λ (pre : list string) (s : gmap Z (gset Z) * gmap Z (gset Z)),
         prev_complete network dict inp pre s.1 ∧ next_complete network dict pre s.2).
  apply (λ H1 H2, for_each_inv _ R H1 layers [] (P, N) (P', N') H2 Hloop).
  - intros pre [P0 N0] l [P1 N1] [HP0 HN0] Hbody.
    by apply (link_layer_complete pre P0 N0 P1 N1 l).
  - split; [by intros l i pl j ?%elem_of_nil|by intros l i s j ?%elem_of_nil].
Qed.

End LinkFacts.

(** ** The parts of the scheduling DAG *)

Lemma calc_sched_dag_parts network d :
  _calc_sched_dag network = Ok d →
  ∃ vset dict P N,
    build_vertex_set network = Ok vset ∧
    _topological_order network vset = Ok (dag_vertex_list d) ∧
    index_layers (dag_vertex_list d) = Ok dict ∧
    for_each (link_layer network (-1) dict) (net_iter network)
      (empty_sets (length (dag_vertex_list d)), empty_sets (length (dag_vertex_list d)))
    = Ok (P, N) ∧
    d = {| dag_input_vertex := -1;
           dag_vertex_list := dag_vertex_list d;
           dag_vertex_dict := (dict, {[ -1 := INPUT_LAYER_KEY network ]});
           dag_prev_dict := P;
           dag_next_dict := <[-1 := input_nexts (-1) P]> N |}.
Proof.
  unfold _calc_sched_dag.
  destruct (build_vertex_set network) as [vset| |] eqn:H1; simpl; [|intros [=]..].
  destruct (_topological_order network vset) as [order| |] eqn:H2; simpl;
    [|intros [=]..].
  destruct (index_layers order) as [dict| |] eqn:H3; simpl; [|intros [=]..].
  destruct (for_each _ _ _) as [[P N]| |] eqn:Hloop; simpl; [|intros [=]..].
  intros [= <-]. simpl. by exists vset, dict, P, N.
Qed.

(** The layers of the vertices of the list are the layers of the network. *)
Lemma calc_sched_dag_layers network d l :
  _calc_sched_dag network = Ok d →
  l ∈ net_iter network ↔ ∃ (a : nat) (u : vertex), dag_vertex_list d !! a = Some u ∧ l ∈ u.
Proof.
  intros (vset & dict & P & N & Hbuild & Horder & _)%calc_sched_dag_parts.
  pose proof (vs_layers _ _ _ (build_vertex_set_ok _ _ Hbuild)) as Hperm.
  destruct (topological_order_sets _ _ _ Horder) as [_ Hsame].
  rewrite <- Hperm, elem_of_concat. split.
  - intros (v & Hl & Hv). apply Hsame, list_elem_of_lookup in Hv as [a Ha]. eauto.
  - intros (a & u & Ha & Hl). exists u. split; [done|].
    apply Hsame. by eapply list_elem_of_lookup_2.
Qed.

Lemma calc_sched_dag_nodup network d :
  _calc_sched_dag network = Ok d → NoDup (dag_vertex_list d).
Proof.
  intros (vset & dict & P & N & _ & Horder & _)%calc_sched_dag_parts.
  by destruct (topological_order_sets _ _ _ Horder).
Qed.

(** * The ways the enumerator ends, whatever the adjacency is *)

(** [min] is called on a set that is not empty. *)
Lemma set_min_difference `{Countable A} (X : gset Z) (t : list Z) :
  isdisjoint X t || issubset X t = false →
  ∃ m, set_min (difference_tuple X t) = Ok m.
Proof.
  intros [_ Hsub]%orb_false_iff.
  destruct (decide (difference_tuple X t = ∅)) as [He|Hne].
  - exfalso. apply not_true_iff_false in Hsub. apply Hsub, issubset_true.
    intros x Hx. destruct (decide (x ∈ t)); [done|].
    assert (x ∈ difference_tuple X t) as Hin.
    { apply elem_of_difference. split; [done|by rewrite elem_of_list_to_set]. }
    rewrite He in Hin. by apply not_elem_of_empty in Hin.
  - apply set_choose_L in Hne as [j Hj]. by eapply set_min_nonempty.
Qed.

Section EnumeratorOutcome.

Variable dag_vertex_list : list vertex.
Variables dag_prev_dict dag_next_dict : gmap Z (gset Z).
Variable dag_input_vertex : Z.

Lemma check_rule3_raises vseg frontier idxs e :
  check_rule3 dag_next_dict vseg frontier idxs = R3Raise e →
  e = KeyError ∨ e = AssertionError 179.
Proof.
  induction idxs as [|idx rest IH]; simpl; [done|].
  unfold getitem. destruct (dag_next_dict !! idx) as [X|]; simpl;
    [|intros [= <-]; by left].
  destruct (isdisjoint X vseg || issubset X vseg) eqn:Hok; simpl; [done|].
  destruct (set_min_difference (A := Z) X vseg Hok) as [m ->].
  case_bool_decide; [done|]. intros [= <-]. by right.
Qed.

Lemma prev_union_raises vseg : ∀ acc,
  (∃ u, prev_union dag_prev_dict acc vseg = Ok u) ∨
  prev_union dag_prev_dict acc vseg = Raise KeyError.
Proof.
  induction vseg as [|i rest IH]; intros acc; simpl; [left; by eexists|].
  unfold getitem. destruct (dag_prev_dict !! i); simpl; [apply IH|by right].
Qed.

Lemma share_deps_raises vseg fp :
  (∃ sd, share_deps dag_prev_dict vseg fp = Ok sd) ∨
  share_deps dag_prev_dict vseg fp = Raise KeyError.
Proof.
  unfold share_deps. destruct vseg as [|i rest]; [left; by eexists|].
  destruct (prev_union_raises (i :: rest) (list_to_set (i :: rest))) as [[u ->]| ->];
    simpl; [left; by eexists|by right].
Qed.

Lemma share_deps_nil fp : share_deps dag_prev_dict [] fp = Ok true.
Proof. done. Qed.

(** The loop of a call that starts at [vertex_idx]. *)
Lemma vseg_loop_outcome rec vertex_idx (done : gset Z) :
  dag_input_vertex ∈ done →
  ∀ frontiers vseg svd,
    (∀ f, f ∈ frontiers → vertex_idx ≤ f) →
    (∀ f d svd', f ∈ frontiers → dag_input_vertex ∈ d → f + 1 ∉ svd' →
       call_outcome (f + 1) svd' (rec (f + 1) (Some d) svd').2) →
    vertex_idx ∉ svd →
    call_outcome vertex_idx svd
      (vseg_loop dag_prev_dict dag_next_dict rec vertex_idx done frontiers vseg svd).2.
Proof.
  intros Hinp frontiers.
  assert (Hfinish : ∀ svd, vertex_idx ∉ svd →
            call_outcome vertex_idx svd (vseg_finish vertex_idx svd).2).
  { intros svd Hsvd. unfold vseg_finish. rewrite bool_decide_false by done.
    left. eexists. split; [done|].
    intros j [?|Hj]%elem_of_union; [by left|].
    apply elem_of_singleton in Hj. right. lia. }
  induction frontiers as [|f rest IH]; intros vseg svd Hfr Hrec Hsvd; simpl;
    [by apply Hfinish|].
  assert (Hf : vertex_idx ≤ f) by (apply Hfr, elem_of_cons; by left).
  assert (Hrest : ∀ vseg' svd', vertex_idx ∉ svd' →
            call_outcome vertex_idx svd'
              (vseg_loop dag_prev_dict dag_next_dict rec vertex_idx done rest vseg' svd').2).
  { intros vseg' svd' Hsvd'. apply IH; [| |done].
    - intros f' Hf'. apply Hfr, elem_of_cons. by right.
    - intros f' d svd'' Hf'. apply Hrec, elem_of_cons. by right. }
  unfold getitem. destruct (dag_prev_dict !! f) as [fp|]; simpl; [|by right; left].
  destruct (share_deps_raises vseg fp) as [[sd Hsd]|Hsd]; rewrite Hsd; simpl;
    [|by right; left].
  destruct (negb sd || coupled_prevs vseg fp) eqn:Hbreak.
  { destruct vseg as [|i vseg]; [|by apply Hfinish].
    rewrite share_deps_nil in Hsd. injection Hsd as <-.
    by rewrite coupled_prevs_nil in Hbreak. }
  destruct (check_rule3 _ _ _ _) as [| |e] eqn:Hcheck; simpl.
  - case_bool_decide as Hdone; [by apply Hrest|].
    unfold gbind.
    destruct (Hrec f (done ∪ list_to_set (vseg ++ [f])) svd)
      as [(m & Hm & Hframe)|[Hm|Hm]];
      [apply elem_of_cons; by left|set_solver|done|rewrite Hm; simpl..];
      [|by right; left|by right; right].
    assert (Hnew : vertex_idx ∉ m).
    { intros [?|?]%Hframe; [done|lia]. }
    destruct (Hrest (vseg ++ [f]) m Hnew) as [(m' & Hm' & Hframe')|[Hm'|Hm']].
    + left. exists m'. split; [done|]. intros j [[?|?]%Hframe|?]%Hframe'; auto.
      right. lia.
    + by right; left.
    + by right; right.
  - by apply Hrest.
  - apply check_rule3_raises in Hcheck as [-> | ->]; [by right; left|by right; right].
Qed.

(** A call with fuel for the start indices that follow its own. *)
Lemma gen_vseg_outcome fuel : ∀ vertex_idx done svd,
  (0 < fuel)%nat →
  Z.of_nat (length dag_vertex_list) - vertex_idx < Z.of_nat fuel →
  vertex_idx ∉ (if not_done done then ∅ else svd) →
  call_outcome vertex_idx (if not_done done then ∅ else svd)
    (_gen_vseg dag_vertex_list dag_prev_dict dag_next_dict dag_input_vertex
       fuel vertex_idx done svd).2.
Proof.
  induction fuel as [|fuel IH]; intros vertex_idx dn svd Hpos Hfuel Hnew; [lia|].
  simpl.
  assert (Hloop : ∀ (d : gset Z) svd', dag_input_vertex ∈ d → vertex_idx ∉ svd' →
            call_outcome vertex_idx svd'
              (vseg_loop dag_prev_dict dag_next_dict
                 (_gen_vseg dag_vertex_list dag_prev_dict dag_next_dict
                    dag_input_vertex fuel)
                 vertex_idx d
                 (range vertex_idx (Z.of_nat (length dag_vertex_list))) [] svd').2).
  { intros d svd' Hd Hsvd'. apply vseg_loop_outcome; [done| | |done].
    - intros f Hf. unfold range in Hf. apply elem_of_seqZ in Hf. lia.
    - intros f d' svd'' Hf Hd' Hsvd''. unfold range in Hf. apply elem_of_seqZ in Hf.
      assert (Hnd : not_done (Some d') = false).
      { simpl. apply bool_decide_false. set_solver. }
      pose proof (IH (f + 1) (Some d') svd'') as Hcall. rewrite Hnd in Hcall.
      apply Hcall; [lia|lia|done]. }
  destruct (not_done dn) eqn:Hnd; simpl;
    case_bool_decide; (apply Hloop; [set_solver|done]).
Qed.

(** A pass: the call that starts at the first vertex, with a memo that
    the call resets. *)
Lemma gen_vseg_all_pass svd :
  pass_outcome
    (gen_vseg_all dag_vertex_list dag_prev_dict dag_next_dict dag_input_vertex svd).2.
Proof.
  unfold gen_vseg_all.
  destruct (gen_vseg_outcome (S (length dag_vertex_list)) 0 None svd)
    as [(m & Hm & _)|[Hm|Hm]]; [lia|lia|set_solver| | |].
  - left. by exists m.
  - by right; left.
  - by right; right.
Qed.

(** Over an adjacency that follows the order of the vertices, a pass
    leaves every start index in the memo. *)
Lemma gen_vseg_all_memo svd :
  topological_adjacency dag_prev_dict dag_next_dict (Z.of_nat (length dag_vertex_list)) →
  gen_vseg_all dag_vertex_list dag_prev_dict dag_next_dict dag_input_vertex svd
  = (all_runs dag_prev_dict dag_next_dict (Z.of_nat (length dag_vertex_list))
       (length dag_vertex_list),
     Ok (list_to_set (seqZ 0 (Z.of_nat (length dag_vertex_list) + 1)))).
Proof.
  intros Hadj.
  destruct (gen_vseg_spec _ _ _ dag_input_vertex Hadj
              (length dag_vertex_list) (S (length dag_vertex_list)) 0 None svd)
    as (memo1 & Hgen & Hmemo);
    [lia|lia|apply Nat.lt_succ_diag_r|intros j _; simpl; set_solver|].
  unfold gen_vseg_all. rewrite Hgen. f_equal. f_equal.
  apply set_eq. intros j. rewrite Hmemo, elem_of_list_to_set, elem_of_seqZ.
  simpl. set_solver by lia.
Qed.

End EnumeratorOutcome.

(** * Further properties of the sorter *)

(** X1.  [_topological_order] always ends, for every network and every
    vertex set: it returns an order, or it raises the assertion error of
    line 317 (a vertex is visited again) or of line 350 (a vertex was never
    reached).  The search never nests deeper than there are vertices,
    [seen.remove] always finds its vertex, and the assertion of line 351
    never fails. *)
Theorem topological_order_outcome (network : Network) (dag_vertex_set : list vertex) :
  (∃ order, _topological_order network dag_vertex_set = Ok order) ∨
  _topological_order network dag_vertex_set = Raise (AssertionError 317) ∨
  _topological_order network dag_vertex_set = Raise (AssertionError 350).
Proof. apply topological_order_ends. Qed.

(** X2.  The order [_topological_order] returns holds every vertex of
    the vertex set, nothing else, and no vertex twice: it is a permutation
    of a vertex set without repetition. *)
Theorem topological_order_vertices
    (network : Network) (dag_vertex_set order : list vertex) :
  _topological_order network dag_vertex_set = Ok order →
  NoDup order ∧
  (∀ v, v ∈ order ↔ v ∈ dag_vertex_set) ∧
  (NoDup dag_vertex_set → order ≡ₚ dag_vertex_set).
Proof.
  intros [Hnd Hall]%topological_order_sets.
  split; [done|]. split; [done|].
  intros Hvs. by apply NoDup_Permutation.
Qed.

Lemma topological_order_vertices_fan :
  _topological_order fan_network [["A"]; ["B"]; ["C"]; ["D"]]%string
  = Ok [["A"]; ["B"]; ["C"]; ["D"]]%string ∧
  NoDup ([["A"]; ["B"]; ["C"]; ["D"]]%string : list vertex) ∧
  (∀ v : vertex, v ∈ ([["A"]; ["B"]; ["C"]; ["D"]]%string : list vertex)
                 ↔ v ∈ ([["A"]; ["B"]; ["C"]; ["D"]]%string : list vertex)) ∧
  (NoDup ([["A"]; ["B"]; ["C"]; ["D"]]%string : list vertex) →
   ([["A"]; ["B"]; ["C"]; ["D"]]%string : list vertex)
   ≡ₚ [["A"]; ["B"]; ["C"]; ["D"]]%string).
Proof.
  split; [vm_compute; reflexivity|].
  apply (topological_order_vertices fan_network). vm_compute. reflexivity.
Defined.

(** X3.  When two different next layers of a vertex lie in the same
    unseen vertex, the visit of the vertex raises the assertion error of
    line 317: the unseen vertex stands twice in the list of the next
    vertices, and its second visit finds it visited.  So the constructor
    rejects the network in which a layer adds the outputs of a layer and
    of the layer before it. *)
Theorem dfs_repeated_next_vertex
    (network : Network) (dag_vertex_set : list vertex) (fuel : nat)
    (v w : vertex) (st : dfs_state) (l1 l2 : string) :
  dfs_cover dag_vertex_set st → v ∈ dag_vertex_set →
  (size (unseen st) < fuel)%nat →
  l1 ∈ dfs_next_layers network v → l2 ∈ dfs_next_layers network v → l1 ≠ l2 →
  w ∈ unseen st → w ≠ v → l1 ∈ w → l2 ∈ w →
  _dfs network fuel v st = Raise (AssertionError 317).
Proof.
  intros Hcover Hv Hfuel Hl1 Hl2 Hne Hw Hwv Hw1 Hw2.
  destruct (dfs_fuel network dag_vertex_set fuel v st Hcover Hv Hfuel) as [Hnf _].
  destruct (dfs_outcome network fuel v st) as [[st' Hok]|[Hraise|Hout]]; [|done..].
  apply dfs_visit_frame in Hok as [_ Hnd]. exfalso.
  apply (NoDup_bind_apart _ _ l1 l2 w Hnd); [by apply elem_of_reverse..|done| |];
    apply list_elem_of_filter; (split; [done|]); apply elem_of_elements; set_solver.
Qed.

Lemma dfs_repeated_next_vertex_residual :
  build_vertex_set residual_network = Ok residual_vertex_set ∧
  _dfs residual_network 3 ["A"%string] (dfs_start residual_vertex_set)
  = Raise (AssertionError 317) ∧
  _calc_sched_dag residual_network = Raise (AssertionError 317).
Proof.
  split; [vm_compute; reflexivity|]. split; [|vm_compute; reflexivity].
  apply (dfs_repeated_next_vertex residual_network residual_vertex_set 3
           ["A"%string] ["B"; "E"]%string (dfs_start residual_vertex_set)
           "B"%string "E"%string).
  - apply dfs_start_cover.
  - by_compute.
  - vm_compute. lia.
  - by_compute.
  - by_compute.
  - done.
  - by_compute.
  - done.
  - by_compute.
  - by_compute.
Defined.

(** * Further properties of the builder *)

Lemma sum_list_length_concat {A : Type} (L : list (list A)) :
  sum_list (length <$> L) = length (concat L).
Proof.
  induction L as [|l L IH]; [done|].
  rewrite fmap_cons. simpl. rewrite length_app. by f_equal.
Qed.

Section BuilderOutcome.

Variable network : Network.

Lemma conv_first_snoc (v : vertex) l :
  conv_first network v → isinstance_ConvLayer (net_getitem network l) = false →
  conv_first network (v ++ [l]).
Proof.
  intros Hv Hl i x Hx.
  destruct (decide (S i < length v)%nat) as [Hi|Hi].
  - rewrite lookup_app_l in Hx by done. by apply (Hv i).
  - rewrite lookup_app_r in Hx by lia.
    destruct (S i - length v)%nat; simpl in Hx; [|done]. by injection Hx as <-.
Qed.

Lemma add_layer_conv_first (dag dag' : list vertex) l :
  Forall (conv_first network) dag → add_layer network dag l = Ok dag' →
  Forall (conv_first network) dag'.
Proof.
  intros Hdag Hadd.
  destruct (isinstance_ConvLayer (net_getitem network l)) eqn:Hconv.
  - rewrite add_layer_conv in Hadd by done. injection Hadd as <-.
    apply Forall_app. split; [done|]. apply Forall_singleton. by intros [|i] x.
  - destruct (add_layer_cases network dag dag' l Hadd)
      as [->|(idx & v & Hv & _ & ->)].
    + apply Forall_app. split; [done|]. apply Forall_singleton. by intros [|i] x.
    + apply Forall_insert; [done|]. apply conv_first_snoc; [|done].
      rewrite Forall_forall in Hdag. apply Hdag. by eapply list_elem_of_lookup_2.
Qed.

(** The body of the loop, on vertices that are not empty: it adds the
    layer, or the layer is an orphan and the assertion of line 230 fails. *)
Lemma add_layer_outcome (dag : list vertex) l :
  Forall (λ v, v ≠ []) dag →
  (∃ dag', add_layer network dag l = Ok dag' ∧ ¬ orphan_layer network l) ∨
  (add_layer network dag l = Raise (AssertionError 230) ∧ orphan_layer network l).
Proof.
  intros Hne. unfold add_layer, orphan_layer.
  destruct (isinstance_ConvLayer _) eqn:Hconv.
  { left. eexists. split; [done|]. by intros [? _]. }
  destruct (prev_layers network l) as [|p ps] eqn:Hprevs.
  { right. by rewrite bool_decide_true by done. }
  rewrite <- Hprevs. rewrite prevs_nonempty by (by rewrite Hprevs).
  left. set (prevs := list_to_set (prev_layers network l) : gset (option string)).
  assert (Hfind : ∀ idxs, (∀ j, j ∈ idxs → (j < length dag)%nat) →
            (∃ idx v, find_merge network dag prevs idxs = Ok (Some idx) ∧
                      dag !! idx = Some v) ∨
            find_merge network dag prevs idxs = Ok None).
  { induction idxs as [|i idxs IH]; intros Hidxs; simpl; [by right|].
    destruct (lookup_lt_is_Some_2 dag i) as [v Hv];
      [apply Hidxs, elem_of_cons; by left|].
    rewrite Hv. destruct (can_merge_Ok network prevs v) as [b Hb].
    { rewrite Forall_forall in Hne. apply Hne. by eapply list_elem_of_lookup_2. }
    rewrite Hb. simpl. destruct b; [left; by exists i, v|].
    apply IH. intros j Hj. apply Hidxs, elem_of_cons. by right. }
  destruct (Hfind (reverse (seq 0 (length dag)))) as [(idx & v & -> & Hv)| ->]; simpl.
  - intros j Hj%elem_of_reverse%elem_of_seq. lia.
  - rewrite Hv. eexists. split; [done|]. rewrite Hprevs. by intros [_ ?].
  - eexists. split; [done|]. rewrite Hprevs. by intros [_ ?].
Qed.

Lemma for_each_add_layer_outcome layers : ∀ pre dag,
  vertex_set_ok network pre dag →
  (∃ dag', for_each (add_layer network) layers dag = Ok dag' ∧
           vertex_set_ok network (pre ++ layers) dag' ∧
           ∀ l, l ∈ layers → ¬ orphan_layer network l) ∨
  (for_each (add_layer network) layers dag = Raise (AssertionError 230) ∧
   ∃ l, l ∈ layers ∧ orphan_layer network l).
Proof.
  induction layers as [|l layers IH]; intros pre dag Hok; simpl.
  - left. exists dag. rewrite app_nil_r. split; [done|]. split; [done|].
    by intros l ?%elem_of_nil.
  - destruct (add_layer_outcome dag l (vs_nonempty _ _ _ Hok))
      as [(dag1 & Hadd & Hnot)|[Hadd Horphan]]; rewrite Hadd; simpl.
    + destruct (IH (pre ++ [l]) dag1) as [(dag' & Hloop & Hok' & Hnone)|[Hloop Hsome]].
      * by eapply add_layer_ok.
      * left. exists dag'. rewrite <- app_assoc in Hok'. split; [done|]. split; [done|].
        intros x [->|Hx]%elem_of_cons; [done|by apply Hnone].
      * right. split; [done|]. destruct Hsome as (x & Hx & Hox). exists x.
        split; [apply elem_of_cons; by right|done].
    + right. split; [done|]. exists l. split; [apply elem_of_cons; by left|done].
Qed.

Lemma vertex_set_ok_nil : vertex_set_ok network [] [].
Proof. split; by constructor. Qed.

End BuilderOutcome.

(** X4.  The vertices the builder returns partition the layers of the
    network: no vertex is empty and every layer is in the vertices once
    for each time the network lists it.  In a vertex only the first layer
    may be a [ConvLayer], so a [ConvLayer] is the first layer of its
    vertex, and every other layer of a vertex follows one of its previous
    layers, which has no other next layer. *)
Theorem build_vertex_set_vertices (network : Network) (dag_vertex_set : list vertex) :
  build_vertex_set network = Ok dag_vertex_set →
  Forall (λ v, v ≠ []) dag_vertex_set ∧
  concat dag_vertex_set ≡ₚ net_iter network ∧
  Forall (conv_first network) dag_vertex_set ∧
  Forall (chained network) dag_vertex_set ∧
  ∀ l, l ∈ net_iter network →
    isinstance_ConvLayer (net_getitem network l) = true →
    ∃ v rest, v ∈ dag_vertex_set ∧ v = l :: rest.
Proof.
  intros Hbuild.
  destruct (build_vertex_set_ok network _ Hbuild) as [Hne Hperm Hchained _].
  assert (Hconv : Forall (conv_first network) dag_vertex_set).
  { unfold build_vertex_set in Hbuild.
    destruct (for_each _ _ _) as [d| |] eqn:Hloop; simpl in Hbuild; [|done..].
    case_bool_decide; [|done]. injection Hbuild as <-.
    apply (for_each_Ok_inv _ (Forall (conv_first network)) _ _ _) with (3 := Hloop);
      [|constructor].
    intros s x s' Hs _. by apply add_layer_conv_first. }
  split; [done|]. split; [done|]. split; [done|]. split; [done|].
  intros l Hl Hisconv. rewrite <- Hperm in Hl.
  apply elem_of_concat in Hl as (v & Hlv & Hv). exists v.
  rewrite Forall_forall in Hconv. specialize (Hconv v Hv).
  apply list_elem_of_lookup in Hlv as [[|i] Hi].
  - destruct v as [|x rest]; [done|]. injection Hi as ->. by exists rest.
  - rewrite (Hconv i l Hi) in Hisconv. done.
Qed.

Lemma build_vertex_set_vertices_chain :
  build_vertex_set chain_network = Ok [["A"; "B"; "F"]]%string ∧
  Forall (λ v : vertex, v ≠ []) [["A"; "B"; "F"]]%string ∧
  concat [["A"; "B"; "F"]]%string ≡ₚ net_iter chain_network ∧
  Forall (conv_first chain_network) [["A"; "B"; "F"]]%string ∧
  Forall (chained chain_network) [["A"; "B"; "F"]]%string ∧
  ∀ l, l ∈ net_iter chain_network →
    isinstance_ConvLayer (net_getitem chain_network l) = true →
    ∃ (v : vertex) rest, v ∈ ([["A"; "B"; "F"]]%string : list vertex) ∧ v = l :: rest.
Proof.
  split; [vm_compute; reflexivity|].
  apply (build_vertex_set_vertices chain_network). vm_compute. reflexivity.
Defined.

(** X5.  The builder ends in one of two ways, and never otherwise: it
    returns the vertex set, when no layer of the network is an orphan (a
    layer that is not a [ConvLayer] and has no previous layer), or it
    raises the assertion error of line 230, when some layer is.  No
    vertex is ever empty when its tail is read, and the count of line 250
    always agrees. *)
Theorem build_vertex_set_outcome (network : Network) :
  ((∃ dag_vertex_set, build_vertex_set network = Ok dag_vertex_set) ∧
   ∀ l, l ∈ net_iter network → ¬ orphan_layer network l) ∨
  (build_vertex_set network = Raise (AssertionError 230) ∧
   ∃ l, l ∈ net_iter network ∧ orphan_layer network l).
Proof.
  unfold build_vertex_set.
  destruct (for_each_add_layer_outcome network (net_iter network) [] []
              (vertex_set_ok_nil network))
    as [(dag & -> & Hok & Hnone)|[-> Hsome]]; simpl; [|by right].
  left. split; [|done]. exists dag. rewrite bool_decide_true; [done|].
  rewrite sum_list_length_concat. by rewrite (vs_layers _ _ _ Hok).
Qed.

(** * Further properties of the scheduling DAG *)

(** X6.  In the scheduling DAG the constructor builds, [dag_vertex_dict]
    maps a layer name to the index of the vertex of [dag_vertex_list] that
    holds the layer, and the input vertex -1 to the input key of the
    network.  The names it maps are the layers of the network, and no
    layer is in two vertices of the list. *)
Theorem calc_sched_dag_vertex_dict (network : Network) (d : sched_dag) :
  _calc_sched_dag network = Ok d →
  dag_input_vertex d = -1 ∧
  (dag_vertex_dict d).2 = {[ -1 := INPUT_LAYER_KEY network ]} ∧
  (∀ l i, (dag_vertex_dict d).1 !! l = Some i ↔
     ∃ (a : nat) (u : vertex), dag_vertex_list d !! a = Some u ∧ l ∈ u ∧ i = Z.of_nat a) ∧
  (∀ l, l ∈ net_iter network ↔ is_Some ((dag_vertex_dict d).1 !! l)) ∧
  (∀ (a b : nat) (u v : vertex) l,
     dag_vertex_list d !! a = Some u → dag_vertex_list d !! b = Some v →
     l ∈ u → l ∈ v → a = b).
Proof.
  intros Hd.
  destruct (calc_sched_dag_parts _ _ Hd)
    as (vset & dict & P & N & Hbuild & Horder & Hdict & Hlinks & Heq).
  pose proof (index_layers_spec _ _ Hdict) as Hindex.
  rewrite Heq. simpl. split; [done|]. split; [done|]. split; [done|]. split.
  - intros l. rewrite (calc_sched_dag_layers _ _ l Hd). split.
    + intros (a & u & Ha & Hl). exists (Z.of_nat a). apply Hindex. eauto.
    + intros [i (a & u & Ha & Hl & _)%Hindex]. eauto.
  - intros a b u v l Ha Hb Hu Hv.
    assert (dict !! l = Some (Z.of_nat a)) as H1 by (apply Hindex; eauto).
    assert (dict !! l = Some (Z.of_nat b)) as H2 by (apply Hindex; eauto).
    rewrite H1 in H2. injection H2. lia.
Qed.

Lemma calc_sched_dag_vertex_dict_chain :
  _calc_sched_dag chain_network = Ok chain_dag ∧
  (dag_vertex_dict chain_dag).1 !! "F"%string = Some 0 ∧
  dag_input_vertex chain_dag = -1 ∧
  (dag_vertex_dict chain_dag).2 = {[ -1 := INPUT_LAYER_KEY chain_network ]} ∧
  (∀ l i, (dag_vertex_dict chain_dag).1 !! l = Some i ↔
     ∃ (a : nat) (u : vertex),
       dag_vertex_list chain_dag !! a = Some u ∧ l ∈ u ∧ i = Z.of_nat a) ∧
  (∀ l, l ∈ net_iter chain_network ↔ is_Some ((dag_vertex_dict chain_dag).1 !! l)) ∧
  (∀ (a b : nat) (u v : vertex) l,
     dag_vertex_list chain_dag !! a = Some u → dag_vertex_list chain_dag !! b = Some v →
     l ∈ u → l ∈ v → a = b).
Proof.
  split; [vm_compute; reflexivity|]. split; [vm_compute; reflexivity|].
  apply (calc_sched_dag_vertex_dict chain_network chain_dag). vm_compute. reflexivity.
Defined.

(** X7.  In the scheduling DAG the constructor builds, [dag_prev_dict]
    has an entry for every vertex index, [dag_next_dict] one for every
    vertex index and for the input vertex -1.  A previous vertex of a
    vertex is the input vertex or another vertex; a next vertex of a
    vertex is another vertex, never the input vertex; no vertex is its own
    previous or next vertex.  The next vertices of the input vertex are
    the vertices that have the input vertex as a previous vertex. *)
Theorem calc_sched_dag_adjacency_shape (network : Network) (d : sched_dag) :
  _calc_sched_dag network = Ok d →
  (∀ i, is_Some (dag_prev_dict d !! i) ↔ 0 ≤ i < Z.of_nat (length (dag_vertex_list d))) ∧
  (∀ i, is_Some (dag_next_dict d !! i) ↔ -1 ≤ i < Z.of_nat (length (dag_vertex_list d))) ∧
  (∀ i j, j ∈ prevs_of (dag_prev_dict d) i →
     0 ≤ i < Z.of_nat (length (dag_vertex_list d)) ∧
     -1 ≤ j < Z.of_nat (length (dag_vertex_list d)) ∧ j ≠ i) ∧
  (∀ i j, j ∈ nexts_of (dag_next_dict d) i →
     -1 ≤ i < Z.of_nat (length (dag_vertex_list d)) ∧
     0 ≤ j < Z.of_nat (length (dag_vertex_list d)) ∧ j ≠ i) ∧
  (∀ i, i ∈ nexts_of (dag_next_dict d) (-1) ↔ -1 ∈ prevs_of (dag_prev_dict d) i).
Proof.
  intros Hd.
  destruct (calc_sched_dag_parts _ _ Hd)
    as (vset & dict & P & N & Hbuild & Horder & Hdict & Hlinks & Heq).
  pose proof (index_layers_spec _ _ Hdict) as Hindex.
  destruct (for_each_link_layer_ok _ _ _ _ _ _ _ _
              (empty_sets_lookup _) (empty_sets_lookup _) Hlinks)
    as (Hprev & Hnext & HdomP & HdomN).
  set (n := Z.of_nat (length (dag_vertex_list d))) in *.
  assert (Hrange : ∀ l i, dict !! l = Some i → 0 ≤ i < n).
  { intros l i (a & u & Ha & _ & ->)%Hindex. apply lookup_lt_Some in Ha. lia. }
  assert (HP : ∀ i, is_Some (P !! i) ↔ 0 ≤ i < n).
  { intros i. by rewrite <- elem_of_dom, HdomP, empty_sets_dom. }
  assert (HN : ∀ i, is_Some (N !! i) ↔ 0 ≤ i < n).
  { intros i. by rewrite <- elem_of_dom, HdomN, empty_sets_dom. }
  assert (Hinput : ∀ i, i ∈ input_nexts (-1) P ↔ -1 ∈ prevs_of P i).
  { intros i. unfold input_nexts, prevs_of. rewrite elem_of_dom. split.
    - intros [X [HX Hin]%map_lookup_filter_Some]. by rewrite HX.
    - destruct (P !! i) as [X|] eqn:HX; simpl; [|by intros ?%not_elem_of_empty].
      intros Hin. exists X. by apply map_lookup_filter_Some. }
  assert (Hprevs : ∀ i j, j ∈ prevs_of P i → 0 ≤ i < n ∧ -1 ≤ j < n ∧ j ≠ i).
  { intros i j (l & _ & Hl & Hne & Hsrc)%Hprev. apply Hrange in Hl.
    split; [done|]. split; [|done].
    destruct Hsrc as [->|(s & _ & Hs%Hrange)]; lia. }
  rewrite Heq. simpl. split; [done|]. split; [|split; [done|split]].
  - intros i. destruct (decide (i = -1)) as [->|Hi].
    + rewrite lookup_insert_eq. split; [lia|by eexists].
    + rewrite lookup_insert_ne by done. rewrite HN. lia.
  - intros i j. unfold nexts_of. destruct (decide (i = -1)) as [->|Hi].
    + rewrite lookup_insert_eq. simpl. intros Hj%Hinput%Hprevs. lia.
    + rewrite lookup_insert_ne by done.
      intros (l & _ & Hl%Hrange & Hne & s & _ & Hs%Hrange)%Hnext. lia.
  - intros i. unfold nexts_of at 1. rewrite lookup_insert_eq. simpl. apply Hinput.
Qed.

Lemma calc_sched_dag_adjacency_shape_fan :
  _calc_sched_dag fan_network = Ok fan_dag ∧
  (∀ i, is_Some (dag_prev_dict fan_dag !! i) ↔ 0 ≤ i < 4) ∧
  (∀ i, is_Some (dag_next_dict fan_dag !! i) ↔ -1 ≤ i < 4) ∧
  (∀ i j, j ∈ prevs_of (dag_prev_dict fan_dag) i → 0 ≤ i < 4 ∧ -1 ≤ j < 4 ∧ j ≠ i) ∧
  (∀ i j, j ∈ nexts_of (dag_next_dict fan_dag) i → -1 ≤ i < 4 ∧ 0 ≤ j < 4 ∧ j ≠ i) ∧
  (∀ i, i ∈ nexts_of (dag_next_dict fan_dag) (-1) ↔ -1 ∈ prevs_of (dag_prev_dict fan_dag) i).
Proof.
  split; [vm_compute; reflexivity|].
  apply (calc_sched_dag_adjacency_shape fan_network fan_dag). vm_compute. reflexivity.
Defined.

(** X8.  The order of the vertices is a topological order of the
    adjacency: for a well formed network whose construction succeeds,
    every previous vertex of a vertex has a smaller index (the input
    vertex, -1, included) and every next vertex a larger one. *)
Theorem constructed_adjacency_topological
    (net : Network) (rank : string → nat) (batch : Z) (res : Resource) (mud : number)
    (self : InterLayerPipeline) :
  network_ok net rank →
  __init__ (PyNetwork net) batch (PyResource res) mud = Ok self →
  ∀ i j,
    (j ∈ prevs_of (dag_prev_dict (dag self)) i → j < i) ∧
    (j ∈ nexts_of (dag_next_dict (dag self)) i → i < j).
Proof.
  intros Hnet Hinit i j.
  destruct (constructed_adjacency _ _ Hnet _ _ _ _ Hinit) as (_ & Hprev & Hnext).
  split; [apply Hprev|apply Hnext].
Qed.

Lemma constructed_adjacency_topological_fan :
  network_ok fan_network (declaration_rank fan_network) ∧
  __init__ (PyNetwork fan_network) 1 (PyResource example_resource)
    max_util_drop_default = Ok fan_pipeline ∧
  nexts_of (dag_next_dict (dag fan_pipeline)) 0 = {[ 1; 2; 3 ]} ∧
  ∀ i j,
    (j ∈ prevs_of (dag_prev_dict (dag fan_pipeline)) i → j < i) ∧
    (j ∈ nexts_of (dag_next_dict (dag fan_pipeline)) i → i < j).
Proof.
  split; [apply network_okb_sound; vm_compute; reflexivity|].
  split; [apply init_pipeline_of; [done|vm_compute; reflexivity]|].
  split; [vm_compute; reflexivity|].
  apply (constructed_adjacency_topological fan_network (declaration_rank fan_network)
           1 example_resource max_util_drop_default).
  - apply network_okb_sound. vm_compute. reflexivity.
  - apply init_pipeline_of; [done|vm_compute; reflexivity].
Defined.

(** X9.  For a well formed network whose construction succeeds, the
    adjacency is the graph of the layers, lifted to the vertices: a vertex
    is a next vertex of another exactly when it holds a next layer of one
    of its layers, and exactly then the other is one of its previous
    vertices.  So [dag_next_dict] and [dag_prev_dict] are converse
    relations, the input vertex included, and a vertex with a layer fed by
    the input of the network has the input vertex as a previous vertex. *)
Theorem constructed_adjacency_edges
    (net : Network) (rank : string → nat) (batch : Z) (res : Resource) (mud : number)
    (self : InterLayerPipeline) :
  network_ok net rank →
  __init__ (PyNetwork net) batch (PyResource res) mud = Ok self →
  (∀ (a b : nat) (u v : vertex),
     dag_vertex_list (dag self) !! a = Some u →
     dag_vertex_list (dag self) !! b = Some v →
     (Z.of_nat b ∈ nexts_of (dag_next_dict (dag self)) (Z.of_nat a) ↔ vedge net u v) ∧
     (Z.of_nat a ∈ prevs_of (dag_prev_dict (dag self)) (Z.of_nat b) ↔ vedge net u v)) ∧
  (∀ i j, j ∈ nexts_of (dag_next_dict (dag self)) i ↔
          i ∈ prevs_of (dag_prev_dict (dag self)) j) ∧
  (∀ (b : nat) (v : vertex) l pl,
     dag_vertex_list (dag self) !! b = Some v → l ∈ v →
     pl ∈ prev_layers net l → truthy pl = false →
     -1 ∈ prevs_of (dag_prev_dict (dag self)) (Z.of_nat b)).
Proof.
  intros Hnet Hinit.
  pose proof (constructed_dag _ _ _ _ _ Hinit) as Hd.
  destruct (calc_sched_dag_parts _ _ Hd)
    as (vset & dict & P & N & Hbuild & Horder & Hdict & Hlinks & Heq).
  pose proof (index_layers_spec _ _ Hdict) as Hindex.
  pose proof (calc_sched_dag_nodup _ _ Hd) as Hnd.
  pose proof (λ l, calc_sched_dag_layers _ _ l Hd) as Hlayers.
  destruct (for_each_link_layer_ok _ _ _ _ _ _ _ _
              (empty_sets_lookup _) (empty_sets_lookup _) Hlinks)
    as (Hprev & Hnext & HdomP & HdomN).
  destruct (for_each_link_layer_complete _ _ _ _ _ _ _ _ Hlinks) as [HPc HNc].
  set (order := dag_vertex_list (dag self)) in *.
  assert (Hat : ∀ (a : nat) (u : vertex) l i,
            order !! a = Some u → l ∈ u → dict !! l = Some i → i = Z.of_nat a).
  { intros a u l i Ha Hl Hi.
    assert (dict !! l = Some (Z.of_nat a)) by (apply Hindex; eauto). congruence. }
  assert (Hin : ∀ (a : nat) (u : vertex) l, order !! a = Some u → l ∈ u →
            l ∈ net_iter net ∧ l ≠ ""%string ∧ dict !! l = Some (Z.of_nat a)).
  { intros a u l Ha Hl. assert (l ∈ net_iter net) by (apply Hlayers; eauto).
    split; [done|]. split; [by apply (net_names _ _ Hnet)|]. apply Hindex. eauto. }
  assert (Hnext_iff : ∀ (a b : nat) (u v : vertex),
            order !! a = Some u → order !! b = Some v →
            Z.of_nat b ∈ nexts_of N (Z.of_nat a) ↔ vedge net u v).
  { intros a b u v Ha Hb. split.
    - intros (l & _ & Hl & Hne & s & Hs & Hsj)%Hnext.
      apply Hindex in Hl as (a' & u' & Ha' & Hlu & Heqa).
      apply Hindex in Hsj as (b' & v' & Hb' & Hsv & Heqb).
      assert (a' = a) as -> by lia. assert (b' = b) as -> by lia.
      assert (u' = u) as -> by congruence. assert (v' = v) as -> by congruence.
      split; [intros ->; apply Hne; f_equal; by eapply NoDup_lookup|].
      by exists l, s.
    - intros [Huv (l & s & Hl & Hs & Hls)].
      destruct (Hin a u l Ha Hl) as (Hlnet & _ & Hli).
      destruct (Hin b v s Hb Hs) as (_ & Hsne & Hsi).
      apply (HNc l (Z.of_nat a) s (Z.of_nat b)); [done..|].
      intros Heqab. apply Huv. assert (a = b) as -> by lia. congruence. }
  assert (Hprev_iff : ∀ (a b : nat) (u v : vertex),
            order !! a = Some u → order !! b = Some v →
            Z.of_nat a ∈ prevs_of P (Z.of_nat b) ↔ vedge net u v).
  { intros a b u v Ha Hb. split.
    - intros (l & _ & Hl & Hne & Hsrc)%Hprev.
      destruct Hsrc as [?|(s & Hs & Hsj)]; [lia|].
      apply Hindex in Hl as (b' & v' & Hb' & Hlv & Heqb).
      apply Hindex in Hsj as (a' & u' & Ha' & Hsu & Heqa).
      assert (a' = a) as -> by lia. assert (b' = b) as -> by lia.
      assert (u' = u) as -> by congruence. assert (v' = v) as -> by congruence.
      split; [intros ->; apply Hne; f_equal; by eapply NoDup_lookup|].
      exists s, l. split; [done|]. split; [done|].
      apply (net_prev_next _ _ Hnet); [by apply (Hin a u)|by apply (Hin b v)|done].
    - intros [Huv (l & s & Hl & Hs & Hls)].
      destruct (Hin a u l Ha Hl) as (Hlnet & Hlne & Hli).
      destruct (Hin b v s Hb Hs) as (Hsnet & _ & Hsi).
      apply (HPc s (Z.of_nat b) (Some l) (Z.of_nat a)); [done..| | |].
      + by apply (net_prev_next _ _ Hnet).
      + unfold prev_index. by rewrite (proj2 (truthy_Some l) Hlne).
      + intros Heqab. apply Huv. assert (a = b) as -> by lia. congruence. }
  assert (Hinput : ∀ i, i ∈ input_nexts (-1) P ↔ -1 ∈ prevs_of P i).
  { intros i. unfold input_nexts, prevs_of. rewrite elem_of_dom. split.
    - intros [X [HX Hi]%map_lookup_filter_Some]. by rewrite HX.
    - destruct (P !! i) as [X|] eqn:HX; simpl; [|by intros ?%not_elem_of_empty].
      intros Hi. exists X. by apply map_lookup_filter_Some. }
  assert (Hvertex : ∀ l i, dict !! l = Some i →
            ∃ (a : nat) (u : vertex), order !! a = Some u ∧ i = Z.of_nat a).
  { intros l i (a & u & Ha & _ & ->)%Hindex. eauto. }
  rewrite Heq. simpl. split; [|split].
  - intros a b u v Ha Hb. split; [|by apply Hprev_iff].
    unfold nexts_of. rewrite lookup_insert_ne by lia. by apply Hnext_iff.
  - intros i j. unfold nexts_of at 1. destruct (decide (i = -1)) as [->|Hi].
    + rewrite lookup_insert_eq. simpl. apply Hinput.
    + rewrite lookup_insert_ne by done. fold (nexts_of N i). split.
      * intros Hj. destruct (Hnext i j Hj) as (l & _ & Hl & _ & s & _ & Hs).
        destruct (Hvertex _ _ Hl) as (a & u & Ha & ->).
        destruct (Hvertex _ _ Hs) as (b & v & Hb & ->).
        apply (Hprev_iff a b u v Ha Hb). by apply (Hnext_iff a b u v Ha Hb).
      * intros Hj. destruct (Hprev j i Hj) as (l & _ & Hl & _ & Hsrc).
        destruct Hsrc as [?|(s & _ & Hs)]; [done|].
        destruct (Hvertex _ _ Hl) as (b & v & Hb & ->).
        destruct (Hvertex _ _ Hs) as (a & u & Ha & ->).
        apply (Hnext_iff a b u v Ha Hb). by apply (Hprev_iff a b u v Ha Hb).
  - intros b v l pl Hb Hl Hpl Hfalse.
    destruct (Hin b v l Hb Hl) as (Hlnet & _ & Hli).
    apply (HPc l (Z.of_nat b) pl (-1)); [done..| |lia].
    unfold prev_index. destruct pl as [s|]; [|done]. by rewrite Hfalse.
Qed.

Lemma constructed_adjacency_edges_fan :
  network_ok fan_network (declaration_rank fan_network) ∧
  __init__ (PyNetwork fan_network) 1 (PyResource example_resource)
    max_util_drop_default = Ok fan_pipeline ∧
  (∀ (a b : nat) (u v : vertex),
     dag_vertex_list (dag fan_pipeline) !! a = Some u →
     dag_vertex_list (dag fan_pipeline) !! b = Some v →
     (Z.of_nat b ∈ nexts_of (dag_next_dict (dag fan_pipeline)) (Z.of_nat a)
      ↔ vedge fan_network u v) ∧
     (Z.of_nat a ∈ prevs_of (dag_prev_dict (dag fan_pipeline)) (Z.of_nat b)
      ↔ vedge fan_network u v)) ∧
  (∀ i j, j ∈ nexts_of (dag_next_dict (dag fan_pipeline)) i ↔
          i ∈ prevs_of (dag_prev_dict (dag fan_pipeline)) j) ∧
  (∀ (b : nat) (v : vertex) l pl,
     dag_vertex_list (dag fan_pipeline) !! b = Some v → l ∈ v →
     pl ∈ prev_layers fan_network l → truthy pl = false →
     -1 ∈ prevs_of (dag_prev_dict (dag fan_pipeline)) (Z.of_nat b)).
Proof.
  split; [apply network_okb_sound; vm_compute; reflexivity|].
  split; [apply init_pipeline_of; [done|vm_compute; reflexivity]|].
  apply (constructed_adjacency_edges fan_network (declaration_rank fan_network)
           1 example_resource max_util_drop_default).
  - apply network_okb_sound. vm_compute. reflexivity.
  - apply init_pipeline_of; [done|vm_compute; reflexivity].
Defined.

(** * Further properties of the enumerator *)

(** X10.  A pass of the enumerator, over any vertex list and any
    adjacency dictionaries, ends normally or raises a [KeyError] (a
    dictionary lacks a vertex) or the assertion error of line 179.  It
    never fails the assertion of line 161 (the first frontier always
    enters the empty vseg) nor the one of line 193 (no start index is
    explored twice), [min] is never called on an empty set, and the
    recursion is never deeper than the number of the vertices plus one. *)
Theorem gen_vseg_all_outcome
    (dag_vertex_list : list vertex) (dag_prev_dict dag_next_dict : gmap Z (gset Z))
    (dag_input_vertex : Z) (memo : gset Z) :
  (∃ memo', outcome (gen_vseg_all dag_vertex_list dag_prev_dict dag_next_dict
                       dag_input_vertex memo) = Ok memo') ∨
  outcome (gen_vseg_all dag_vertex_list dag_prev_dict dag_next_dict
             dag_input_vertex memo) = Raise KeyError ∨
  outcome (gen_vseg_all dag_vertex_list dag_prev_dict dag_next_dict
             dag_input_vertex memo) = Raise (AssertionError 179).
Proof. apply gen_vseg_all_pass. Qed.

(** X11.  For a well formed network whose construction succeeds, a pass
    of the enumerator yields the vseg (i,) of every vertex index i, leaves
    in the memo every start index from 0 to the number of vertices, and
    does not depend on the memo an earlier pass has left: a pass can be
    made again, with the same vsegs. *)
Theorem gen_vseg_pass_restarts
    (net : Network) (rank : string → nat) (batch : Z) (res : Resource) (mud : number)
    (self : InterLayerPipeline) (memo : gset Z) :
  network_ok net rank →
  __init__ (PyNetwork net) batch (PyResource res) mud = Ok self →
  ∃ vsegs,
    gen_vseg_all (dag_vertex_list (dag self)) (dag_prev_dict (dag self))
      (dag_next_dict (dag self)) (dag_input_vertex (dag self)) memo
    = (vsegs, Ok (list_to_set (seqZ 0 (Z.of_nat (length (dag_vertex_list (dag self))) + 1)))) ∧
    (∀ i, 0 ≤ i < Z.of_nat (length (dag_vertex_list (dag self))) → [i] ∈ vsegs) ∧
    (∀ memo',
       gen_vseg_all (dag_vertex_list (dag self)) (dag_prev_dict (dag self))
         (dag_next_dict (dag self)) (dag_input_vertex (dag self)) memo'
       = gen_vseg_all (dag_vertex_list (dag self)) (dag_prev_dict (dag self))
           (dag_next_dict (dag self)) (dag_input_vertex (dag self)) memo).
Proof.
  intros Hnet Hinit.
  pose proof (constructed_adjacency _ _ Hnet _ _ _ _ Hinit) as Hadj.
  eexists. split; [by apply gen_vseg_all_memo|]. split; [|done].
  - intros i Hi. apply (elem_of_all_runs _ _ _ Hadj); [lia|]. exists i, 0%nat.
    split; [lia|]. split; [lia|]. split; [done|]. split; [apply chain_ok_0|].
    by apply (rule3_ok_single (dag_vertex_list (dag self)) _ _ Hadj).
Qed.

Lemma gen_vseg_pass_restarts_fan :
  network_ok fan_network (declaration_rank fan_network) ∧
  __init__ (PyNetwork fan_network) 1 (PyResource example_resource)
    max_util_drop_default = Ok fan_pipeline ∧
  yields (gen_vseg_all (dag_vertex_list (dag fan_pipeline))
            (dag_prev_dict (dag fan_pipeline)) (dag_next_dict (dag fan_pipeline))
            (dag_input_vertex (dag fan_pipeline)) {[ 2 ]})
  = [[0]; [1]; [2]; [3]; [2; 3]; [1; 2]; [1; 2; 3]; [0; 1; 2; 3]] ∧
  ∃ vsegs,
    gen_vseg_all (dag_vertex_list (dag fan_pipeline)) (dag_prev_dict (dag fan_pipeline))
      (dag_next_dict (dag fan_pipeline)) (dag_input_vertex (dag fan_pipeline)) {[ 2 ]}
    = (vsegs,
       Ok (list_to_set (seqZ 0 (Z.of_nat (length (dag_vertex_list (dag fan_pipeline))) + 1)))) ∧
    (∀ i, 0 ≤ i < Z.of_nat (length (dag_vertex_list (dag fan_pipeline))) → [i] ∈ vsegs) ∧
    (∀ memo',
       gen_vseg_all (dag_vertex_list (dag fan_pipeline)) (dag_prev_dict (dag fan_pipeline))
         (dag_next_dict (dag fan_pipeline)) (dag_input_vertex (dag fan_pipeline)) memo'
       = gen_vseg_all (dag_vertex_list (dag fan_pipeline))
           (dag_prev_dict (dag fan_pipeline)) (dag_next_dict (dag fan_pipeline))
           (dag_input_vertex (dag fan_pipeline)) {[ 2 ]}).
Proof.
  split; [apply network_okb_sound; vm_compute; reflexivity|].
  split; [apply init_pipeline_of; [done|vm_compute; reflexivity]|].
  split; [vm_compute; reflexivity|].
  apply (gen_vseg_pass_restarts fan_network (declaration_rank fan_network)
           1 example_resource max_util_drop_default).
  - apply network_okb_sound. vm_compute. reflexivity.
  - apply init_pipeline_of; [done|vm_compute; reflexivity].
Defined.

(** * Further properties of the segment generator *)

Section GeneratorFacts.

Variable validator : segment → Network → Z → Resource → number → bool.
Variable self : InterLayerPipeline.

(** The first loop yields the segments of all the layers, or stops at
    the first layer whose segment the validator rejects. *)
Lemma gen_layer_segments_cases layers :
  (gen_layer_segments validator self layers = (layer_segments validator self layers, Ok ()) ∧
   ∀ l, l ∈ layers → accepts validator self [[l]]) ∨
  (∃ pre l post, layers = pre ++ l :: post ∧
     (∀ l', l' ∈ pre → accepts validator self [[l']]) ∧
     ¬ accepts validator self [[l]] ∧
     gen_layer_segments validator self layers
     = (layer_segments validator self pre, Raise (AssertionError 76))).
Proof.
  induction layers as [|x layers IH].
  - left. split; [done|]. by intros l ?%elem_of_nil.
  - destruct (validator [[x]] (network self) (batch_size self) (resource self)
                (max_util_drop self)) eqn:Hx.
    + destruct IH as [[Hgen Hall]|(pre & l & post & -> & Hpre & Hl & Hgen)].
      * left. split; [simpl; by rewrite Hx, Hgen|].
        intros l [->|?]%elem_of_cons; [done|by apply Hall].
      * right. exists (x :: pre), l, post. split; [done|]. split.
        { intros l' [->|?]%elem_of_cons; [done|by apply Hpre]. }
        split; [done|]. simpl. by rewrite Hx, Hgen.
    + right. exists [], x, layers. split; [done|]. split; [by intros l' ?%elem_of_nil|].
      split; [unfold accepts; by rewrite Hx|]. simpl. by rewrite Hx.
Qed.

(** The segments of a call: those of the layers, and the candidates of
    runs of vertices. *)
Lemma gen_segment_elem options sgm :
  sgm ∈ yields (gen_segment validator self options) →
  valid sgm = true ∧ sgm = new_PipelineSegment validator self (seg sgm) ∧
  ((∃ layer, layer ∈ net_iter (network self) ∧ seg sgm = [[layer]]) ∨
   ∃ (s : Z) (k : nat) c,
     0 ≤ s ∧ run s k ∈ yields (self_gen_vseg self) ∧
     seg_cands_of self options (run s k) = Ok c ∧ seg sgm ∈ c).
Proof.
  intros Hin. unfold gen_segment in Hin.
  apply gbind_elem_of in Hin as [Hin|(_ & _ & Hin)].
  - pose proof (gen_layer_segments_valid _ _ _ _ Hin) as [? (l & ? & ?)].
    split; [done|]. split; [|left; eauto].
    destruct (gen_layer_segments_prefix validator self (net_iter (network self)))
      as [n Hn].
    rewrite Hn in Hin. unfold layer_segments in Hin.
    by apply list_elem_of_fmap in Hin as (l' & -> & _).
  - apply gen_pipelined_elem in Hin as [? (vseg & c & sg & Hvseg & Hc & Hsg & ->)].
    split; [done|]. split; [done|]. right.
    pose proof (gen_vseg_runs (dag_vertex_list (dag self)) (dag_prev_dict (dag self))
                  (dag_next_dict (dag self)) (dag_input_vertex (dag self))
                  (S (length (dag_vertex_list (dag self)))) 0 None
                  (seg_vertex_done self)) as Hruns.
    rewrite Forall_forall in Hruns. destruct (Hruns vseg Hvseg) as (s & k & Hs & ->).
    by exists s, k, c.
Qed.

(** The candidates of a vseg, by option. *)
Lemma seg_cands_of_elem options vseg c sg :
  seg_cands_of self options vseg = Ok c → sg ∈ c →
  ∃ vs, mapM (list_getitem (dag_vertex_list (dag self))) vseg = Ok vs ∧
    ((partition_interlayer options = true ∧ sg = vs) ∨
     (hw_gbuf_save_writeback options = true ∧ sg = [concat vs])).
Proof.
  unfold seg_cands_of. destruct options as [pi hw]. simpl.
  destruct pi, hw; simpl;
    [| | |intros [= <-] Hsg; by apply elem_of_nil in Hsg];
    (destruct (mapM _ vseg) as [vs| |]; simpl; [|done..]);
    intros [= <-]; rewrite ?cands_add_elem; intros Hsg; exists vs; (split; [done|]).
  - destruct Hsg as [[?%elem_of_nil| ->]| ->]; [done|by left|by right].
  - destruct Hsg as [?%elem_of_nil| ->]; [done|by left].
  - destruct Hsg as [?%elem_of_nil| ->]; [done|by right].
Qed.

Lemma seg_cands_of_run_elem options (s : Z) (k : nat) :
  0 ≤ s → s + Z.of_nat k < Z.of_nat (length (dag_vertex_list (dag self))) →
  ∃ c, seg_cands_of self options (run s k) = Ok c ∧
    (partition_interlayer options = true →
     vertices_of_run (dag_vertex_list (dag self)) (Z.to_nat s) k ∈ c) ∧
    (hw_gbuf_save_writeback options = true →
     [concat (vertices_of_run (dag_vertex_list (dag self)) (Z.to_nat s) k)] ∈ c).
Proof.
  intros Hs Hk. unfold seg_cands_of, run. rewrite mapM_getitem_run_Ok by done.
  fold (vertices_of_run (dag_vertex_list (dag self)) (Z.to_nat s) k).
  destruct options as [[] []]; simpl; eexists; (split; [done|]);
    rewrite ?cands_add_elem; split; intros; auto; done.
Qed.

End GeneratorFacts.

(** The layers of a run of vertices stand together in the list of the
    layers. *)
Lemma vertices_of_run_infix (order : list vertex) (v k : nat) :
  concat order
  = concat (take v order) ++ concat (vertices_of_run order v k)
    ++ concat (drop (S k) (drop v order)).
Proof.
  unfold vertices_of_run. rewrite <- !concat_app, take_drop.
  by rewrite take_drop.
Qed.

(** X12.  For a well formed network whose construction succeeds, a call
    of [gen_segment] ends in one of two ways: normally, with every start
    index in the memo, when the validator accepts the single-layer segment
    of every layer; or with the assertion error of line 76, when it rejects
    one.  It raises no [KeyError] and no [IndexError], whatever the
    options are. *)
Theorem gen_segment_ends
    (validator : segment → Network → Z → Resource → number → bool)
    (net : Network) (rank : string → nat) (batch : Z) (res : Resource) (mud : number)
    (self : InterLayerPipeline) (options : Options) :
  network_ok net rank →
  __init__ (PyNetwork net) batch (PyResource res) mud = Ok self →
  (outcome (gen_segment validator self options)
   = Ok (list_to_set (seqZ 0 (Z.of_nat (length (dag_vertex_list (dag self))) + 1))) ∧
   ∀ l, l ∈ net_iter net → accepts validator self [[l]]) ∨
  (outcome (gen_segment validator self options) = Raise (AssertionError 76) ∧
   ∃ l, l ∈ net_iter net ∧ ¬ accepts validator self [[l]]).
Proof.
  intros Hnet Hinit.
  pose proof (constructed_network _ _ _ _ _ Hinit) as Hnetwork.
  pose proof (constructed_adjacency _ _ Hnet _ _ _ _ Hinit) as Hadj.
  unfold gen_segment, outcome, gbind.
  destruct (gen_layer_segments_cases validator self (net_iter (network self)))
    as [[-> Hall]|(pre & l & post & Hsplit & _ & Hl & ->)]; simpl.
  - left. rewrite Hnetwork in Hall. split; [|done].
    unfold self_gen_vseg. rewrite gen_vseg_all_memo by done. simpl.
    rewrite gen_pipelined_Ok; [done|].
    intros vseg (s & k & Hs & Hk & -> & _)%(elem_of_all_runs _ _ _ Hadj); [|lia].
    apply seg_cands_of_run_Ok; lia.
  - right. split; [done|]. exists l. split; [|done].
    rewrite <- Hnetwork, Hsplit. apply elem_of_app. right. apply elem_of_cons. by left.
Qed.

Lemma gen_segment_ends_fan :
  network_ok fan_network (declaration_rank fan_network) ∧
  __init__ (PyNetwork fan_network) 1 (PyResource example_resource)
    max_util_drop_default = Ok fan_pipeline ∧
  outcome (gen_segment reject_B fan_pipeline
             {| partition_interlayer := true; hw_gbuf_save_writeback := true |})
  = Raise (AssertionError 76) ∧
  outcome (gen_segment accept_all fan_pipeline
             {| partition_interlayer := true; hw_gbuf_save_writeback := true |})
  = Ok {[ 0; 1; 2; 3; 4 ]} ∧
  ((outcome (gen_segment accept_all fan_pipeline
               {| partition_interlayer := true; hw_gbuf_save_writeback := true |})
    = Ok (list_to_set
            (seqZ 0 (Z.of_nat (length (dag_vertex_list (dag fan_pipeline))) + 1))) ∧
    ∀ l, l ∈ net_iter fan_network → accepts accept_all fan_pipeline [[l]]) ∨
   (outcome (gen_segment accept_all fan_pipeline
               {| partition_interlayer := true; hw_gbuf_save_writeback := true |})
    = Raise (AssertionError 76) ∧
    ∃ l, l ∈ net_iter fan_network ∧ ¬ accepts accept_all fan_pipeline [[l]])).
Proof.
  split; [apply network_okb_sound; vm_compute; reflexivity|].
  split; [apply init_pipeline_of; [done|vm_compute; reflexivity]|].
  split; [vm_compute; reflexivity|]. split; [vm_compute; reflexivity|].
  apply (gen_segment_ends accept_all fan_network (declaration_rank fan_network)
           1 example_resource max_util_drop_default).
  - apply network_okb_sound. vm_compute. reflexivity.
  - apply init_pipeline_of; [done|vm_compute; reflexivity].
Defined.

(** X13.  For a well formed network whose construction succeeds, every
    segment a call of [gen_segment] yields is accepted by the validator,
    has at least one stage and no empty stage, holds no layer twice, and
    its layers, stage after stage, stand together and in the same order in
    [ordered_layer_list]. *)
Theorem gen_segment_layers_consecutive
    (validator : segment → Network → Z → Resource → number → bool)
    (net : Network) (rank : string → nat) (batch : Z) (res : Resource) (mud : number)
    (self : InterLayerPipeline) (options : Options) (sgm : PipelineSegment) :
  network_ok net rank →
  __init__ (PyNetwork net) batch (PyResource res) mud = Ok self →
  sgm ∈ yields (gen_segment validator self options) →
  accepts validator self (seg sgm) ∧
  seg sgm ≠ [] ∧
  Forall (λ stage, stage ≠ []) (seg sgm) ∧
  NoDup (concat (seg sgm)) ∧
  ∃ before after, ordered_layer_list self = before ++ concat (seg sgm) ++ after.
Proof.
  intros Hnet Hinit Hin.
  pose proof (constructed_network _ _ _ _ _ Hinit) as Hnetwork.
  pose proof (constructed_layers _ _ Hnet _ _ _ _ Hinit) as Hperm.
  pose proof (constructed_nodup _ _ Hnet _ _ _ _ Hinit) as Hnd.
  pose proof (constructed_nonempty _ _ Hnet _ _ _ _ Hinit) as Hne.
  destruct (gen_segment_elem _ _ _ _ Hin) as (Hvalid & Hnew & Hseg).
  split. { unfold accepts. rewrite Hnew in Hvalid. exact Hvalid. }
  unfold ordered_layer_list.
  set (order := dag_vertex_list (dag self)) in *.
  assert (Hrun : ∀ (v k : nat), (v + k < length order)%nat →
            vertices_of_run order v k ≠ [] ∧
            Forall (λ stage : vertex, stage ≠ []) (vertices_of_run order v k) ∧
            NoDup (concat (vertices_of_run order v k)) ∧
            concat (vertices_of_run order v k) ≠ [] ∧
            ∃ before after,
              concat order = before ++ concat (vertices_of_run order v k) ++ after).
  { intros v k Hvk.
    pose proof (vertices_of_run_length order v k Hvk) as Hlen.
    pose proof (vertices_of_run_nonempty order Hne v k) as Hstages.
    assert (Hrne : vertices_of_run order v k ≠ []) by (intros H0; by rewrite H0 in Hlen).
    split; [done|]. split; [done|]. split; [|split].
    - rewrite (vertices_of_run_infix order v k) in Hnd.
      by apply NoDup_app in Hnd as (_ & _ & [? _]%NoDup_app).
    - destruct (vertices_of_run order v k) as [|u us]; [done|].
      apply Forall_cons in Hstages as [Hu _]. simpl. by destruct u.
    - eexists _, _. apply vertices_of_run_infix. }
  destruct Hseg as [(layer & Hlayer & ->)|(s & k & c & Hs & _ & Hc & Hsg)].
  - split; [done|]. split; [by apply Forall_singleton|]. simpl.
    split; [apply NoDup_singleton|].
    rewrite Hnetwork, <- Hperm in Hlayer.
    apply list_elem_of_split in Hlayer as (before & after & ->). by exists before, after.
  - destruct (seg_cands_of_run self options s k c (seg sgm) Hs Hc Hsg) as [Hlen [-> | ->]];
      destruct (Hrun (Z.to_nat s) k Hlen) as (Hrne & Hstages & Hndr & Hcne & Hinfix).
    + done.
    + split; [done|]. split; [by apply Forall_singleton|]. simpl. by rewrite app_nil_r.
Qed.

Lemma gen_segment_layers_consecutive_chain :
  network_ok chain_network (declaration_rank chain_network) ∧
  __init__ (PyNetwork chain_network) 1 (PyResource example_resource)
    max_util_drop_default = Ok chain_pipeline ∧
  new_PipelineSegment accept_all chain_pipeline [["A"; "B"; "F"]]%string
  ∈ yields (gen_segment accept_all chain_pipeline
              {| partition_interlayer := true; hw_gbuf_save_writeback := false |}) ∧
  accepts accept_all chain_pipeline [["A"; "B"; "F"]]%string ∧
  ([["A"; "B"; "F"]]%string : segment) ≠ [] ∧
  Forall (λ stage : vertex, stage ≠ []) [["A"; "B"; "F"]]%string ∧
  NoDup (concat ([["A"; "B"; "F"]]%string : segment)) ∧
  ∃ before after,
    ordered_layer_list chain_pipeline
    = before ++ concat ([["A"; "B"; "F"]]%string : segment) ++ after.
Proof.
  assert (Hin : new_PipelineSegment accept_all chain_pipeline [["A"; "B"; "F"]]%string
                ∈ yields (gen_segment accept_all chain_pipeline
                            {| partition_interlayer := true;
                               hw_gbuf_save_writeback := false |})).
  { vm_compute. do 3 apply list_elem_of_further. apply list_elem_of_here. }
  split; [apply network_okb_sound; vm_compute; reflexivity|].
  split; [apply init_pipeline_of; [done|vm_compute; reflexivity]|].
  split; [exact Hin|].
  apply (gen_segment_layers_consecutive accept_all chain_network
           (declaration_rank chain_network) 1 example_resource max_util_drop_default
           chain_pipeline
           {| partition_interlayer := true; hw_gbuf_save_writeback := false |}
           (new_PipelineSegment accept_all chain_pipeline [["A"; "B"; "F"]]%string)).
  - apply network_okb_sound. vm_compute. reflexivity.
  - apply init_pipeline_of; [done|vm_compute; reflexivity].
  - exact Hin.
Defined.

(** X14.  The options fix the shape of the segments.  Without
    [partition_interlayer] every segment a call yields has a single stage.
    Without [hw_gbuf_save_writeback] every segment a call yields is the
    single-layer segment of a layer, or a tuple of vertices of
    [dag_vertex_list], one vertex per stage. *)
Theorem gen_segment_option_shapes
    (validator : segment → Network → Z → Resource → number → bool)
    (self : InterLayerPipeline) (options : Options) :
  (partition_interlayer options = false →
   ∀ sgm, sgm ∈ yields (gen_segment validator self options) →
     ∃ stage, seg sgm = [stage]) ∧
  (hw_gbuf_save_writeback options = false →
   ∀ sgm, sgm ∈ yields (gen_segment validator self options) →
     (∃ layer, layer ∈ net_iter (network self) ∧ seg sgm = [[layer]]) ∨
     (seg sgm ≠ [] ∧
      Forall (λ stage, stage ∈ dag_vertex_list (dag self)) (seg sgm))).
Proof.
  split.
  - intros Hpi sgm Hin.
    destruct (gen_segment_elem _ _ _ _ Hin)
      as (_ & _ & [(layer & _ & ->)|(s & k & c & _ & _ & Hc & Hsg)]); [by eexists|].
    destruct (seg_cands_of_elem _ _ _ _ _ Hc Hsg) as (vs & _ & [[Hpi' _]|[_ ->]]);
      [congruence|by eexists].
  - intros Hhw sgm Hin.
    destruct (gen_segment_elem _ _ _ _ Hin)
      as (_ & _ & [(layer & Hlayer & Hseg)|(s & k & c & Hs & _ & Hc & Hsg)]);
      [left; eauto|right].
    destruct (seg_cands_of_elem _ _ _ _ _ Hc Hsg) as (vs & Hvs & [[_ ->]|[Hhw' _]]);
      [|congruence].
    apply mapM_getitem_run in Hvs as [-> Hlen]; [|done]. split.
    + intros Hnil. apply (f_equal length) in Hnil.
      rewrite length_take, length_drop in Hnil. cbn [length] in Hnil. lia.
    + apply Forall_forall. intros stage Hstage.
      eapply elem_of_sublist; [exact Hstage|].
      etrans; [apply sublist_take|apply sublist_drop].
Qed.

(** X15.  No accepted candidate is left out.  For a well formed network
    whose construction succeeds and a validator that accepts the
    single-layer segment of every layer, for every vseg the enumerator
    yields, the tuple of its vertices is yielded as a segment when
    [partition_interlayer] is set and the validator accepts it, and the
    single stage of all its layers is yielded when
    [hw_gbuf_save_writeback] is set and the validator accepts it. *)
Theorem gen_segment_accepted_candidates
    (validator : segment → Network → Z → Resource → number → bool)
    (net : Network) (rank : string → nat) (batch : Z) (res : Resource) (mud : number)
    (self : InterLayerPipeline) (options : Options) (s : Z) (k : nat) :
  network_ok net rank →
  __init__ (PyNetwork net) batch (PyResource res) mud = Ok self →
  (∀ l, l ∈ net_iter net → accepts validator self [[l]]) →
  run s k ∈ yields (self_gen_vseg self) →
  (partition_interlayer options = true →
   accepts validator self (vertices_of_run (dag_vertex_list (dag self)) (Z.to_nat s) k) →
   new_PipelineSegment validator self
     (vertices_of_run (dag_vertex_list (dag self)) (Z.to_nat s) k)
   ∈ yields (gen_segment validator self options)) ∧
  (hw_gbuf_save_writeback options = true →
   accepts validator self
     [concat (vertices_of_run (dag_vertex_list (dag self)) (Z.to_nat s) k)] →
   new_PipelineSegment validator self
     [concat (vertices_of_run (dag_vertex_list (dag self)) (Z.to_nat s) k)]
   ∈ yields (gen_segment validator self options)).
Proof.
  intros Hnet Hinit Hall Hrun.
  pose proof (constructed_network _ _ _ _ _ Hinit) as Hnetwork.
  pose proof (constructed_adjacency _ _ Hnet _ _ _ _ Hinit) as Hadj.
  assert (Hvsegs : yields (self_gen_vseg self)
                   = all_runs (dag_prev_dict (dag self)) (dag_next_dict (dag self))
                       (Z.of_nat (length (dag_vertex_list (dag self))))
                       (length (dag_vertex_list (dag self)))).
  { unfold self_gen_vseg. by rewrite gen_vseg_all_memo. }
  assert (Hrange : 0 ≤ s ∧ s + Z.of_nat k < Z.of_nat (length (dag_vertex_list (dag self)))).
  { rewrite Hvsegs in Hrun.
    apply (elem_of_all_runs _ _ _ Hadj) in Hrun
      as (s' & k' & Hs' & Hk' & [-> ->]%run_inj & _); lia. }
  destruct Hrange as [Hs Hk].
  destruct (seg_cands_of_run_elem self options s k Hs Hk) as (c & Hc & Hpi & Hhw).
  assert (Hyield : ∀ sg, sg ∈ c → accepts validator self sg →
            new_PipelineSegment validator self sg
            ∈ yields (gen_segment validator self options)).
  { intros sg Hsg Hacc. unfold gen_segment, yields.
    rewrite (gbind_yields_ok _ _ ()) by
      (rewrite gen_layer_segments_accepted; [done|by rewrite Hnetwork]).
    simpl. apply elem_of_app. right.
    rewrite gen_pipelined_Ok.
    2: { intros vseg Hvseg. fold (yields (self_gen_vseg self)) in Hvseg.
         rewrite Hvsegs in Hvseg.
         apply (elem_of_all_runs _ _ _ Hadj) in Hvseg
           as (s' & k' & Hs' & Hk' & -> & _); [|lia].
         apply seg_cands_of_run_Ok; lia. }
    simpl. apply list_elem_of_bind. exists (run s k). split; [|exact Hrun].
    rewrite Hc. apply yield_valid_spec. split; [exact Hacc|]. by exists sg. }
  split; intros Hopt Hacc; apply Hyield; auto.
Qed.

Lemma gen_segment_accepted_candidates_fan :
  network_ok fan_network (declaration_rank fan_network) ∧
  __init__ (PyNetwork fan_network) 1 (PyResource example_resource)
    max_util_drop_default = Ok fan_pipeline ∧
  (∀ l, l ∈ net_iter fan_network → accepts accept_all fan_pipeline [[l]]) ∧
  run 1 2 ∈ yields (self_gen_vseg fan_pipeline) ∧
  vertices_of_run (dag_vertex_list (dag fan_pipeline)) (Z.to_nat 1) 2
  = [["B"]; ["C"]; ["D"]]%string ∧
  (partition_interlayer {| partition_interlayer := true;
                           hw_gbuf_save_writeback := true |} = true →
   accepts accept_all fan_pipeline
     (vertices_of_run (dag_vertex_list (dag fan_pipeline)) (Z.to_nat 1) 2) →
   new_PipelineSegment accept_all fan_pipeline
     (vertices_of_run (dag_vertex_list (dag fan_pipeline)) (Z.to_nat 1) 2)
   ∈ yields (gen_segment accept_all fan_pipeline
               {| partition_interlayer := true; hw_gbuf_save_writeback := true |})) ∧
  (hw_gbuf_save_writeback {| partition_interlayer := true;
                             hw_gbuf_save_writeback := true |} = true →
   accepts accept_all fan_pipeline
     [concat (vertices_of_run (dag_vertex_list (dag fan_pipeline)) (Z.to_nat 1) 2)] →
   new_PipelineSegment accept_all fan_pipeline
     [concat (vertices_of_run (dag_vertex_list (dag fan_pipeline)) (Z.to_nat 1) 2)]
   ∈ yields (gen_segment accept_all fan_pipeline
               {| partition_interlayer := true; hw_gbuf_save_writeback := true |})).
Proof.
  assert (Hall : ∀ l, l ∈ net_iter fan_network → accepts accept_all fan_pipeline [[l]])
    by (intros; reflexivity).
  split; [apply network_okb_sound; vm_compute; reflexivity|].
  split; [apply init_pipeline_of; [done|vm_compute; reflexivity]|].
  split; [exact Hall|]. split; [by_compute|]. split; [reflexivity|].
  apply (gen_segment_accepted_candidates accept_all fan_network
           (declaration_rank fan_network) 1 example_resource max_util_drop_default
           fan_pipeline
           {| partition_interlayer := true; hw_gbuf_save_writeback := true |} 1 2%nat).
  - apply network_okb_sound. vm_compute. reflexivity.
  - apply init_pipeline_of; [done|vm_compute; reflexivity].
  - exact Hall.
  - by_compute.
Defined.

(** * The ways the DAG build ends *)

Lemma links_closedb_sound network :
  links_closedb network = true → links_closed network.
Proof.
  unfold links_closedb. rewrite forallb_forall. intros Hall l s Hl Hs Hne.
  specialize (Hall l (proj1 (list_elem_of_In _ _) Hl)).
  rewrite forallb_forall in Hall.
  assert (Hin : In (Some s) (prev_layers network l ++ next_layers network l)).
  { apply list_elem_of_In, elem_of_app. tauto. }
  specialize (Hall _ Hin). simpl in Hall.
  apply orb_true_iff in Hall as [Hall|Hall].
  - by apply String.eqb_eq in Hall.
  - by apply bool_decide_eq_true in Hall.
Qed.

(** ** The index of the layers of disjoint vertices *)

Lemma index_vertex_Ok (vidx : Z) : ∀ (v : vertex) (d : gmap string Z),
  NoDup v → (∀ l, l ∈ v → l ∉ dom d) →
  ∃ d', for_each (λ d layer_name,
            if bool_decide (layer_name ∈ dom d) then Raise (AssertionError 260)
            else Ok (<[layer_name := vidx]> d)) v d = Ok d' ∧
        dom d' = dom d ∪ list_to_set v.
Proof.
  induction v as [|l v IH]; intros d Hnd Hnew; simpl.
  - exists d. split; [done|]. set_solver.
  - apply NoDup_cons in Hnd as [Hl Hnd].
    rewrite bool_decide_false by (apply Hnew, elem_of_cons; by left). simpl.
    destruct (IH (<[l := vidx]> d) Hnd) as (d' & -> & Hdom).
    { intros x Hx. rewrite dom_insert_L.
      assert (x ≠ l) by (by intros ->).
      assert (x ∉ dom d) by (apply Hnew, elem_of_cons; by right). set_solver. }
    exists d'. split; [done|]. rewrite Hdom, dom_insert_L. set_solver.
Qed.

Lemma index_pairs_Ok : ∀ (pairs : list (Z * vertex)) (d : gmap string Z),
  NoDup (concat pairs.*2) → (∀ l, l ∈ concat pairs.*2 → l ∉ dom d) →
  ∃ d', for_each (λ d '(vidx, v),
            for_each (λ d layer_name,
                if bool_decide (layer_name ∈ dom d) then Raise (AssertionError 260)
                else Ok (<[layer_name := vidx]> d)) v d) pairs d = Ok d'.
Proof.
  induction pairs as [|[vidx v] pairs IH]; intros d Hnd Hnew; simpl; [by eexists|].
  simpl in Hnd, Hnew. apply NoDup_app in Hnd as (Hv & Hdisj & Hrest).
  destruct (index_vertex_Ok vidx v d Hv) as (d1 & -> & Hdom).
  { intros l Hl. apply Hnew, elem_of_app. by left. }
  simpl. apply IH; [done|]. intros l Hl. rewrite Hdom.
  assert (l ∉ dom d) by (apply Hnew, elem_of_app; by right).
  assert (l ∉ v) by (intros Hlv; by apply (Hdisj l)). set_solver.
Qed.

Lemma index_layers_Ok (order : list vertex) :
  NoDup (concat order) → ∃ d, index_layers order = Ok d.
Proof.
  intros Hnd. unfold index_layers. apply index_pairs_Ok.
  - rewrite snd_zip; [done|]. rewrite length_seqZ. lia.
  - intros l _. rewrite dom_empty_L. set_solver.
Qed.

(** ** The links of layers with an index *)

Section LinkTotal.

Variable network : Network.
Variable dict : gmap string Z.
Variable inp : Z.

#[local] Arguments truthy : simpl never.

Lemma set_add_Ok (d : gmap Z (gset Z)) vidx x :
  vidx ∈ dom d → ∃ d', set_add d vidx x = Ok d' ∧ dom d' = dom d.
Proof.
  intros [X HX]%elem_of_dom. unfold set_add, getitem. rewrite HX. simpl.
  eexists. split; [done|]. rewrite dom_insert_L. apply elem_of_dom_2 in HX. set_solver.
Qed.

Lemma prev_loop_Ok (vidx : Z) : ∀ pls (d : gmap Z (gset Z)),
  vidx ∈ dom d →
  (∀ s, Some s ∈ pls → s ≠ ""%string → is_Some (dict !! s)) →
  ∃ d', for_each (λ d pl,
      pvidx ← (match pl with
               | Some s => if truthy pl then getitem dict s else Ok inp
               | None => Ok inp
               end);
      if bool_decide (pvidx ≠ vidx) then set_add d vidx pvidx else Ok d) pls d = Ok d' ∧
    dom d' = dom d.
Proof.
  induction pls as [|pl pls IH]; intros d Hd Hpls; [by exists d|].
  assert (Hadd : ∀ pvidx, ∃ d1,
            (if bool_decide (pvidx ≠ vidx) then set_add d vidx pvidx else Ok d) = Ok d1 ∧
            dom d1 = dom d).
  { intros pvidx. case_bool_decide; [by apply set_add_Ok|by exists d]. }
  assert (Hstep : ∃ d1,
            (pvidx ← (match pl with
                      | Some s => if truthy pl then getitem dict s else Ok inp
                      | None => Ok inp
                      end);
             if bool_decide (pvidx ≠ vidx) then set_add d vidx pvidx else Ok d) = Ok d1 ∧
            dom d1 = dom d).
  { destruct pl as [s|]; [destruct (truthy (Some s)) eqn:Ht|]; simpl; [|apply Hadd..].
    destruct (Hpls s) as [j Hj]; [apply elem_of_cons; by left|by apply truthy_Some|].
    unfold getitem. rewrite Hj. simpl. apply Hadd. }
  destruct Hstep as (d1 & Hd1 & Hdom1).
  destruct (IH d1) as (d' & Hd' & Hdom'); [by rewrite Hdom1| |].
  { intros s Hs. apply Hpls, elem_of_cons. by right. }
  exists d'. split; [|congruence]. simpl. by rewrite Hd1.
Qed.

Lemma next_loop_Ok (vidx : Z) : ∀ nls (d : gmap Z (gset Z)),
  vidx ∈ dom d →
  (∀ s, Some s ∈ nls → s ≠ ""%string → is_Some (dict !! s)) →
  ∃ d', for_each (λ d nl,
      match nl with
      | Some s =>
          if truthy nl then
            nvidx ← getitem dict s;
            if bool_decide (nvidx ≠ vidx) then set_add d vidx nvidx else Ok d
          else Ok d
      | None => Ok d
      end) nls d = Ok d' ∧
    dom d' = dom d.
Proof.
  induction nls as [|nl nls IH]; intros d Hd Hnls; [by exists d|].
  assert (Hstep : ∃ d1,
            match nl with
            | Some s =>
                if truthy nl then
                  nvidx ← getitem dict s;
                  if bool_decide (nvidx ≠ vidx) then set_add d vidx nvidx else Ok d
                else Ok d
            | None => Ok d
            end = Ok d1 ∧ dom d1 = dom d).
  { destruct nl as [s|]; [destruct (truthy (Some s)) eqn:Ht|]; simpl; [|by exists d..].
    destruct (Hnls s) as [j Hj]; [apply elem_of_cons; by left|by apply truthy_Some|].
    unfold getitem. rewrite Hj. simpl.
    case_bool_decide; [by apply set_add_Ok|by exists d]. }
  destruct Hstep as (d1 & Hd1 & Hdom1).
  destruct (IH d1) as (d' & Hd' & Hdom'); [by rewrite Hdom1| |].
  { intros s Hs. apply Hnls, elem_of_cons. by right. }
  exists d'. split; [|congruence]. simpl. by rewrite Hd1.
Qed.

Lemma link_layer_Ok (P N : gmap Z (gset Z)) l vidx :
  dict !! l = Some vidx → vidx ∈ dom P → vidx ∈ dom N →
  (∀ s, Some s ∈ prev_layers network l → s ≠ ""%string → is_Some (dict !! s)) →
  (∀ s, Some s ∈ next_layers network l → s ≠ ""%string → is_Some (dict !! s)) →
  ∃ P' N', link_layer network inp dict (P, N) l = Ok (P', N') ∧
           dom P' = dom P ∧ dom N' = dom N.
Proof.
  intros Hl HP HN Hprevs Hnexts.
  destruct (prev_loop_Ok vidx (prev_layers network l) P HP Hprevs) as (P' & HP' & HdP).
  destruct (next_loop_Ok vidx (next_layers network l) N HN Hnexts) as (N' & HN' & HdN).
  exists P', N'. split; [|done].
  unfold link_layer, getitem. rewrite Hl. simpl.
  destruct (for_each _ (prev_layers network l) P) as [P1| |]; [|done..].
  injection HP' as ->. simpl.
  destruct (for_each _ (next_layers network l) N) as [N1| |]; [|done..].
  by injection HN' as ->.
Qed.

Lemma for_each_link_layer_Ok (D : gset Z) : ∀ layers (P N : gmap Z (gset Z)),
  dom P = D → dom N = D →
  (∀ l, l ∈ layers → ∃ vidx, dict !! l = Some vidx ∧ vidx ∈ D) →
  (∀ l s, l ∈ layers →
     Some s ∈ prev_layers network l ∨ Some s ∈ next_layers network l →
     s ≠ ""%string → is_Some (dict !! s)) →
  ∃ PN, for_each (link_layer network inp dict) layers (P, N) = Ok PN.
Proof.
  induction layers as [|l layers IH]; intros P N HP HN Hidx Hlinks; [by eexists|].
  destruct (Hidx l) as (vidx & Hl & Hv); [apply elem_of_cons; by left|].
  destruct (link_layer_Ok P N l vidx Hl) as (P' & N' & Hlink & HdP & HdN);
    [by rewrite HP|by rewrite HN| |
     |].
  { intros s Hs. apply (Hlinks l s); [apply elem_of_cons; by left|by left]. }
  { intros s Hs. apply (Hlinks l s); [apply elem_of_cons; by left|by right]. }
  simpl. rewrite Hlink. simpl. apply IH; [congruence|congruence| |].
  - intros x Hx. apply Hidx, elem_of_cons. by right.
  - intros x s Hx. apply Hlinks, elem_of_cons. by right.
Qed.

End LinkTotal.

(** X16.  For a network with distinct layer names whose links stay in
    the network, the DAG build ends in one of four ways: it returns the
    scheduling DAG, or it raises the assertion error of line 230 (a layer
    that is not a [ConvLayer] has no previous layer), of line 317 (the
    sorter visits a vertex again) or of line 350 (the sorter does not
    reach a vertex).  It raises no [IndexError] and no [KeyError], and the
    assertions of the lines 250, 260 and 351 never fail. *)
Theorem calc_sched_dag_outcome (network : Network) :
  NoDup (net_iter network) → links_closed network →
  (∃ d, _calc_sched_dag network = Ok d) ∨
  _calc_sched_dag network = Raise (AssertionError 230) ∨
  _calc_sched_dag network = Raise (AssertionError 317) ∨
  _calc_sched_dag network = Raise (AssertionError 350).
Proof.
  intros Hnames Hclosed. unfold _calc_sched_dag, build_vertex_set.
  destruct (for_each_add_layer_outcome network (net_iter network) [] []
              (vertex_set_ok_nil network))
    as [(vset & -> & Hok & _)|[-> _]]; simpl; [|by right; left].
  simpl in Hok. destruct Hok as [Hne Hperm _ _].
  rewrite bool_decide_true by (by rewrite sum_list_length_concat, Hperm). simpl.
  destruct (topological_order_ends network vset) as [[order Horder]|[-> | ->]];
    [|by right; right; left|by right; right; right].
  rewrite Horder. simpl.
  destruct (topological_order_sets _ _ _ Horder) as [Hnd Hsame].
  assert (Hvset : NoDup vset).
  { apply concat_NoDup_vertices; [by rewrite Hperm|done]. }
  assert (Hlayers : concat order ≡ₚ net_iter network).
  { rewrite <- Hperm. apply concat_Permutation. by apply NoDup_Permutation. }
  destruct (index_layers_Ok order) as [dict Hdict]; [by rewrite Hlayers|].
  rewrite Hdict. simpl.
  pose proof (index_layers_spec _ _ Hdict) as Hindex.
  assert (Hhas : ∀ l, l ∈ net_iter network →
            ∃ vidx, dict !! l = Some vidx ∧ vidx ∈ dom (empty_sets (length order))).
  { intros l Hl. rewrite <- Hlayers in Hl.
    apply elem_of_concat in Hl as (v & Hlv & Hv).
    apply list_elem_of_lookup in Hv as [a Ha]. exists (Z.of_nat a). split.
    - apply Hindex. eauto.
    - apply empty_sets_dom. apply lookup_lt_Some in Ha. lia. }
  destruct (for_each_link_layer_Ok network dict (-1) (dom (empty_sets (length order)))
              (net_iter network) (empty_sets (length order)) (empty_sets (length order)))
    as [[P N] ->]; [done|done|done| |simpl; left; by eexists].
  intros l s Hl Hs Hsne. destruct (Hhas s) as (j & Hj & _); [by eapply Hclosed|by eexists].
Qed.

Lemma calc_sched_dag_outcome_residual :
  NoDup (net_iter residual_network) ∧ links_closed residual_network ∧
  _calc_sched_dag residual_network = Raise (AssertionError 317) ∧
  ((∃ d, _calc_sched_dag residual_network = Ok d) ∨
   _calc_sched_dag residual_network = Raise (AssertionError 230) ∨
   _calc_sched_dag residual_network = Raise (AssertionError 317) ∨
   _calc_sched_dag residual_network = Raise (AssertionError 350)).
Proof.
  assert (Hnd : NoDup (net_iter residual_network)) by by_compute.
  assert (Hclosed : links_closed residual_network)
    by (apply links_closedb_sound; vm_compute; reflexivity).
  split; [exact Hnd|]. split; [exact Hclosed|]. split; [vm_compute; reflexivity|].
  apply (calc_sched_dag_outcome residual_network Hnd Hclosed).
Defined.

(** * The list of the layers, and the argument [done] *)

(** X17.  For every network with distinct layer names that the
    constructor accepts, acyclic or not, [ordered_layer_list] is a
    permutation of the layers of the network, and the layers of every
    vertex stand together in it, in the order in which the network lists
    them. *)
Theorem ordered_layer_list_vertices
    (net : Network) (batch : Z) (res : Resource) (mud : number)
    (self : InterLayerPipeline) :
  NoDup (net_iter net) →
  __init__ (PyNetwork net) batch (PyResource res) mud = Ok self →
  ordered_layer_list self ≡ₚ net_iter net ∧
  ∀ v, v ∈ dag_vertex_list (dag self) →
    v `sublist_of` net_iter net ∧
    ∃ before after, ordered_layer_list self = before ++ v ++ after.
Proof.
  intros Hnames Hinit.
  pose proof (constructed_dag _ _ _ _ _ Hinit) as Hd.
  destruct (calc_sched_dag_parts _ _ Hd) as (vset & dict & P & N & Hbuild & Horder & _).
  destruct (build_vertex_set_ok _ _ Hbuild) as [Hne Hperm _ Hsub].
  destruct (topological_order_sets _ _ _ Horder) as [Hnd Hsame].
  assert (Hvset : NoDup vset).
  { apply concat_NoDup_vertices; [by rewrite Hperm|done]. }
  unfold ordered_layer_list. split.
  - rewrite <- Hperm. apply concat_Permutation. by apply NoDup_Permutation.
  - intros v Hv. split.
    + rewrite Forall_forall in Hsub. by apply Hsub, Hsame.
    + apply list_elem_of_lookup in Hv as [a Ha].
      exists (concat (take a (dag_vertex_list (dag self)))),
             (concat (drop (S a) (dag_vertex_list (dag self)))).
      rewrite <- (take_drop_middle _ _ _ Ha) at 1. by rewrite concat_app.
Qed.

Lemma ordered_layer_list_vertices_chain :
  NoDup (net_iter chain_network) ∧
  __init__ (PyNetwork chain_network) 1 (PyResource example_resource)
    max_util_drop_default = Ok chain_pipeline ∧
  ordered_layer_list chain_pipeline ≡ₚ net_iter chain_network ∧
  ∀ v, v ∈ dag_vertex_list (dag chain_pipeline) →
    v `sublist_of` net_iter chain_network ∧
    ∃ before after, ordered_layer_list chain_pipeline = before ++ v ++ after.
Proof.
  assert (Hnd : NoDup (net_iter chain_network)) by by_compute.
  split; [exact Hnd|].
  split; [apply init_pipeline_of; [done|vm_compute; reflexivity]|].
  apply (ordered_layer_list_vertices chain_network 1 example_resource
           max_util_drop_default chain_pipeline Hnd).
  apply init_pipeline_of; [done|vm_compute; reflexivity].
Defined.

Section DoneArgument.

Variable dag_vertex_list : list vertex.
Variables dag_prev_dict dag_next_dict : gmap Z (gset Z).
Variable dag_input_vertex : Z.

(** The loop hands [done] to the recursive calls and does nothing else
    with it. *)
Lemma vseg_loop_done rec vertex_idx (d1 d2 : gset Z) :
  (∀ idx (a b : gset Z) svd, dag_input_vertex ∈ a → dag_input_vertex ∈ b →
     rec idx (Some a) svd = rec idx (Some b) svd) →
  dag_input_vertex ∈ d1 → dag_input_vertex ∈ d2 →
  ∀ frontiers vseg svd,
    vseg_loop dag_prev_dict dag_next_dict rec vertex_idx d1 frontiers vseg svd
    = vseg_loop dag_prev_dict dag_next_dict rec vertex_idx d2 frontiers vseg svd.
Proof.
  intros Hrec H1 H2 frontiers.
  induction frontiers as [|f rest IH]; intros vseg svd; simpl; [done|].
  destruct (getitem dag_prev_dict f) as [fp| |]; simpl; [|done..].
  destruct (share_deps dag_prev_dict vseg fp) as [sd| |]; simpl; [|done..].
  destruct (negb sd || coupled_prevs vseg fp); [done|].
  destruct (check_rule3 _ _ _ _); [|apply IH|done].
  f_equal. case_bool_decide; [apply IH|].
  rewrite (Hrec (f + 1) (d1 ∪ list_to_set (vseg ++ [f])) (d2 ∪ list_to_set (vseg ++ [f])))
    by set_solver.
  unfold gbind. destruct (rec _ _ _).2; [|done..]. by rewrite IH.
Qed.

Lemma gen_vseg_done fuel : ∀ vertex_idx (a b : gset Z) svd,
  a ≠ ∅ → b ≠ ∅ →
  _gen_vseg dag_vertex_list dag_prev_dict dag_next_dict dag_input_vertex
    fuel vertex_idx (Some a) svd
  = _gen_vseg dag_vertex_list dag_prev_dict dag_next_dict dag_input_vertex
      fuel vertex_idx (Some b) svd.
Proof.
  induction fuel as [|fuel IH]; intros vertex_idx a b svd Ha Hb; simpl; [done|].
  rewrite (bool_decide_false (a = ∅)), (bool_decide_false (b = ∅)) by done. simpl.
  apply vseg_loop_done; [|case_bool_decide; set_solver..].
  intros idx a' b' svd' Ha' Hb'. apply IH; set_solver.
Qed.

End DoneArgument.

(** X18.  The argument [done] of [_gen_vseg] changes nothing but the
    reset of the memo: two calls that differ only in sets [done] that are
    not empty yield the same vsegs and end in the same way. *)
Theorem gen_vseg_ignores_done
    (dag_vertex_list : list vertex) (dag_prev_dict dag_next_dict : gmap Z (gset Z))
    (dag_input_vertex : Z) (fuel : nat) (vertex_idx : Z) (done1 done2 memo : gset Z) :
  done1 ≠ ∅ → done2 ≠ ∅ →
  _gen_vseg dag_vertex_list dag_prev_dict dag_next_dict dag_input_vertex
    fuel vertex_idx (Some done1) memo
  = _gen_vseg dag_vertex_list dag_prev_dict dag_next_dict dag_input_vertex
      fuel vertex_idx (Some done2) memo.
Proof. apply gen_vseg_done. Qed.

Lemma gen_vseg_ignores_done_fan :
  ({[ -1 ]} : gset Z) ≠ ∅ ∧ ({[ -1; 0; 1; 2 ]} : gset Z) ≠ ∅ ∧
  yields (_gen_vseg (dag_vertex_list fan_dag) (dag_prev_dict fan_dag)
            (dag_next_dict fan_dag) (dag_input_vertex fan_dag)
            4 1 (Some {[ -1 ]}) ∅)
  = [[1]; [2]; [3]; [2; 3]; [1; 2]; [1; 2; 3]] ∧
  _gen_vseg (dag_vertex_list fan_dag) (dag_prev_dict fan_dag)
    (dag_next_dict fan_dag) (dag_input_vertex fan_dag) 4 1 (Some {[ -1 ]}) ∅
  = _gen_vseg (dag_vertex_list fan_dag) (dag_prev_dict fan_dag)
      (dag_next_dict fan_dag) (dag_input_vertex fan_dag) 4 1 (Some {[ -1; 0; 1; 2 ]}) ∅.
Proof.
  assert (H1 : ({[ -1 ]} : gset Z) ≠ ∅) by by_compute.
  assert (H2 : ({[ -1; 0; 1; 2 ]} : gset Z) ≠ ∅) by by_compute.
  split; [exact H1|]. split; [exact H2|]. split; [vm_compute; reflexivity|].
  apply (gen_vseg_ignores_done (dag_vertex_list fan_dag) (dag_prev_dict fan_dag)
           (dag_next_dict fan_dag) (dag_input_vertex fan_dag) 4 1 _ _ ∅ H1 H2).
Defined.

(** * The builder, layer by layer *)

Lemma NoDup_concat_vertex {A : Type} (L : list (list A)) (v : list A) :
  NoDup (concat L) → v ∈ L → NoDup v.
Proof.
  induction L as [|a L IH]; simpl; [by intros _ ?%elem_of_nil|].
  intros (Ha & _ & HL)%NoDup_app [->|Hv]%elem_of_cons; [done|by apply IH].
Qed.

Section BuilderSteps.

Variable network : Network.

(** The scan of line 239 stops at the eligible vertex of largest index. *)
Lemma find_merge_latest (dag : list vertex) prevs (n idx : nat) :
  find_merge network dag prevs (reverse (seq 0 n)) = Ok (Some idx) →
  ∃ v : vertex, dag !! idx = Some v ∧ eligible network prevs v ∧
    ∀ j (v' : vertex), (idx < j < n)%nat → dag !! j = Some v' →
      ¬ eligible network prevs v'.
Proof.
  induction n as [|n IH]; [done|].
  rewrite seq_S, reverse_app. simpl.
  destruct (dag !! n) as [v|] eqn:Hv; [|done].
  destruct (can_merge network prevs v) as [b| |] eqn:Hb; simpl; [|done..].
  apply can_merge_spec in Hb. destruct b.
  - intros [= <-]. exists v. split; [done|]. split; [by apply Hb|].
    intros j v' Hj. lia.
  - intros (w & Hw & He & Hlater)%IH. exists w. split; [done|]. split; [done|].
    intros j v' Hj Hv'. destruct (decide (j = n)) as [->|Hjn].
    + rewrite Hv in Hv'. injection Hv' as <-. intros He'. by apply Hb in He'.
    + apply (Hlater j); [lia|done].
Qed.

(** The body of the loop follows the rule of the builder. *)
Lemma add_layer_rule (dag dag' : list vertex) layer_name :
  add_layer network dag layer_name = Ok dag' →
  merge_rule network dag layer_name dag'.
Proof.
  unfold add_layer, merge_rule.
  destruct (isinstance_ConvLayer _); [by intros [= <-]|].
  case_bool_decide; [done|].
  destruct (find_merge _ _ _ _) as [[idx|]| |] eqn:Hfind; simpl; [| |done..].
  - pose proof Hfind as (v & Hv & He & Hlater)%find_merge_latest.
    rewrite Hv. intros [= <-]. left. exists idx, v.
    split; [done|]. split; [done|]. split; [|done].
    intros j v' Hj Hv'. apply (Hlater j); [|done].
    apply lookup_lt_Some in Hv'. lia.
  - intros [= <-]. right. split; [|done].
    intros v (j & Hj)%list_elem_of_lookup_1.
    destruct (find_merge_None network _ _ _ Hfind j) as (v' & Hv' & Hnot).
    + apply elem_of_reverse, elem_of_seq. apply lookup_lt_Some in Hj. lia.
    + rewrite Hj in Hv'. by injection Hv' as <-.
Qed.

(** When the loop over the layers ends normally, so does its run over
    the first layers, and the next layer is added to what that run has
    made. *)
Lemma vertex_set_after_step (vertices : list vertex) (k : nat) layer_name :
  for_each (add_layer network) (net_iter network) [] = Ok vertices →
  net_iter network !! k = Some layer_name →
  ∃ dag dag' : list vertex,
    vertex_set_after network k = Ok dag ∧
    add_layer network dag layer_name = Ok dag' ∧
    vertex_set_after network (S k) = Ok dag'.
Proof.
  intros Hloop Hk. unfold vertex_set_after.
  rewrite (take_S_r _ _ _ Hk), for_each_app.
  rewrite <- (take_drop_middle _ _ _ Hk), for_each_app in Hloop.
  destruct (for_each _ (take k _) []) as [dag| |]; simpl in *; [|done..].
  destruct (add_layer network dag layer_name) as [dag'| |] eqn:Hadd; simpl in *; [|done..].
  exists dag, dag'. split; [done|]. split; done.
Qed.

Lemma vertex_set_after_all :
  vertex_set_after network (length (net_iter network))
  = for_each (add_layer network) (net_iter network) [].
Proof. unfold vertex_set_after. by rewrite firstn_all. Qed.

Lemma vertex_set_after_ok (k : nat) (dag : list vertex) :
  vertex_set_after network k = Ok dag →
  vertex_set_ok network (take k (net_iter network)) dag.
Proof. apply for_each_add_layer_ok. Qed.

(** The scenario of the vertex (A, B) and the layer F. *)
Lemma add_layer_scenario (dag : list vertex) (idx : nat) (A B F : string) :
  Forall (λ v, v ≠ []) dag →
  dag !! idx = Some [A; B] → A ≠ B →
  isinstance_ConvLayer (net_getitem network F) = false →
  prev_layers network F = [Some B] →
  next_layers network B = [Some F] →
  (∀ j (v' : vertex), (idx < j)%nat → dag !! j = Some v' → B ∉ v') →
  add_layer network dag F = Ok (<[idx := [A; B; F]]> dag).
Proof.
  intros Hne Hv HAB Hconv HprevF HnextB Hlater.
  apply (add_layer_merge network dag F idx [A; B]); [done| |done..| |].
  - by rewrite HprevF.
  - exists [A], B. split; [done|]. rewrite HprevF, HnextB. split; [|split; [|done]].
    + intros l ->%list_elem_of_singleton. set_solver.
    + set_solver.
  - intros j v' Hj Hv' (vh & vt & -> & _ & Ht & _).
    apply (Hlater j _ Hj Hv'). rewrite HprevF in Ht.
    assert (vt = B) as -> by set_solver.
    apply elem_of_app. right. by apply list_elem_of_singleton.
Qed.

End BuilderSteps.

(** C6.  When the builder returns the vertex set, it has taken the layers
    of the network one by one, in the order of the network, from the empty
    vertex set to the set it returns, and every layer by the rule: a
    layer with filters starts a vertex of its own; a layer without filters
    is appended to the eligible vertex created last (no layer of its head
    is a previous layer of the layer, its tail is one, and its tail has
    exactly one next layer), or starts a vertex of its own when no vertex
    is eligible.  Every layer ends in a vertex, and the layers of a vertex
    keep the order of the network.  In particular a layer F without
    filters whose only previous layer is the tail B of the vertex (A, B),
    and which is the only next layer of B, makes the vertex (A, B, F). *)
Theorem build_vertex_set_merges_into_latest_eligible
    (net : Network) (vertices : list vertex) :
  build_vertex_set net = Ok vertices →
  vertex_set_after net 0 = Ok [] ∧
  vertex_set_after net (length (net_iter net)) = Ok vertices ∧
  (∀ (k : nat) layer_name,
     net_iter net !! k = Some layer_name →
     ∃ dag dag' : list vertex,
       vertex_set_after net k = Ok dag ∧
       vertex_set_after net (S k) = Ok dag' ∧
       merge_rule net dag layer_name dag') ∧
  concat vertices ≡ₚ net_iter net ∧
  Forall (λ v, v `sublist_of` net_iter net) vertices ∧
  (∀ (k idx : nat) (A B F : string) (dag : list vertex),
     net_iter net !! k = Some F →
     vertex_set_after net k = Ok dag →
     dag !! idx = Some [A; B] →
     isinstance_ConvLayer (net_getitem net F) = false →
     prev_layers net F = [Some B] →
     next_layers net B = [Some F] →
     NoDup (net_iter net) ∨
       (A ≠ B ∧ ∀ j (v' : vertex), (idx < j)%nat → dag !! j = Some v' → B ∉ v') →
     vertex_set_after net (S k) = Ok (<[idx := [A; B; F]]> dag)).
Proof.
  intros Hbuild. pose proof (build_vertex_set_ok _ _ Hbuild) as Hok.
  unfold build_vertex_set in Hbuild.
  destruct (for_each _ _ _) as [d| |] eqn:Hloop; simpl in Hbuild; [|done..].
  case_bool_decide; [|done]. injection Hbuild as ->.
  split; [done|]. split; [by rewrite vertex_set_after_all|]. split; [|split; [|split]].
  - intros k layer_name Hk.
    destruct (vertex_set_after_step net vertices k layer_name Hloop Hk)
      as (dag & dag' & Hdag & Hadd & Hdag').
    exists dag, dag'. split; [done|]. split; [done|]. by apply add_layer_rule.
  - apply (vs_layers _ _ _ Hok).
  - apply (vs_order _ _ _ Hok).
  - intros k idx A B F dag Hk Hdag Hv Hconv HprevF HnextB Hcase.
    destruct (vertex_set_after_step net vertices k F Hloop Hk)
      as (dag0 & dag' & Hdag0 & Hadd & Hdag').
    rewrite Hdag in Hdag0. injection Hdag0 as <-.
    rewrite Hdag', <- Hadd.
    pose proof (vertex_set_after_ok net k dag Hdag) as Hokk.
    pose proof (vs_nonempty _ _ _ Hokk) as Hne.
    assert (Hin : [A; B] ∈ dag) by (by eapply list_elem_of_lookup_2).
    destruct Hcase as [Hnd|[HAB Hlater]]; [|by apply add_layer_scenario].
    assert (Hndc : NoDup (concat dag)).
    { rewrite (vs_layers _ _ _ Hokk). by apply NoDup_take. }
    apply add_layer_scenario; [done..| | | | |]; [|done..|].
    + pose proof (NoDup_concat_vertex dag [A; B] Hndc Hin) as Hab.
      apply NoDup_cons in Hab as [Hab _]. intros ->. apply Hab. by left.
    + intros j v' Hj Hv' HB.
      assert (Hin' : v' ∈ dag) by (by eapply list_elem_of_lookup_2).
      assert (Heq : [A; B] = v').
      { apply (concat_disjoint dag _ _ B Hndc Hin Hin'); [|done].
        apply elem_of_cons. right. by left. }
      subst v'. pose proof (concat_NoDup_vertices dag Hndc Hne) as Hndd.
      pose proof (NoDup_lookup _ _ _ _ Hndd Hv Hv'). lia.
Qed.

Lemma build_vertex_set_merges_into_latest_eligible_chain :
  build_vertex_set chain_network = Ok [["A"; "B"; "F"]]%string ∧
  vertex_set_after chain_network 2 = Ok [["A"; "B"]]%string ∧
  merge_rule chain_network [["A"; "B"]]%string "F" [["A"; "B"; "F"]]%string ∧
  vertex_set_after chain_network 3 = Ok (<[0%nat := ["A"; "B"; "F"]%string]> [["A"; "B"]]%string).
Proof.
  assert (Hbuild : build_vertex_set chain_network = Ok [["A"; "B"; "F"]]%string)
    by (vm_compute; reflexivity).
  split; [exact Hbuild|].
  destruct (build_vertex_set_merges_into_latest_eligible chain_network
              [["A"; "B"; "F"]]%string Hbuild)
    as (_ & Hlast & Hsteps & _ & _ & Hscenario).
  assert (H2 : vertex_set_after chain_network 2 = Ok [["A"; "B"]]%string)
    by (vm_compute; reflexivity).
  split; [exact H2|]. split.
  - destruct (Hsteps 2%nat "F"%string eq_refl) as (dag & dag' & Hdag & Hdag' & Hrule).
    rewrite H2 in Hdag. injection Hdag as <-.
    change (vertex_set_after chain_network 3) with
      (vertex_set_after chain_network (length (net_iter chain_network))) in Hdag'.
    rewrite Hlast in Hdag'. injection Hdag' as <-. exact Hrule.
  - apply (Hscenario 2%nat 0%nat "A"%string "B"%string "F"%string [["A"; "B"]]%string);
      [reflexivity|exact H2|reflexivity..|].
    left. by_compute.
Defined.

(** * A layer with the empty name *)

Lemma links_rankedb_sound (network : Network) (rank : string → nat) :
  links_rankedb network rank = true →
  ∀ a b, a ∈ net_iter network → b ∈ net_iter network →
    (Some a ∈ prev_layers network b ↔ Some b ∈ next_layers network a) ∧
    (Some a ∈ prev_layers network b → (rank a < rank b)%nat).
Proof.
  unfold links_rankedb. intros Hpairs a b Ha%list_elem_of_In Hb%list_elem_of_In.
  rewrite forallb_forall in Hpairs. specialize (Hpairs a Ha).
  rewrite forallb_forall in Hpairs. specialize (Hpairs b Hb).
  apply andb_true_iff in Hpairs as [Heq Hrank]. apply eqb_prop in Heq. split.
  - rewrite <- (bool_decide_eq_true (Some a ∈ _)),
            <- (bool_decide_eq_true (Some b ∈ _)). by rewrite Heq.
  - intros Hp. apply orb_true_iff in Hrank as [Hn|Hr].
    + apply negb_true_iff, bool_decide_eq_false in Hn. done.
    + by apply bool_decide_eq_true in Hr.
Qed.

Lemma empty_name_pipeline_constructed :
  __init__ (PyNetwork empty_name_network) 1 (PyResource example_resource)
    max_util_drop_default = Ok empty_name_pipeline.
Proof. apply init_pipeline_of; [done|]. vm_compute. reflexivity. Qed.

(** C2 fails on a network the constructor accepts.  The layers of
    [empty_name_network] have distinct names, their next layers are the
    converse of their previous layers and each is declared after its
    previous layers; one layer has the empty name.  The tests [if pl] and
    [if not nl] of lines 279 and 287 and the test [if nl] of line 325 take
    the empty name for the marker [None] of the input and of the output.
    The constructor returns a pipeline in which the vertex 1, made of X
    and of the layer with the empty name, has the previous vertices 0 and
    2, and a pass of the enumerator yields the vseg (1, 2): the vertex 1
    has more than one previous vertex and is in a vseg with its previous
    vertex 2, against the rule 2. *)
Theorem gen_vseg_couples_prevs_empty_name :
  (NoDup (net_iter empty_name_network) ∧
   ∀ a b, a ∈ net_iter empty_name_network → b ∈ net_iter empty_name_network →
     (Some a ∈ prev_layers empty_name_network b ↔
      Some b ∈ next_layers empty_name_network a) ∧
     (Some a ∈ prev_layers empty_name_network b →
      (declaration_rank empty_name_network a
       < declaration_rank empty_name_network b)%nat)) ∧
  __init__ (PyNetwork empty_name_network) 1 (PyResource example_resource)
    max_util_drop_default = Ok empty_name_pipeline ∧
  yields (self_gen_vseg empty_name_pipeline)
  = [[0]; [1]; [2]; [3]; [2; 3]; [1; 2]; [1; 2; 3]] ∧
  prevs_of (dag_prev_dict (dag empty_name_pipeline)) 1 = {[ 0; 2 ]} ∧
  (1 < size (prevs_of (dag_prev_dict (dag empty_name_pipeline)) 1))%nat ∧
  ¬ rule2 (dag_prev_dict (dag empty_name_pipeline)) [1; 2].
Proof.
  assert (Hp : prevs_of (dag_prev_dict (dag empty_name_pipeline)) 1 = {[ 0; 2 ]})
    by (vm_compute; reflexivity).
  assert (Hsize : (1 < size (prevs_of (dag_prev_dict (dag empty_name_pipeline)) 1))%nat)
    by (rewrite Hp; vm_compute; lia).
  split; [split; [by_compute|apply links_rankedb_sound; vm_compute; reflexivity]|].
  split; [apply empty_name_pipeline_constructed|].
  split; [vm_compute; reflexivity|]. split; [exact Hp|]. split; [exact Hsize|].
  intros Hrule. apply (Hrule 1 2); [set_solver|exact Hsize|rewrite Hp; set_solver|set_solver].
Qed.

(** C3 fails on a network the constructor accepts.  [empty_name_network]
    is acyclic: every layer is declared after its previous layers.  The
    layer P is a previous layer of the layer with the empty name, which
    the sorter does not follow from P (line 325 takes the empty name for
    the marker [None] of the output); that layer is in the vertex of X,
    which is visited after the vertex of P and so stands before it in the
    order: in [ordered_layer_list] the layer with the empty name is at
    position 2 and its previous layer P at position 3. *)
Theorem ordered_layer_list_consumer_first_empty_name :
  (NoDup (net_iter empty_name_network) ∧
   ∀ a b, a ∈ net_iter empty_name_network → b ∈ net_iter empty_name_network →
     (Some a ∈ prev_layers empty_name_network b ↔
      Some b ∈ next_layers empty_name_network a) ∧
     (Some a ∈ prev_layers empty_name_network b →
      (declaration_rank empty_name_network a
       < declaration_rank empty_name_network b)%nat)) ∧
  __init__ (PyNetwork empty_name_network) 1 (PyResource example_resource)
    max_util_drop_default = Ok empty_name_pipeline ∧
  ordered_layer_list empty_name_pipeline = ["A"; "X"; ""; "P"; "Q"]%string ∧
  Some "P"%string ∈ prev_layers empty_name_network "" ∧
  ordered_layer_list empty_name_pipeline !! 3%nat = Some "P"%string ∧
  ordered_layer_list empty_name_pipeline !! 2%nat = Some ""%string.
Proof.
  split; [split; [by_compute|apply links_rankedb_sound; vm_compute; reflexivity]|].
  split; [apply empty_name_pipeline_constructed|].
  split; [reflexivity|]. split; [by_compute|]. split; reflexivity.
Qed.

